(** * Downloads folder organiser: a shallow embedding of [organiser.py]

    The development follows the source file section by section:
    - [PyStr]: the string primitives of Python the engine relies on
      ([str.lower], [re.sub(r'[^\w\s-]', '', _)], [str.replace],
      [str.strip], [pathlib] suffixes, [os.path.splitext]);
    - the data model (category map, oracle records, staging entries), the
      environment the engine talks to (oracle, filesystem, clock) and a
      small state-and-exception monad in which the functions of the source
      are written;
    - the functions themselves, under the names they have in the source;
    - the vocabulary of the statements and the inputs of the examples;
    - the properties of the engine.

    Characters are the 8-bit characters of [ascii]; on the ASCII range the
    character classes below are those of Python 3 for [str] patterns.  Code
    points above 127 are not letters, digits or blanks in this model.

    The outside world is explicit.  Every call that leaves the program (an
    oracle request, a filesystem operation, the drawing of a UUID) takes the
    next instant of the run, and the environment says what happens at that
    instant, so that the statements hold for every behaviour of the oracle
    and of the filesystem.  What the program does to the world is recorded
    in a trace.  The images folder is a finite map from file names to file
    contents (it holds files only); the staging directory is the list that
    [iterdir] yields.  Times are the naive local datetimes that the source
    compares ([datetime.now()], [datetime.fromtimestamp(st_mtime)]), counted
    in microseconds; [local_time] relates them to instants of the epoch.
    Exceptions that the source lets escape (a directory that cannot be
    created or listed, a [stat] that fails) escape here too.

    The map file is modelled for the documents the program writes: when it
    parses, it holds a JSON object from names to lists of strings.
    [json.load] does not check that shape, and a file that holds another
    JSON value is not covered here. *)

From Stdlib Require Import ZArith Lia Ascii String.
From stdpp Require Import gmap strings list fin_maps pretty.

Open Scope string_scope.

(* ===================================================================== *)
(** ** Python string primitives                                           *)
(* ===================================================================== *)

Module PyStr.

Definition code (c : ascii) : nat := nat_of_ascii c.

Definition in_range (lo hi : nat) (c : ascii) : bool :=
  (lo <=? code c)%nat && (code c <=? hi)%nat.

Definition is_upper (c : ascii) : bool := in_range 65 90 c.
Definition is_lower (c : ascii) : bool := in_range 97 122 c.
Definition is_digit (c : ascii) : bool := in_range 48 57 c.

(** [\w] : letters, digits and the underscore. *)
Definition is_word (c : ascii) : bool :=
  is_upper c || is_lower c || is_digit c || (code c =? 95)%nat.

(** [\s], that is [str.isspace]: TAB, LF, VT, FF, CR, the four
    separators FS, GS, RS, US, and the space. *)
Definition is_space (c : ascii) : bool :=
  in_range 9 13 c || in_range 28 31 c || (code c =? 32)%nat.

Definition is_hyphen (c : ascii) : bool := (code c =? 45)%nat.

(** The characters that [re.sub(r'[^\w\s-]', '', _)] keeps. *)
Definition kept (c : ascii) : bool := is_word c || is_space c || is_hyphen c.

Definition lower_char (c : ascii) : ascii :=
  if is_upper c then ascii_of_nat (code c + 32) else c.

(** [s.lower()] *)
Fixpoint lower (s : string) : string :=
  match s with
  | EmptyString => EmptyString
  | String c r => String (lower_char c) (lower r)
  end.

Fixpoint filter_chars (p : ascii -> bool) (s : string) : string :=
  match s with
  | EmptyString => EmptyString
  | String c r => if p c then String c (filter_chars p r) else filter_chars p r
  end.

(** [re.sub(r'[^\w\s-]', '', s)] *)
Definition re_sub_non_word (s : string) : string := filter_chars kept s.

(** [s.replace(a, b)] for one-character [a] and [b]. *)
Fixpoint replace (a b : ascii) (s : string) : string :=
  match s with
  | EmptyString => EmptyString
  | String c r => String (if Ascii.eqb c a then b else c) (replace a b r)
  end.

Fixpoint lstrip (s : string) : string :=
  match s with
  | EmptyString => EmptyString
  | String c r => if is_space c then lstrip r else s
  end.

Definition rstrip (s : string) : string := String.rev (lstrip (String.rev s)).

(** [s.strip()] *)
Definition strip (s : string) : string := rstrip (lstrip s).

(** [s[i:]] *)
Fixpoint drop (i : nat) (s : string) : string :=
  match i, s with
  | O, _ => s
  | S _, EmptyString => EmptyString
  | S i', String _ r => drop i' r
  end.

(** [s.rfind(c)] counted from position [i] of the whole string; [None]
    stands for Python's [-1]. *)
Fixpoint rfind_from (i : nat) (c : ascii) (s : string) : option nat :=
  match s with
  | EmptyString => None
  | String a r =>
      match rfind_from (S i) c r with
      | Some j => Some j
      | None => if Ascii.eqb a c then Some i else None
      end
  end.

Definition rfind (c : ascii) (s : string) : option nat := rfind_from 0 c s.

Definition dot : ascii := "."%char.

(** [pathlib.PurePath.suffix] of a file name:
    [i = name.rfind('.'); name[i:] if 0 < i < len(name) - 1 else ''] *)
Definition suffix (name : string) : string :=
  match rfind dot name with
  | Some i =>
      if (0 <? i)%nat && (i <? String.length name - 1)%nat then drop i name else ""
  | None => ""
  end.

(** Is there a character other than the dot among the first [n]? *)
Fixpoint has_non_dot (n : nat) (s : string) : bool :=
  match n, s with
  | S n', String a r => negb (Ascii.eqb a dot) || has_non_dot n' r
  | _, _ => false
  end.

(** [os.path.splitext(name)[1]] for a name without directory separators:
    the part from the last dot on, unless only dots come before it. *)
Definition splitext_ext (name : string) : string :=
  match rfind dot name with
  | Some i => if has_non_dot i name then drop i name else ""
  | None => ""
  end.

(** [s.startswith(p)] *)
Fixpoint startswith (p s : string) : bool :=
  match p, s with
  | EmptyString, _ => true
  | String a p', String b s' => Ascii.eqb a b && startswith p' s'
  | String _ _, EmptyString => false
  end.

(** [p in s] for strings *)
Fixpoint contains (p s : string) : bool :=
  startswith p s ||
  match s with
  | EmptyString => false
  | String _ r => contains p r
  end.

(** [s.endswith(p)] *)
Definition endswith (p s : string) : bool :=
  startswith (String.rev p) (String.rev s).

(** [s.endswith(tuple)] *)
Definition endswith_any (ps : list string) (s : string) : bool :=
  existsb (fun p => endswith p s) ps.

(** [x in l] for a list of strings *)
Definition mem (x : string) (l : list string) : bool :=
  existsb (String.eqb x) l.

(** Truthiness of a [str]. *)
Definition truthy (s : string) : bool :=
  match s with EmptyString => false | String _ _ => true end.

End PyStr.

(* ===================================================================== *)
(** ** Configuration constants                                             *)
(* ===================================================================== *)

Definition MAX_RETRIES : nat := 3.
Definition RETRY_DELAY : nat := 10.
Definition IMAGE_EXTENSIONS : list string := [".png"; ".jpg"; ".jpeg"; ".webp"].
Definition PROCESSED_SUFFIX : string := "_DESC".
Definition BATCH_SIZE : nat := 10.

(** [ARCHIVE_DIR.name], [FOLDERS_DEST_DIR.name] and [CONFIG_FILE.name]. *)
Definition ARCHIVE_DIR_name : string := "Organized_Archive".
Definition FOLDERS_DEST_DIR_name : string := "Folders".
Definition CONFIG_FILE_name : string := ".file_organizer_config.txt".

(** [timedelta(hours=24)], in microseconds. *)
Definition DAY : Z := 24 * 3600 * 1000000.
Definition HOUR : Z := 3600 * 1000000.

(** [datetime.now()] and [datetime.fromtimestamp(t)] give naive local
    datetimes: the reading of the local clock at an instant [t] of the
    epoch.  With [utc_offset] the offset of the local zone from UTC at each
    instant, that reading is [t + utc_offset t]. *)
Definition local_time (utc_offset : Z -> Z) (t : Z) : Z := (t + utc_offset t)%Z.

(* ===================================================================== *)
(** ** Data model                                                          *)
(* ===================================================================== *)

(** The category map is a Python [dict] from category names to lists of
    extensions.  Lookup goes through the categories in insertion order, so
    the dictionary is an association list in that order. *)
Definition ExtMap : Type := list (string * list string).

(** The pydantic schemas of the agents. *)
Record FolderRecommendation := {
  suggested_folder_name : string;
  is_new_category : bool
}.

Record CodeClassification := {
  project_name : string;
  suggested_folder : string
}.

Record ImageDescription := {
  original_filename : string;
  short_title : string
}.

(** One entry of [DOWNLOADS_DIR.iterdir()].  [mtime] is
    [datetime.fromtimestamp(item.stat().st_mtime)], the local wall-clock time
    of the last modification: a naive datetime, counted in microseconds. *)
Record Entry := {
  name : string;
  is_dir : bool;
  mtime : Z
}.

(** A path below [ARCHIVE_DIR], as the strings that the code joins with
    [/].  The list is what the program passes to [pathlib], which
    normalises the result: a string may hold separators itself, and an
    empty one adds nothing. *)
Definition Path : Type := list string.

(** [destination_folder] is [None], a [str] or a [pathlib.Path]. *)
Inductive destination :=
| DestStr (s : string)
| DestPath (p : Path).

(** What a call of [generate_content] followed by the decoding of its
    answer can do: give a record, raise [APIError], or raise another
    exception (connection lost, text that is not JSON, a record that the
    schema rejects). *)
Inductive reply (A : Type) :=
| Answer (a : A)
| ApiFailure
| Malformed.
Arguments Answer {A} a.
Arguments ApiFailure {A}.
Arguments Malformed {A}.

(** The extension map file on disk: missing, present with a text that
    cannot be read or does not parse (an empty file, a text cut short), or
    holding the JSON text of a map. *)
Inductive map_file_state :=
| Absent
| Unreadable
| Stored (m : ExtMap).

(** The texts given to [log_message], by call site. *)
Inductive message :=
| MsgStartSorting
| MsgDownloadsNotFound
| MsgMapUpdated (extension category : string)
| MsgMapWriteFatal
| MsgExtensionAgentError (attempt : nat)
| MsgExtensionAgentUnexpected
| MsgCodeAnalysisFailed (filename : string)
| MsgImageAgentError (attempt : nat)
| MsgRetryAttempt (filename : string)
| MsgRetrySuccess (new_filename : string)
| MsgRetryFailed (filename : string)
| MsgRestoreFatal
| MsgFolderMoved (filename : string)
| MsgFolderMoveError (filename : string)
| MsgExcluded (filename : string)
| MsgRecent (filename : string)
| MsgProcessing (filename : string)
| MsgClassifiedAs (folder : string)
| MsgMoved (filename : string) (folder : string)
| MsgMoveError (filename : string)
| MsgSortingComplete (files folders : nat)
| MsgRenamerStart
| MsgRenamerNoFolder
| MsgRenamerFound (eligible : nat)
| MsgRenamerComplete (renamed : nat).

(** The requests sent to the classification oracle. *)
Inductive agent_call :=
| AskExtension (extension : string) (existing_folders : list string)
| AskCode (filename : string)
| AskImageBatch (filenames : list string)
| AskImage (temp_filename : string).

(** What a run does to the outside world, in order. *)
Inductive event :=
| Log (m : message)
| Warn
| Sleep (seconds : nat)
| Agent (c : agent_call)
| Mkdir (p : Path)
| Move (item : string) (target : Path)
| Rename (src dst : string)
| WriteMap (m : ExtMap).

(** The environment of a run.  Every interaction with the outside world
    takes the next instant of the run, and the environment says what happens
    at that instant; quantifying over environments covers every behaviour of
    the oracle and of the filesystem. *)
Record Env := {
  gemini_client : bool;                  (* [gemini_client is not None] *)
  downloads_exists : bool;               (* [DOWNLOADS_DIR.exists()] *)
  downloads : list Entry;                (* [DOWNLOADS_DIR.iterdir()] *)
  downloads_listable : bool;             (* [DOWNLOADS_DIR.iterdir()] does not raise *)
  images_listable : bool;                (* nor does the listing of the images folder *)
  now : Z;                               (* [datetime.now()]: local wall-clock time,
                                            a naive datetime in microseconds *)
  classify_extension : nat -> reply FolderRecommendation;
  classify_code : nat -> reply CodeClassification;
  describe_image_batch : nat -> reply (list ImageDescription);
  describe_image : nat -> reply (option string);  (* [json_data.get('short_title')] *)
  mkdir_ok : nat -> bool;
  stat_ok : nat -> bool;
  move_ok : nat -> bool;
  rename_ok : nat -> bool;
  read_ok : nat -> bool;
  write_ok : nat -> bool;
  write_opens : nat -> bool;             (* when a write fails: whether [open(_, 'w')]
                                            had gone through, which creates or
                                            truncates the file *)
  image_open_ok : nat -> bool;
  uuid4_hex8 : nat -> string;            (* [uuid.uuid4().hex[:8]] *)
  rename_replaces : bool                 (* POSIX [os.rename] replaces an existing
                                            target, the Windows one raises *)
}.

(** The state a run changes: the clock of instants, the trace of effects,
    the map file, and the folder the image renamer works on (file names to
    file contents, [None] when the folder does not exist). *)
Record World := {
  tick : nat;
  trace : list event;
  map_file : map_file_state;
  images : option (gmap string nat)
}.

(* ===================================================================== *)
(** ** State and exceptions                                                *)
(* ===================================================================== *)

(** [APIError] is told apart from every other [Exception]. *)
Inductive exn :=
| APIError
| OtherException.

Inductive outcome (A : Type) :=
| Return (a : A)
| Raise (e : exn).
Arguments Return {A} a.
Arguments Raise {A} e.

Definition M (A : Type) : Type := World -> outcome A * World.

Definition ret {A} (a : A) : M A := fun w => (Return a, w).

Definition bind {A B} (m : M A) (k : A -> M B) : M B :=
  fun w =>
    match m w with
    | (Return a, w') => k a w'
    | (Raise e, w') => (Raise e, w')
    end.

Definition raise {A} (e : exn) : M A := fun w => (Raise e, w).

(** [try: body  except ... : handler] *)
Definition try_except {A} (body : M A) (handler : exn -> M A) : M A :=
  fun w =>
    match body w with
    | (Return a, w') => (Return a, w')
    | (Raise e, w') => handler e w'
    end.

Declare Scope py_scope.
Delimit Scope py_scope with py.
Notation "x <- c1 ;; c2" := (bind c1 (fun x => c2))
  (at level 100, c1 at next level, right associativity) : py_scope.
Notation "c1 ;; c2" := (bind c1 (fun _ => c2))
  (at level 100, right associativity) : py_scope.
Open Scope py_scope.

Definition set_tick (n : nat) (w : World) : World :=
  {| tick := n; trace := trace w; map_file := map_file w; images := images w |}.
Definition set_trace (t : list event) (w : World) : World :=
  {| tick := tick w; trace := t; map_file := map_file w; images := images w |}.
Definition set_map_file (f : map_file_state) (w : World) : World :=
  {| tick := tick w; trace := trace w; map_file := f; images := images w |}.
Definition set_images (d : option (gmap string nat)) (w : World) : World :=
  {| tick := tick w; trace := trace w; map_file := map_file w; images := d |}.

(** The next instant of the run. *)
Definition instant : M nat := fun w => (Return (tick w), set_tick (S (tick w)) w).

Definition emit (e : event) : M unit :=
  fun w => (Return tt, set_trace (trace w ++ [e]) w).

Definition get_world : M World := fun w => (Return w, w).

Definition put_map_file (f : map_file_state) : M unit :=
  fun w => (Return tt, set_map_file f w).

Definition put_images (d : gmap string nat) : M unit :=
  fun w => (Return tt, set_images (Some d) w).

Definition log_message (m : message) : M unit := emit (Log m).

Definition sleep (seconds : nat) : M unit := emit (Sleep seconds).

(** An operation that the environment lets through or not. *)
Definition guarded (ok : nat -> bool) : M unit :=
  n <- instant ;;
  if ok n then ret tt else raise OtherException.

Definition of_reply {A} (r : reply A) : M A :=
  match r with
  | Answer a => ret a
  | ApiFailure => raise APIError
  | Malformed => raise OtherException
  end.

(* ===================================================================== *)
(** ** Dictionary operations on the category map                           *)
(* ===================================================================== *)

(** [k in d] *)
Definition dict_has (k : string) (d : ExtMap) : bool :=
  existsb (fun kv => String.eqb k (fst kv)) d.

(** [d.get(k)] *)
Fixpoint dict_get (k : string) (d : ExtMap) : option (list string) :=
  match d with
  | [] => None
  | (k', v) :: r => if String.eqb k k' then Some v else dict_get k r
  end.

(** [d[k] = v]: an existing key keeps its place, a new key goes last. *)
Fixpoint dict_set (k : string) (v : list string) (d : ExtMap) : ExtMap :=
  match d with
  | [] => [(k, v)]
  | (k', v') :: r =>
      if String.eqb k k' then (k', v) :: r else (k', v') :: dict_set k v r
  end.

(** [d.keys()] *)
Definition dict_keys (d : ExtMap) : list string := map fst d.

Definition default_map : ExtMap :=
  [ ("Images", [".jpg"; ".jpeg"; ".png"; ".gif"; ".ico"; ".webp"; ".tiff"]);
    ("Documents", [".pdf"; ".docx"; ".doc"; ".txt"; ".xlsx"; ".pptx"; ".csv"; ".epub"; ".odt"]);
    ("Installers", [".exe"; ".msi"; ".dmg"; ".pkg"]);
    ("Archives", [".zip"; ".rar"; ".7z"; ".tar"; ".gz"]);
    ("Code", [".py"; ".js"; ".html"; ".css"; ".md"; ".json"; ".log"]);
    ("Audio", [".mp3"; ".wav"; ".aac"; ".flac"]);
    ("Video", [".mp4"; ".mov"; ".mkv"; ".avi"]);
    ("Exclusions", [".temp"; ".lock"; "README.md"; "desktop.ini"]) ].

(** The loop of step 3 of [organize_downloads]:
    [for category, extensions in EXT_MAP.items(): if ext in extensions: ...; break] *)
Fixpoint rule_lookup (ext : string) (m : ExtMap) : option string :=
  match m with
  | [] => None
  | (category, extensions) :: r =>
      if PyStr.mem ext extensions then Some category else rule_lookup ext r
  end.

(** [re.sub(r'[^\w\s-]', '', folder_name).replace(' ', '_')] *)
Definition safe_name (folder_name : string) : string :=
  PyStr.replace " " "_" (PyStr.re_sub_non_word folder_name).

(** [re.sub(r'[^\w\s-]', '', title).strip().replace(' ', '_').replace('-', '_')] *)
Definition clean_title (title : string) : string :=
  PyStr.replace "-" "_" (PyStr.replace " " "_" (PyStr.strip (PyStr.re_sub_non_word title))).

(** [path.as_posix()] of a relative path; empty components are dropped. *)
Definition as_posix (p : Path) : string :=
  match filter (fun c => c ≠ "") p with
  | [] => "."
  | a :: r => fold_left (fun acc b => acc +:+ "/" +:+ b) r a
  end.

(** [f"{new_base_name}_{counter}{ext}"] *)
Definition numbered (new_base_name : string) (counter : nat) (ext : string) : string :=
  new_base_name +:+ "_" +:+ pretty counter +:+ ext.

(* ===================================================================== *)
(** ** The functions of the source                                         *)
(* ===================================================================== *)

Section Engine.

Variable E : Env.

(** [path.mkdir(parents=True, exist_ok=True)] *)
Definition mkdir (p : Path) : M unit :=
  guarded (mkdir_ok E) ;; emit (Mkdir p).

(** [shutil.move(str(item), str(target))] *)
Definition shutil_move (item : string) (target : Path) : M unit :=
  guarded (move_ok E) ;; emit (Move item target).

(** [with open(EXTENSION_MAP_FILE, 'w') as f: json.dump(m, f, indent=4)].
    A write that fails leaves the file as it was when [open] itself failed;
    once the file is open it has been created or truncated, and what a
    failing [json.dump] leaves of the text of a JSON object does not parse. *)
Definition dump_map (m : ExtMap) : M unit :=
  n <- instant ;;
  if write_ok E n then
    put_map_file (Stored m) ;;
    emit (WriteMap m)
  else
    (if write_opens E n then put_map_file Unreadable else ret tt) ;;
    raise OtherException.

(** [os.rename(src, dst)] inside the images folder. *)
Definition os_rename (src dst : string) : M unit :=
  guarded (rename_ok E) ;;
  w <- get_world ;;
  match images w with
  | None => raise OtherException
  | Some d =>
      match d !! src with
      | None => raise OtherException
      | Some content =>
          if bool_decide (is_Some (d !! dst)) && negb (String.eqb src dst)
             && negb (rename_replaces E)
          then raise OtherException
          else
            put_images (<[dst := content]> (delete src d)) ;;
            emit (Rename src dst)
      end
  end.

(** [Image.open(folder / filename)] *)
Definition image_open (filename : string) : M unit :=
  w <- get_world ;;
  match images w with
  | None => raise OtherException
  | Some d =>
      match d !! filename with
      | None => raise OtherException
      | Some _ => guarded (image_open_ok E)
      end
  end.

(** [(folder / filename).exists()] *)
Definition path_exists (w : World) (filename : string) : bool :=
  match images w with
  | None => false
  | Some d => bool_decide (is_Some (d !! filename))
  end.

(** [load_extension_map()].  The creation of the archive directory sits
    before the [try]; what [json.load] reads is returned as it is. *)
Definition load_extension_map : M ExtMap :=
  mkdir [] ;;
  try_except
    (w <- get_world ;;
     match map_file w with
     | Stored m => guarded (read_ok E) ;; ret m
     | Unreadable => guarded (read_ok E) ;; raise OtherException
     | Absent => dump_map default_map ;; ret default_map
     end)
    (fun _ => emit Warn ;; ret default_map).

Definition update_extension_map (ext_map : ExtMap) (extension folder_name : string)
  : M ExtMap :=
  let safe_folder_name := safe_name folder_name in
  let extension := PyStr.lower extension in
  let ext_map :=
    if negb (dict_has safe_folder_name ext_map)
    then dict_set safe_folder_name [] ext_map else ext_map in
  let extensions := default [] (dict_get safe_folder_name ext_map) in
  if negb (PyStr.mem extension extensions) then
    let ext_map := dict_set safe_folder_name (extensions ++ [extension])%list ext_map in
    log_message (MsgMapUpdated extension safe_folder_name) ;;
    try_except (dump_map ext_map) (fun _ => log_message MsgMapWriteFatal) ;;
    ret ext_map
  else ret ext_map.

(** The [while retries < MAX_RETRIES] loop of [get_folder_recommendation];
    [fuel] bounds the iterations that are left. *)
Fixpoint extension_attempts (fuel retries : nat) (extension : string)
    (existing_folders : list string) : M (option FolderRecommendation) :=
  match fuel with
  | O => ret None
  | S fuel' =>
      if (retries <? MAX_RETRIES)%nat then
        try_except
          (n <- instant ;;
           emit (Agent (AskExtension extension existing_folders)) ;;
           r <- of_reply (classify_extension E n) ;;
           ret (Some r))
          (fun e =>
             match e with
             | APIError =>
                 let retries := S retries in
                 log_message (MsgExtensionAgentError retries) ;;
                 sleep RETRY_DELAY ;;
                 extension_attempts fuel' retries extension existing_folders
             | OtherException =>
                 log_message MsgExtensionAgentUnexpected ;;
                 ret None
             end)
      else ret None
  end.

Definition get_folder_recommendation (extension : string)
    (existing_folders : list string) : M (option FolderRecommendation) :=
  if negb (gemini_client E) then ret None
  else extension_attempts MAX_RETRIES 0 extension existing_folders.

(** The loop of [analyze_code_content] returns or raises in its first
    iteration, so the oracle is asked once. *)
Definition analyze_code_content (filename : string) : M (option CodeClassification) :=
  if negb (gemini_client E) then ret None
  else
    try_except
      (guarded (read_ok E) ;;
       n <- instant ;;
       emit (Agent (AskCode filename)) ;;
       r <- of_reply (classify_code E n) ;;
       ret (Some r))
      (fun _ => log_message (MsgCodeAnalysisFailed filename) ;; ret None).

(** The local variables of [organize_downloads] that its loop changes. *)
Record Locals := {
  EXT_MAP : ExtMap;
  files_processed : nat;
  folders_processed : nat
  }.

(** Step 6 of the loop body, the final move. *)
Definition final_move (item : Entry) (destination_folder : option destination)
    (l : Locals) : M Locals :=
  let moved :=
    {| EXT_MAP := EXT_MAP l;
       files_processed := S (files_processed l);
       folders_processed := folders_processed l |} in
  match destination_folder with
  | None => ret l
  | Some (DestStr "") => ret l
  | Some (DestStr folder) =>
      mkdir [folder] ;;
      try_except
        (shutil_move (name item) [folder; name item] ;;
         log_message (MsgMoved (name item) folder) ;;
         ret moved)
        (fun _ => log_message (MsgMoveError (name item)) ;; ret l)
  | Some (DestPath p) =>
      try_except
        (shutil_move (name item) (p ++ [name item])%list ;;
         log_message (MsgMoved (name item) (as_posix p)) ;;
         ret moved)
        (fun _ => log_message (MsgMoveError (name item)) ;; ret l)
  end.

(** Steps 3 to 6 of the loop body. *)
Definition classify_and_move (existing_categories : list string) (item : Entry)
    (l : Locals) : M Locals :=
  log_message (MsgProcessing (name item)) ;;
  let ext := PyStr.lower (PyStr.suffix (name item)) in
  let destination_folder := rule_lookup ext (EXT_MAP l) in
  match destination_folder with
  | Some category =>
      if String.eqb category "Code" then
        code_info <- analyze_code_content (name item) ;;
        match code_info with
        | Some info =>
            if PyStr.truthy (suggested_folder info) then
              let semantic_folder := safe_name (suggested_folder info) in
              mkdir ["Code_Projects"; semantic_folder] ;;
              log_message (MsgClassifiedAs semantic_folder) ;;
              final_move item (Some (DestPath ["Code_Projects"; semantic_folder])) l
            else final_move item (Some (DestStr category)) l
        | None => final_move item (Some (DestStr category)) l
        end
      else final_move item (Some (DestStr category)) l
  | None =>
      recommendation <- get_folder_recommendation ext existing_categories ;;
      match recommendation with
      | Some r =>
          if PyStr.truthy (suggested_folder_name r) then
            let destination_folder := suggested_folder_name r in
            ext_map <- update_extension_map (EXT_MAP l) ext destination_folder ;;
            final_move item (Some (DestStr destination_folder))
              {| EXT_MAP := ext_map;
                 files_processed := files_processed l;
                 folders_processed := folders_processed l |}
          else final_move item (Some (DestStr "Unsorted_Agent_Failed")) l
      | None => final_move item (Some (DestStr "Unsorted_Agent_Failed")) l
      end
  end.

(** The body of [for item in DOWNLOADS_DIR.iterdir()]. *)
Definition process_item (process_all_files : bool) (CUTOFF_TIME : Z)
    (exclusion_list existing_categories : list string) (item : Entry)
    (l : Locals) : M Locals :=
  if is_dir item then
    if String.eqb (name item) ARCHIVE_DIR_name
       || String.eqb (name item) FOLDERS_DEST_DIR_name
    then ret l
    else
      try_except
        (shutil_move (name item) [FOLDERS_DEST_DIR_name; name item] ;;
         log_message (MsgFolderMoved (name item)) ;;
         ret {| EXT_MAP := EXT_MAP l;
                files_processed := files_processed l;
                folders_processed := S (folders_processed l) |})
        (fun _ => log_message (MsgFolderMoveError (name item)) ;; ret l)
  else if String.eqb (name item) CONFIG_FILE_name then ret l
  else if PyStr.mem (PyStr.lower (name item)) exclusion_list
          || PyStr.mem (PyStr.lower (PyStr.suffix (name item))) exclusion_list
  then log_message (MsgExcluded (name item)) ;; ret l
  else if negb process_all_files then
    guarded (stat_ok E) ;;
    (* [datetime.fromtimestamp(item.stat().st_mtime)], see [Entry] *)
    let file_mod_time := mtime item in
    if (CUTOFF_TIME <=? file_mod_time)%Z
    then log_message (MsgRecent (name item)) ;; ret l
    else classify_and_move existing_categories item l
  else classify_and_move existing_categories item l.

Fixpoint for_each_item (process_all_files : bool) (CUTOFF_TIME : Z)
    (exclusion_list existing_categories : list string) (items : list Entry)
    (l : Locals) : M Locals :=
  match items with
  | [] => ret l
  | item :: rest =>
      l' <- process_item process_all_files CUTOFF_TIME exclusion_list
              existing_categories item l ;;
      for_each_item process_all_files CUTOFF_TIME exclusion_list
        existing_categories rest l'
  end.

Definition organize_downloads (process_all_files : bool) : M nat :=
  log_message MsgStartSorting ;;
  if negb (downloads_exists E) then
    log_message MsgDownloadsNotFound ;; ret 0%nat
  else
    ext_map <- load_extension_map ;;
    mkdir [] ;;
    mkdir [FOLDERS_DEST_DIR_name] ;;
    let CUTOFF_TIME := (now E - DAY)%Z in
    let exclusion_list := map PyStr.lower (default [] (dict_get "Exclusions" ext_map)) in
    let existing_categories :=
      filter (fun k => k ≠ "Exclusions") (dict_keys ext_map) in
    (* [DOWNLOADS_DIR.iterdir()], outside any [try] *)
    if negb (downloads_listable E) then raise OtherException
    else
      l <- for_each_item process_all_files CUTOFF_TIME exclusion_list
             existing_categories (downloads E)
             {| EXT_MAP := ext_map; files_processed := 0; folders_processed := 0 |} ;;
      log_message (MsgSortingComplete (files_processed l) (folders_processed l)) ;;
      ret (files_processed l).

(** The result map of the batch agent is
    [{desc.original_filename: desc for desc in batch_result.descriptions}]:
    the last description of a file name is the one the dictionary holds. *)
Definition result_get (filename : string) (descriptions : list ImageDescription)
  : option ImageDescription :=
  find (fun d => String.eqb (original_filename d) filename) (rev descriptions).

(** The [while retries < MAX_RETRIES] loop of
    [get_batch_info_from_images_renamer]. *)
Fixpoint image_batch_attempts (fuel retries : nat) (filenames : list string)
  : M (option (list ImageDescription)) :=
  match fuel with
  | O => ret None
  | S fuel' =>
      if (retries <? MAX_RETRIES)%nat then
        try_except
          (n <- instant ;;
           emit (Agent (AskImageBatch filenames)) ;;
           r <- of_reply (describe_image_batch E n) ;;
           ret (Some r))
          (fun _ =>
             let retries := S retries in
             log_message (MsgImageAgentError retries) ;;
             if (retries <? MAX_RETRIES)%nat then
               sleep RETRY_DELAY ;;
               image_batch_attempts fuel' retries filenames
             else ret None)
      else ret None
  end.

Definition get_batch_info_from_images_renamer (image_batch : list string)
  : M (option (list ImageDescription)) :=
  if negb (gemini_client E) then ret None
  else image_batch_attempts MAX_RETRIES 0 image_batch.

(** The search for a free name in [retry_failed_file_renamer]:
    [while new_file_path.exists(): new_filename = f"{base}_{counter}{ext}"; counter += 1] *)
Fixpoint free_name (fuel counter : nat) (new_base_name ext new_filename : string)
    (w : World) : string :=
  match fuel with
  | O => new_filename
  | S fuel' =>
      if path_exists w new_filename
      then free_name fuel' (S counter) new_base_name ext
             (numbered new_base_name counter ext) w
      else new_filename
  end.

(** The number of names the search may find taken, plus one. *)
Definition search_fuel (w : World) : nat :=
  match images w with
  | None => 1
  | Some d => S (size d)
  end.

(** The [except Exception] branch of [retry_failed_file_renamer]. *)
Definition restore_name (original_filename temp_filename : string) : M bool :=
  log_message (MsgRetryFailed original_filename) ;;
  try_except
    (os_rename temp_filename original_filename)
    (fun _ => log_message MsgRestoreFatal) ;;
  ret false.

Definition retry_failed_file_renamer (original_filename : string) : M bool :=
  if negb (gemini_client E) then ret false
  else
    log_message (MsgRetryAttempt original_filename) ;;
    let ext := PyStr.splitext_ext original_filename in
    n <- instant ;;
    let temp_unique_id := uuid4_hex8 E n in
    let temp_filename := "temp_retry_" +:+ temp_unique_id +:+ ext in
    try_except
      (os_rename original_filename temp_filename ;;
       image_open temp_filename ;;
       n <- instant ;;
       emit (Agent (AskImage temp_filename)) ;;
       json_short_title <- of_reply (describe_image E n) ;;
       match json_short_title with
       | None | Some "" => raise OtherException
       | Some short_title =>
           let cleaned_title := clean_title short_title in
           let new_base_name := cleaned_title +:+ PROCESSED_SUFFIX in
           w <- get_world ;;
           let new_filename :=
             free_name (search_fuel w) 1 new_base_name ext (new_base_name +:+ ext) w in
           os_rename temp_filename new_filename ;;
           log_message (MsgRetrySuccess new_filename) ;;
           ret true
       end)
      (fun _ => restore_name original_filename temp_filename).

(** The local variables of [execute_image_renamer] that its loops change. *)
Record RenamerLocals := {
  batch_processed_count : nat;
  failed_files_for_retry : list string
  }.

Definition queue (filename : string) (l : RenamerLocals) : RenamerLocals :=
  {| batch_processed_count := batch_processed_count l;
     failed_files_for_retry := (failed_files_for_retry l ++ [filename])%list |}.

Definition queue_all (filenames : list string) (l : RenamerLocals) : RenamerLocals :=
  {| batch_processed_count := batch_processed_count l;
     failed_files_for_retry := (failed_files_for_retry l ++ filenames)%list |}.

Definition renamed_one (l : RenamerLocals) : RenamerLocals :=
  {| batch_processed_count := S (batch_processed_count l);
     failed_files_for_retry := failed_files_for_retry l |}.

(** [for filename in current_batch_files: try: Image.open ... except: ...] *)
Fixpoint open_batch (current_batch_files : list string) (image_batch : list string)
    (l : RenamerLocals) : M (list string * RenamerLocals) :=
  match current_batch_files with
  | [] => ret (image_batch, l)
  | filename :: rest =>
      r <- try_except
             (image_open filename ;; ret (image_batch ++ [filename], l)%list)
             (fun _ => ret (image_batch, queue filename l)) ;;
      open_batch rest (fst r) (snd r)
  end.

(** [for original_filename, _ in image_batch: ...] *)
Fixpoint rename_batch (result_map : list ImageDescription) (image_batch : list string)
    (l : RenamerLocals) : M RenamerLocals :=
  match image_batch with
  | [] => ret l
  | original_filename :: rest =>
      match result_get original_filename result_map with
      | None => rename_batch result_map rest (queue original_filename l)
      | Some description_info =>
          l' <- try_except
                  (let ext := PyStr.splitext_ext original_filename in
                   let cleaned_title := clean_title (short_title description_info) in
                   let new_base_name := cleaned_title +:+ PROCESSED_SUFFIX in
                   let new_filename := new_base_name +:+ ext in
                   os_rename original_filename new_filename ;;
                   ret (renamed_one l))
                  (fun _ => ret (queue original_filename l)) ;;
          rename_batch result_map rest l'
      end
  end.

(** [all_files[file_index:file_index + BATCH_SIZE]] *)
Definition slice (all_files : list string) (file_index : nat) : list string :=
  take BATCH_SIZE (drop file_index all_files).

(** One iteration of the [while file_index < total_eligible_files] loop,
    up to the pause before the next batch. *)
Definition process_batch (use_delay : bool) (all_files : list string)
    (file_index : nat) (l : RenamerLocals) : M RenamerLocals :=
  let total_eligible_files := length all_files in
  let current_batch_files := slice all_files file_index in
  r <- open_batch current_batch_files [] l ;;
  let image_batch := fst r in
  l <- match image_batch with
       | [] => ret (snd r)
       | _ :: _ =>
           result_map <- get_batch_info_from_images_renamer image_batch ;;
           match result_map with
           | Some (d :: ds) => rename_batch (d :: ds) image_batch (snd r)
           | Some [] | None => ret (queue_all current_batch_files (snd r))
           end
       end ;;
  let file_index := (file_index + BATCH_SIZE)%nat in
  (if use_delay && (file_index <? total_eligible_files)%nat
   then sleep 5 else ret tt) ;;
  ret l.

(** The [while file_index < total_eligible_files] loop. *)
Fixpoint batch_loop (fuel : nat) (use_delay : bool) (all_files : list string)
    (file_index : nat) (l : RenamerLocals) : M RenamerLocals :=
  match fuel with
  | O => ret l
  | S fuel' =>
      if (file_index <? length all_files)%nat then
        l <- process_batch use_delay all_files file_index l ;;
        batch_loop fuel' use_delay all_files (file_index + BATCH_SIZE) l
      else ret l
  end.

(** The files the renamer works on: images that do not bear the marker. *)
Definition eligible (filename : string) : bool :=
  PyStr.endswith_any IMAGE_EXTENSIONS (PyStr.lower filename)
  && negb (PyStr.contains PROCESSED_SUFFIX filename).

(** The renamer up to the end of its loop, with the locals it ends in. *)
Definition renamer_run (use_delay : bool) (d : gmap string nat) : M RenamerLocals :=
  let all_files := filter (fun f => eligible f = true) (map fst (map_to_list d)) in
  let total_eligible_files := length all_files in
  log_message (MsgRenamerFound total_eligible_files) ;;
  batch_loop total_eligible_files use_delay all_files 0
    {| batch_processed_count := 0; failed_files_for_retry := [] |}.

Definition execute_image_renamer (use_delay : bool) : M nat :=
  log_message MsgRenamerStart ;;
  w <- get_world ;;
  match images w with
  | None => log_message MsgRenamerNoFolder ;; ret 0%nat
  | Some d =>
      (* [images_folder.iterdir()] in the list comprehension, outside any [try] *)
      if negb (images_listable E) then raise OtherException
      else
        l <- renamer_run use_delay d ;;
        let total_renamed := batch_processed_count l in
        log_message (MsgRenamerComplete total_renamed) ;;
        ret total_renamed
  end.

End Engine.

(* ===================================================================== *)
(** ** Specification vocabulary                                            *)
(* ===================================================================== *)

(** [wp m w Q]: running [m] from [w] ends in an outcome and a world that
    satisfy [Q]. *)
Definition wp {A} (m : M A) (w : World) (Q : outcome A -> World -> Prop) : Prop :=
  Q (fst (m w)) (snd (m w)).

(** The events a run added to the trace all satisfy [P]. *)
Definition emits (P : event -> Prop) (w w' : World) : Prop :=
  exists t, trace w' = (trace w ++ t)%list /\ Forall P t.

(** [m] only ever adds events that satisfy [P], whatever its outcome. *)
Definition keeps (P : event -> Prop) {A} (m : M A) : Prop :=
  forall w0 w, emits P w0 w -> wp m w (fun _ w' => emits P w0 w').

(** The events of [w'] that came after those of [w]. *)
Definition added (w w' : World) : list event :=
  drop (length (trace w)) (trace w').

(** Sums and counts over the events of a trace. *)
Definition weight (f : event -> nat) (t : list event) : nat :=
  sum_list_with f t.

Definition count (p : event -> bool) (t : list event) : nat :=
  length (filter (fun e => p e = true) t).

(** The requests to the oracle: of any kind, to the extension agent, to the
    extension agent about one extension, and the single-image request of the
    repair. *)
Definition is_agent (e : event) : bool :=
  match e with Agent _ => true | _ => false end.

Definition is_ask_extension (e : event) : bool :=
  match e with Agent (AskExtension _ _) => true | _ => false end.

Definition is_ask_extension_of (ext : string) (e : event) : bool :=
  match e with Agent (AskExtension x _) => String.eqb x ext | _ => false end.

Definition is_ask_image (e : event) : bool :=
  match e with Agent (AskImage _) => true | _ => false end.

(** The log lines of a moved file and of a relocated folder, and the
    seconds slept. *)
Definition file_moved (e : event) : nat :=
  match e with Log (MsgMoved _ _) => 1 | _ => 0 end.

Definition folder_moved (e : event) : nat :=
  match e with Log (MsgFolderMoved _) => 1 | _ => 0 end.

Definition slept (e : event) : nat :=
  match e with Sleep s => s | _ => 0 end.

(** Footprints: the events a function of the source can add to the trace. *)
Definition fp_update (e : event) : Prop :=
  match e with
  | Log (MsgMapUpdated _ _) | Log MsgMapWriteFatal | WriteMap _ => True
  | _ => False
  end.

Definition fp_load (e : event) : Prop :=
  match e with
  | Mkdir _ | WriteMap _ | Warn => True
  | _ => False
  end.

Definition fp_recommend (ext : string) (e : event) : Prop :=
  match e with
  | Agent (AskExtension x _) => x = ext
  | Log (MsgExtensionAgentError _) | Log MsgExtensionAgentUnexpected | Sleep _ => True
  | _ => False
  end.

Definition fp_code (e : event) : Prop :=
  match e with
  | Agent (AskCode _) | Log (MsgCodeAnalysisFailed _) => True
  | _ => False
  end.

(** The run from [w] to [w'] added events of total weight [n]. *)
Definition tally (f : event -> nat) (n : nat) (w w' : World) : Prop :=
  exists t, trace w' = (trace w ++ t)%list /\ weight f t = n.

(** What one iteration leaves in the locals, against what it added to the trace. *)
Definition counted (files folders : nat) (w : World) (r : outcome Locals) (w' : World)
  : Prop :=
  match r with
  | Return l' =>
      exists a b,
        files_processed l' = (files + a)%nat /\ tally file_moved a w w' /\
        folders_processed l' = (folders + b)%nat /\ tally folder_moved b w w'
  | Raise _ => True
  end.

(** An event that is neither of the two counted log lines. *)
Definition uncounted (e : event) : Prop :=
  file_moved e = 0%nat /\ folder_moved e = 0%nat.

(** The outcome is a value, not an exception. *)
Definition returned {A} (r : outcome A) : Prop :=
  match r with Return _ => True | Raise _ => False end.

(** [m] never raises. *)
Definition safe {A} (m : M A) : Prop := forall w, wp m w (fun r _ => returned r).

(** The map [update_extension_map] returns. *)
Definition recorded (m : ExtMap) (extension folder_name : string) : ExtMap :=
  let k := safe_name folder_name in
  let e := PyStr.lower extension in
  let m' := if negb (dict_has k m) then dict_set k [] m else m in
  let old := default [] (dict_get k m') in
  if negb (PyStr.mem e old) then dict_set k (old ++ [e])%list m' else m'.

(** [P] only restricts oracle calls. *)
Definition only_agents (P : event -> Prop) : Prop :=
  forall e, is_agent e = false -> P e.

(** The recommendation the extension agent ends with when its first [k]
    answers are API errors. *)
Definition answer_after (E : Env) (t k : nat) : option FolderRecommendation :=
  if (k <? MAX_RETRIES)%nat then
    match classify_extension E (t + k) with
    | Answer a => Some a
    | _ => None
    end
  else None.

(** [recommendation and recommendation.suggested_folder_name] *)
Definition usable (r : option FolderRecommendation) : bool :=
  match r with
  | Some r => PyStr.truthy (suggested_folder_name r)
  | None => false
  end.

(** [item] with another modification time. *)
Definition touch (t : Z) (item : Entry) : Entry :=
  {| name := name item; is_dir := is_dir item; mtime := t |}.

(** The normalisation of category names as the specification words it:
    characters outside [A-Za-z0-9_- ] go, spaces become underscores. *)
Definition spec_class (c : ascii) : bool :=
  PyStr.is_upper c || PyStr.is_lower c || PyStr.is_digit c
  || Ascii.eqb c "_" || Ascii.eqb c "-" || Ascii.eqb c " ".

Definition spec_safe_name (folder_name : string) : string :=
  PyStr.replace " " "_" (PyStr.filter_chars spec_class folder_name).

(** The characters of a string, and the horizontal tab. *)
Definition chars (s : string) : list ascii := list_ascii_of_string s.

Definition TAB : ascii := ascii_of_nat 9.

(** What [organize_downloads] returns, against what it did. *)
Definition organize_post (E : Env) (w : World) (r : outcome nat) (w' : World) : Prop :=
  match r with
  | Return n =>
      tally file_moved n w w' /\
      (downloads_exists E = false /\ n = 0%nat \/
       exists k, tally folder_moved k w w' /\
                 last (trace w') = Some (Log (MsgSortingComplete n k)))
  | Raise _ => True
  end.

(** An iteration that leaves the category map as it was. *)
Definition same_map (l : Locals) (r : outcome Locals) : Prop :=
  match r with
  | Return l' => EXT_MAP l' = EXT_MAP l
  | Raise _ => True
  end.

(** A mapped extension stays mapped to the same category. *)
Definition still_mapped (e c : string) (r : outcome Locals) : Prop :=
  match r with
  | Return l' => rule_lookup e (EXT_MAP l') = Some c
  | Raise _ => True
  end.

(** The [shutil.move] targets of an item in a trace. *)
Fixpoint moves_of (item : string) (t : list event) : list Path :=
  match t with
  | [] => []
  | Move i target :: r => if String.eqb i item then target :: moves_of item r else moves_of item r
  | _ :: r => moves_of item r
  end.

(** The content of a file of the images folder, and the number of its files. *)
Definition image_at (w : World) (filename : string) : option nat :=
  match images w with
  | Some d => d !! filename
  | None => None
  end.

Definition image_total (w : World) : nat :=
  match images w with
  | Some d => size d
  | None => 0
  end.

(** Whether [os.rename(src, dst)], issued at instant [t] in a folder [d]
    that holds [src], goes through: the environment lets it, and either the
    target is free, or it is the source itself, or the platform replaces
    existing targets. *)
Definition rename_allowed (E : Env) (d : gmap string nat) (src dst : string) (t : nat)
  : bool :=
  rename_ok E t
  && negb (bool_decide (is_Some (d !! dst)) && negb (String.eqb src dst)
           && negb (rename_replaces E)).

(* ===================================================================== *)
(** ** Inputs of the examples                                              *)
(* ===================================================================== *)

(** An environment with a configured client, an existing staging directory
    and a filesystem that lets listings, directory creation, moves, reads and
    image decoding through, and where a write that fails fails at [open]. *)
Definition make_env (entries : list Entry)
    (ext : nat -> reply FolderRecommendation)
    (code : nat -> reply CodeClassification)
    (batch : nat -> reply (list ImageDescription))
    (single : nat -> reply (option string))
    (rename write : nat -> bool) (posix : bool) : Env :=
  {| gemini_client := true; downloads_exists := true; downloads := entries;
     downloads_listable := true; images_listable := true;
     now := 1000 * DAY;
     classify_extension := ext; classify_code := code;
     describe_image_batch := batch; describe_image := single;
     mkdir_ok := fun _ => true; stat_ok := fun _ => true; move_ok := fun _ => true;
     rename_ok := rename; read_ok := fun _ => true; write_ok := write;
     write_opens := fun _ => false;
     image_open_ok := fun _ => true;
     uuid4_hex8 := fun _ => "0a1b2c3d";
     rename_replaces := posix |}.

Definition always {A} (a : A) : nat -> A := fun _ => a.

(** The world at the start of a run. *)
Definition start (d : option (gmap string nat)) : World :=
  {| tick := 0; trace := []; map_file := Absent; images := d |}.

Definition file (n : string) (t : Z) : Entry :=
  {| name := n; is_dir := false; mtime := t |}.

Definition folder (n : string) : Entry :=
  {| name := n; is_dir := true; mtime := 0 |}.

Definition initial (m : ExtMap) : Locals :=
  {| EXT_MAP := m; files_processed := 0; folders_processed := 0 |}.

(** [default_map["Exclusions"]] *)
Definition default_exclusions : list string :=
  [".temp"; ".lock"; "README.md"; "desktop.ini"].

(** An images folder where the name the oracle's title leads to is taken. *)
Definition collision_images : gmap string nat :=
  {[ "a.png" := 1%nat; "Cat_DESC.png" := 2%nat ]}.

Definition cat_env (posix : bool) : Env :=
  make_env [] (always Malformed) (always Malformed)
    (always (Answer [ {| original_filename := "a.png"; short_title := "Cat" |} ]))
    (always (Answer (Some "Cat"))) (always true) (always true) posix.

(** One image, and a batch oracle that fails at every attempt. *)
Definition lone_image : gmap string nat := {[ "a.png" := 1%nat ]}.

Definition failing_batch_env : Env :=
  make_env [] (always Malformed) (always Malformed) (always ApiFailure)
    (always (Answer (Some "Cat"))) (always true) (always true) true.

(** Twelve images; the batch oracle answers the first batch (its call is
    the eleventh interaction of the run) and fails afterwards. *)
Definition twelve : list nat := seq 1 12.

Definition twelve_images : gmap string nat :=
  list_to_map (map (fun n => ("img" +:+ pretty n +:+ ".png", n)) twelve).

Definition twelve_titles : list ImageDescription :=
  map (fun n => {| original_filename := "img" +:+ pretty n +:+ ".png";
                   short_title := "title " +:+ pretty n |}) twelve.

Definition twelve_env : Env :=
  make_env [] (always Malformed) (always Malformed)
    (fun n => if (n =? 10)%nat then Answer twelve_titles else ApiFailure)
    (always (Answer (Some "Cat"))) (always true) (always true) true.

(** A code file whose extension is in the default map. *)
Definition code_env : Env :=
  make_env [file "a.py" 0] (always Malformed)
    (always (Answer {| project_name := "scraper"; suggested_folder := "Web Scraper" |}))
    (always Malformed) (always Malformed) (always true) (always true) true.

(** A PDF, with an oracle that would answer any request. *)
Definition pdf_env : Env :=
  make_env [file "report.pdf" 0]
    (always (Answer {| suggested_folder_name := "Papers"; is_new_category := true |}))
    (always (Answer {| project_name := "p"; suggested_folder := "P" |}))
    (always Malformed) (always Malformed) (always true) (always true) true.


Definition empty_env : Env :=
  make_env [] (always Malformed) (always Malformed)
    (always Malformed) (always Malformed) (always true) (always true) true.

(** Two folders: the name of one is an excluded file name up to case, the
    name of the other ends in an excluded extension. *)
Definition excluded_folder_env : Env :=
  make_env [folder "Desktop.ini"; folder "old.temp"] (always Malformed) (always Malformed)
    (always Malformed) (always Malformed) (always true) (always true) true.

(** An unknown extension, an oracle that proposes a new category, and a map
    file that cannot be written. *)
Definition unwritable_env : Env :=
  make_env [file "foo.xyz" 0; file "bar.XYZ" 0]
    (always (Answer {| suggested_folder_name := "Blender Files"; is_new_category := true |}))
    (always Malformed) (always Malformed) (always Malformed)
    (always true) (always false) true.

(** An oracle whose extension agent always raises [APIError]. *)
Definition api_down_env : Env :=
  make_env [file "foo.xyz" 0] (always ApiFailure) (always Malformed)
    (always Malformed) (always Malformed) (always true) (always true) true.

(** A repair in which the oracle raises [APIError]. *)
Definition repair_env : Env :=
  make_env [] (always Malformed) (always Malformed) (always Malformed)
    (always ApiFailure) (always true) (always true) true.

(* ===================================================================== *)
(** ** The configuration file                                              *)
(* ===================================================================== *)

(** Text files.  A file holds the text that was written to it; reading it
    in text mode translates the line ends [CR LF] and [CR] to [LF], and
    iterating over it yields its lines, each with its [LF] except possibly
    the last one. *)
Definition LF : ascii := ascii_of_nat 10.
Definition CR : ascii := ascii_of_nat 13.

Fixpoint universal_newlines (s : string) : string :=
  match s with
  | EmptyString => EmptyString
  | String c r =>
      if Ascii.eqb c CR then
        String LF
          match r with
          | String c2 r2 =>
              if Ascii.eqb c2 LF then universal_newlines r2 else universal_newlines r
          | EmptyString => EmptyString
          end
      else String c (universal_newlines r)
  end.

(** [for line in f] *)
Fixpoint readlines (s : string) : list string :=
  match s with
  | EmptyString => []
  | String c r =>
      if Ascii.eqb c LF then String c EmptyString :: readlines r
      else
        match readlines r with
        | [] => [String c EmptyString]
        | line :: rest => String c line :: rest
        end
  end.

(** [s.split(sep, 1)[1]]; [None] stands for the [IndexError] of a string
    without [sep]. *)
Fixpoint after_first (sep : ascii) (s : string) : option string :=
  match s with
  | EmptyString => None
  | String c r => if Ascii.eqb c sep then Some r else after_first sep r
  end.

(** What happens when the configuration file is read: everything goes
    well, the file cannot be opened, or an exception interrupts the reading
    after some lines. *)
Inductive read_result :=
| ReadAll
| ReadNotOpened
| ReadInterrupted (lines_read : nat).

(** What happens when it is written: everything goes well, the file cannot
    be opened and stays as it is, or an exception interrupts the writing and
    leaves the file with the characters that were written so far. *)
Inductive write_result :=
| Written
| WriteNotOpened
| WriteInterrupted (chars_written : nat).

(** The body of the loop of [load_config], on the pair of the key and the
    folder read so far; [None] is an exception. *)
Definition read_config_line (line : string) (acc : string * string)
  : option (string * string) :=
  if PyStr.startswith "GEMINI_API_KEY=" line then
    match after_first "=" line with
    | Some v => Some (PyStr.strip v, snd acc)
    | None => None
    end
  else if PyStr.startswith "DEFAULT_FOLDER_PATH=" line then
    match after_first "=" line with
    | Some v => Some (fst acc, PyStr.strip v)
    | None => None
    end
  else Some acc.

(** The loop of [load_config]: the values read, and whether an exception
    ended the loop. *)
Fixpoint read_config_lines (lines : list string) (acc : string * string)
  : string * string * bool :=
  match lines with
  | [] => (acc, false)
  | line :: rest =>
      match read_config_line line acc with
      | Some acc' => read_config_lines rest acc'
      | None => (acc, true)
      end
  end.

(** [load_config()], for a home whose [str(DOWNLOADS_DIR)] is
    [downloads_dir] and a configuration file that holds [file] ([None] when
    there is no file): the key, the folder, and whether the warning was
    printed. *)
Definition load_config (downloads_dir : string) (r : read_result)
    (file : option string) : string * string * bool :=
  let api_key := "" in
  let folder_path := downloads_dir in
  match file with
  | None => (api_key, folder_path, false)
  | Some content =>
      let lines := readlines (universal_newlines content) in
      match r with
      | ReadAll => read_config_lines lines (api_key, folder_path)
      | ReadNotOpened => (api_key, folder_path, true)
      | ReadInterrupted n =>
          (fst (read_config_lines (take n lines) (api_key, folder_path)), true)
      end
  end.

(** [save_config(api_key, folder_path)]: the file afterwards, and whether
    the warning was printed. *)
Definition save_config (r : write_result) (api_key folder_path : string)
    (file : option string) : option string * bool :=
  let text :=
    ("GEMINI_API_KEY=" +:+ api_key +:+ String LF "")
    +:+ ("DEFAULT_FOLDER_PATH=" +:+ folder_path +:+ String LF "") in
  match r with
  | Written => (Some text, false)
  | WriteNotOpened => (file, true)
  | WriteInterrupted n => (Some (string_of_list_ascii (take n (chars text))), true)
  end.

(** A value that fits on one line. *)
Definition single_line (s : string) : Prop := (LF ∉ chars s) /\ (CR ∉ chars s).

(* ===================================================================== *)
(** ** Editing the exclusion list                                          *)
(* ===================================================================== *)

(** [s.split(sep)] for a one-character separator *)
Fixpoint split_on (sep : ascii) (s : string) : list string :=
  match s with
  | EmptyString => [EmptyString]
  | String c r =>
      if Ascii.eqb c sep then EmptyString :: split_on sep r
      else
        match split_on sep r with
        | [] => [String c EmptyString]
        | x :: xs => String c x :: xs
        end
  end.

(** [sep.join(l)] *)
Fixpoint join (sep : string) (l : list string) : string :=
  match l with
  | [] => EmptyString
  | [x] => x
  | x :: r => x +:+ sep +:+ join sep r
  end.

(** [[item.strip().lower() for item in s.split(',') if item.strip()]] *)
Definition parse_exclusions (new_exclusions_string : string) : list string :=
  map (fun item => PyStr.lower (PyStr.strip item))
    (filter (fun item => PyStr.truthy (PyStr.strip item) = true)
       (split_on "," new_exclusions_string)).

(** The message box an edit ends with: none when the dialog is cancelled,
    [showinfo] or [showerror]. *)
Inductive edit_outcome :=
| EditCancelled
| EditSaved
| EditSaveFailed.

(** The initial value of the dialog of [edit_exclusion_list]. *)
Definition exclusions_string (current_map : ExtMap) : string :=
  join ", " (default [] (dict_get "Exclusions" current_map)).

(** [edit_exclusion_list], for a user who answers the dialog that shows
    [current_string] with [answer current_string] ([None] when the dialog is
    cancelled). *)
Definition edit_exclusion_list (E : Env) (answer : string -> option string)
  : M edit_outcome :=
  current_map <- load_extension_map E ;;
  let current_string := exclusions_string current_map in
  match answer current_string with
  | Some new_exclusions_string =>
      let updated_list := parse_exclusions new_exclusions_string in
      let current_map := dict_set "Exclusions" updated_list current_map in
      try_except
        (dump_map E current_map ;; ret EditSaved)
        (fun _ => ret EditSaveFailed)
  | None => ret EditCancelled
  end.

(** An entry without a comma. *)
Definition plain_entry (x : string) : Prop := ("," : ascii) ∉ chars x.

(* ===================================================================== *)
(** ** The PDF sorter                                                      *)
(* ===================================================================== *)

(** The pydantic schema of the PDF agent. *)
Record PdfClassification := {
  suggested_subfolder : string;
  is_new_subfolder : bool
}.

(** The texts that the PDF sorter gives to [log_message]. *)
Inductive pdf_message :=
| MsgPdfStart
| MsgPdfNoFolder
| MsgPdfClassifying (filename : string)
| MsgPdfAgentError (attempt : nat)
| MsgPdfMoved (subfolder_name : string)
| MsgPdfMoveFailed (filename : string)
| MsgPdfUnclassified (filename : string)
| MsgPdfComplete (sorted : nat).

(** What a run of the PDF sorter does to the outside world.  Directories
    and targets are given by the name of the subfolder of the documents
    folder. *)
Inductive pdf_event :=
| PdfLog (m : pdf_message)
| PdfSleep (seconds : nat)
| PdfAsk (filename : string) (existing_subfolders : list string)
| PdfMkdir (subfolder_name : string)
| PdfMove (item : string) (subfolder_name : string).

(** The environment of a run of the PDF sorter: the documents folder as
    [iterdir] lists it, whether each of its two listings goes through, and
    the oracle and the filesystem by instant. *)
Record PdfEnv := {
  pdf_client : bool;                      (* [gemini_client is not None] *)
  documents_is_dir : bool;                (* [DOCUMENTS_FOLDER.is_dir()] *)
  documents : list Entry;                 (* [DOCUMENTS_FOLDER.iterdir()] *)
  subfolders_listable : bool;             (* the listing of the subfolders, with its
                                             [is_dir] tests, does not raise *)
  documents_listable : bool;              (* nor does the listing of the loop *)
  classify_pdf : nat -> reply PdfClassification;
  pdf_mkdir_ok : nat -> bool;
  pdf_move_ok : nat -> bool
}.

Record PdfWorld := {
  pdf_tick : nat;
  pdf_trace : list pdf_event
}.

(** The monad of state and exceptions again, over the world of the PDF
    sorter. *)
Definition PM (A : Type) : Type := PdfWorld -> outcome A * PdfWorld.

Definition pdf_ret {A} (a : A) : PM A := fun w => (Return a, w).

Definition pdf_bind {A B} (m : PM A) (k : A -> PM B) : PM B :=
  fun w =>
    match m w with
    | (Return a, w') => k a w'
    | (Raise e, w') => (Raise e, w')
    end.

Definition pdf_raise {A} (e : exn) : PM A := fun w => (Raise e, w).

Definition pdf_try {A} (body : PM A) (handler : exn -> PM A) : PM A :=
  fun w =>
    match body w with
    | (Return a, w') => (Return a, w')
    | (Raise e, w') => handler e w'
    end.

Declare Scope pdf_scope.
Delimit Scope pdf_scope with pdf.
Notation "x <- c1 ;; c2" := (pdf_bind c1 (fun x => c2))
  (at level 100, c1 at next level, right associativity) : pdf_scope.
Notation "c1 ;; c2" := (pdf_bind c1 (fun _ => c2))
  (at level 100, right associativity) : pdf_scope.

Definition pdf_instant : PM nat :=
  fun w => (Return (pdf_tick w), {| pdf_tick := S (pdf_tick w); pdf_trace := pdf_trace w |}).

Definition pdf_emit (e : pdf_event) : PM unit :=
  fun w => (Return tt, {| pdf_tick := pdf_tick w; pdf_trace := pdf_trace w ++ [e] |}).

Definition pdf_log (m : pdf_message) : PM unit := pdf_emit (PdfLog m).

Definition pdf_guarded (ok : nat -> bool) : PM unit :=
  (n <- pdf_instant ;;
   if ok n then pdf_ret tt else pdf_raise OtherException)%pdf.

Definition pdf_of_reply {A} (r : reply A) : PM A :=
  match r with
  | Answer a => pdf_ret a
  | ApiFailure => pdf_raise APIError
  | Malformed => pdf_raise OtherException
  end.

(** The local variables of [execute_pdf_sorter] that its loop changes. *)
Record PdfLocals := {
  pdfs_processed : nat;
  existing_subfolders : list string
}.

(** [item.is_file() and item.suffix.lower() == '.pdf'] *)
Definition is_pdf (item : Entry) : bool :=
  negb (is_dir item) && String.eqb (PyStr.lower (PyStr.suffix (name item))) ".pdf".

Section PdfEngine.

Variable E : PdfEnv.

(** The [while retries < MAX_RETRIES] loop of [classify_pdf_by_image]. *)
Fixpoint pdf_attempts (fuel retries : nat) (filename : string)
    (existing : list string) : PM (option PdfClassification) :=
  match fuel with
  | O => pdf_ret None
  | S fuel' =>
      if (retries <? MAX_RETRIES)%nat then
        pdf_try
          (n <- pdf_instant ;;
           pdf_emit (PdfAsk filename existing) ;;
           r <- pdf_of_reply (classify_pdf E n) ;;
           pdf_ret (Some r))%pdf
          (fun e =>
             match e with
             | APIError =>
                 let retries := S retries in
                 (pdf_log (MsgPdfAgentError retries) ;;
                  pdf_emit (PdfSleep RETRY_DELAY) ;;
                  pdf_attempts fuel' retries filename existing)%pdf
             | OtherException => pdf_ret None
             end)
      else pdf_ret None
  end.

Definition classify_pdf_by_image (filename : string) (existing : list string)
  : PM (option PdfClassification) :=
  if negb (pdf_client E) then pdf_ret None
  else pdf_attempts MAX_RETRIES 0 filename existing.

(** The body of [for item in DOCUMENTS_FOLDER.iterdir()]. *)
Definition sort_pdf (item : Entry) (l : PdfLocals) : PM PdfLocals :=
  if is_pdf item then
    (pdf_log (MsgPdfClassifying (name item)) ;;
     recommendation <- classify_pdf_by_image (name item) (existing_subfolders l) ;;
     match recommendation with
     | Some r =>
         if PyStr.truthy (suggested_subfolder r) then
           let subfolder_name := safe_name (suggested_subfolder r) in
           pdf_guarded (pdf_mkdir_ok E) ;;
           pdf_emit (PdfMkdir subfolder_name) ;;
           pdf_try
             (pdf_guarded (pdf_move_ok E) ;;
              pdf_emit (PdfMove (name item) subfolder_name) ;;
              pdf_log (MsgPdfMoved subfolder_name) ;;
              pdf_ret
                {| pdfs_processed := S (pdfs_processed l);
                   existing_subfolders :=
                     if is_new_subfolder r
                        && negb (PyStr.mem subfolder_name (existing_subfolders l))
                     then (existing_subfolders l ++ [subfolder_name])%list
                     else existing_subfolders l |})
             (fun _ => pdf_log (MsgPdfMoveFailed (name item)) ;; pdf_ret l)
         else pdf_log (MsgPdfUnclassified (name item)) ;; pdf_ret l
     | None => pdf_log (MsgPdfUnclassified (name item)) ;; pdf_ret l
     end)%pdf
  else pdf_ret l.

Fixpoint for_each_pdf (items : list Entry) (l : PdfLocals) : PM PdfLocals :=
  match items with
  | [] => pdf_ret l
  | item :: rest => (l' <- sort_pdf item l ;; for_each_pdf rest l')%pdf
  end.

Definition execute_pdf_sorter : PM nat :=
  (pdf_log MsgPdfStart ;;
   if negb (documents_is_dir E) then
     pdf_log MsgPdfNoFolder ;; pdf_ret 0%nat
   (* [DOCUMENTS_FOLDER.iterdir()] and [d.is_dir()], outside any [try] *)
   else if negb (subfolders_listable E) then pdf_raise OtherException
   else
     let existing_subfolders :=
       map name (filter (fun d => is_dir d = true) (documents E)) in
     (* [DOCUMENTS_FOLDER.iterdir()] at the head of the loop *)
     if negb (documents_listable E) then pdf_raise OtherException
     else
       l <- for_each_pdf (documents E)
              {| pdfs_processed := 0; existing_subfolders := existing_subfolders |} ;;
       pdf_log (MsgPdfComplete (pdfs_processed l)) ;;
       pdf_ret (pdfs_processed l))%pdf.

End PdfEngine.

(* ===================================================================== *)
(** ** Further vocabulary                                                  *)
(* ===================================================================== *)

(** *** The sorter *)

Definition is_move (e : event) : bool :=
  match e with Move _ _ => true | _ => false end.

Definition is_sleep (e : event) : bool :=
  match e with Sleep _ => true | _ => false end.

(** [P] only restricts moves. *)
Definition only_moves (P : event -> Prop) : Prop :=
  forall e, is_move e = false -> P e.

(** The entries that the sorting loop does not skip. *)
Definition admitted (process_all_files : bool) (CUTOFF_TIME : Z)
    (exclusion_list : list string) (item : Entry) : bool :=
  if is_dir item then
    negb (String.eqb (name item) ARCHIVE_DIR_name
          || String.eqb (name item) FOLDERS_DEST_DIR_name)
  else
    negb (String.eqb (name item) CONFIG_FILE_name)
    && negb (PyStr.mem (PyStr.lower (name item)) exclusion_list
             || PyStr.mem (PyStr.lower (PyStr.suffix (name item))) exclusion_list)
    && (process_all_files || negb (CUTOFF_TIME <=? mtime item)%Z).

(** A move of one of [items], admitted, to a path that ends in its name. *)
Definition moves_admitted (process_all_files : bool) (CUTOFF_TIME : Z)
    (exclusion_list : list string) (items : list Entry) (e : event) : Prop :=
  match e with
  | Move i target =>
      exists item dir,
        item ∈ items /\ admitted process_all_files CUTOFF_TIME exclusion_list item = true
        /\ i = name item /\ target = (dir ++ [name item])%list
  | _ => True
  end.

(** Every move of [item] goes to [target_dir / item]; no other entry is
    moved. *)
Definition moves_to (item : string) (target_dir : Path) (e : event) : Prop :=
  match e with
  | Move i target => i = item /\ target = (target_dir ++ [item])%list
  | _ => True
  end.

(** What [organize_downloads] adds to the trace outside its loop. *)
Definition frame_event (e : event) : Prop :=
  match e with
  | Log MsgStartSorting | Log MsgDownloadsNotFound | Log (MsgSortingComplete _ _)
  | Mkdir _ | WriteMap _ | Warn => True
  | _ => False
  end.

(** The exclusion list and the categories that [organize_downloads] takes
    from the map it has loaded. *)
Definition exclusions_of (ext_map : ExtMap) : list string :=
  map PyStr.lower (default [] (dict_get "Exclusions" ext_map)).

Definition categories_of (ext_map : ExtMap) : list string :=
  filter (fun k => k ≠ "Exclusions") (dict_keys ext_map).

(** The calls of [shutil.move] that went through. *)
Definition move_count (e : event) : nat :=
  match e with Move _ _ => 1 | _ => 0 end.

(** Between [w] and [w'] there are as many moves as log lines that report
    one. *)
Definition accounted (w w' : World) : Prop :=
  exists t, trace w' = (trace w ++ t)%list
    /\ weight move_count t = (weight file_moved t + weight folder_moved t)%nat.

Definition accounts {A} (m : M A) : Prop := forall w, accounted w (snd (m w)).

(** An event that is neither a move nor the report of one. *)
Definition unrelated_to_moves (e : event) : Prop :=
  move_count e = 0%nat /\ file_moved e = 0%nat /\ folder_moved e = 0%nat.

(** A request of the sorter: about the extension of an admitted file, with
    the categories [existing], or about the content of an admitted file. *)
Definition asks_about (process_all_files : bool) (CUTOFF_TIME : Z)
    (exclusion_list existing : list string) (items : list Entry) (e : event) : Prop :=
  match e with
  | Agent (AskExtension x ex) =>
      ex = existing /\
      exists item, item ∈ items
        /\ admitted process_all_files CUTOFF_TIME exclusion_list item = true
        /\ is_dir item = false /\ x = PyStr.lower (PyStr.suffix (name item))
  | Agent (AskCode f) =>
      exists item, item ∈ items
        /\ admitted process_all_files CUTOFF_TIME exclusion_list item = true
        /\ is_dir item = false /\ f = name item
  | Agent _ => False
  | _ => True
  end.

(** The requests of the extension agent carry the list it was given. *)
Definition asks_with (ext : string) (existing : list string) (e : event) : Prop :=
  match e with
  | Agent (AskExtension x ex) => x = ext /\ ex = existing
  | Agent _ => False
  | _ => True
  end.

(** No request about the extension [ext], and no code request about a file
    that bears it. *)
Definition asks_not_about (ext : string) (e : event) : Prop :=
  match e with
  | Agent (AskExtension x _) => x <> ext
  | Agent (AskCode f) => PyStr.lower (PyStr.suffix f) <> ext
  | _ => True
  end.

(** What a file filed by the rules leaves in the trace. *)
Definition filed (item : Entry) (category : string) (t : list event) : Prop :=
  Log (MsgProcessing (name item)) ∈ t
  /\ Mkdir [category] ∈ t
  /\ (Move (name item) [category; name item] ∈ t
      \/ Log (MsgMoveError (name item)) ∈ t).

(** The folder the content analysis of a code file leads to, when the
    analysis starts at instant [t]: none without a client, when the file
    cannot be read, when the request fails or when the folder it suggests is
    empty. *)
Definition semantic_folder_at (E : Env) (t : nat) : option string :=
  if gemini_client E && read_ok E t then
    match classify_code E (S t) with
    | Answer info =>
        if PyStr.truthy (suggested_folder info)
        then Some (safe_name (suggested_folder info)) else None
    | _ => None
    end
  else None.

(** *** The renamer *)

Definition is_answer {A} (r : reply A) : bool :=
  match r with Answer _ => true | _ => false end.

(** The descriptions the batch agent ends with when its first [k] attempts
    fail. *)
Definition batch_answer_after (E : Env) (t k : nat) : option (list ImageDescription) :=
  if (k <? MAX_RETRIES)%nat then
    match describe_image_batch E (t + k) with
    | Answer a => Some a
    | _ => None
    end
  else None.

Definition is_image_agent_error (e : event) : bool :=
  match e with Log (MsgImageAgentError _) => true | _ => false end.

Definition is_ask_batch_of (filenames : list string) (e : event) : Prop :=
  match e with
  | Agent c => c = AskImageBatch filenames
  | _ => True
  end.

(** [all_files] of [execute_image_renamer]. *)
Definition eligible_files (d : gmap string nat) : list string :=
  filter (fun f => eligible f = true) (map fst (map_to_list d)).

(** The renames that went through. *)
Definition renamed (e : event) : nat :=
  match e with Rename _ _ => 1 | _ => 0 end.

(** What a part of the renamer that works on [files] does, from the locals
    [l] and the world [w] to [l'] and [w']: the queue grows at its end, the
    counter grows by the number of renames, at most one per file, and each of
    [files] was renamed or queued. *)
Definition renamer_step (files : list string) (l : RenamerLocals) (w : World)
    (l' : RenamerLocals) (w' : World) : Prop :=
  exists t q,
    trace w' = (trace w ++ t)%list
    /\ failed_files_for_retry l' = (failed_files_for_retry l ++ q)%list
    /\ batch_processed_count l' = (batch_processed_count l + weight renamed t)%nat
    /\ (weight renamed t <= length files)%nat
    /\ forall f, f ∈ files -> f ∈ q \/ exists dst, Rename f dst ∈ t.

(** What the renamer may do to the outside world when the folder it works
    on holds [d]: rename an eligible file of [d] to a name that bears the
    marker, ask the oracle about at most [BATCH_SIZE] eligible files of [d] at
    a time, sleep and log.  It makes no other request, moves nothing, creates
    no directory and leaves the map file alone. *)
Definition renamer_event (d : gmap string nat) (e : event) : Prop :=
  match e with
  | Rename src dst =>
      is_Some (d !! src) /\ eligible src = true
      /\ (exists title,
            dst = (clean_title title +:+ PROCESSED_SUFFIX) +:+ PyStr.splitext_ext src)
      /\ eligible dst = false
  | Agent (AskImageBatch filenames) =>
      filenames <> [] /\ (length filenames <= BATCH_SIZE)%nat
      /\ Forall (fun f => is_Some (d !! f) /\ eligible f = true) filenames
  | Agent _ | Move _ _ | Mkdir _ | WriteMap _ | Warn => False
  | Sleep s => s = 5%nat \/ s = RETRY_DELAY
  | Log _ => True
  end.

(** An event that is neither a request nor a rename. *)
Definition idle (e : event) : Prop := is_agent e = false /\ renamed e = 0%nat.

(** The folder [d'] holds the files of [d], each with its content, except
    that the content [c] of [original] may sit under a name that was free. *)
Definition same_files_but (original : string) (c : nat) (d d' : gmap string nat) : Prop :=
  size d' = size d
  /\ (forall f c', f ≠ original -> d !! f = Some c' -> d' !! f = Some c')
  /\ exists n, d' !! n = Some c /\ (n = original \/ d !! n = None).

(** *** The PDF sorter *)

(** The events of [w'] that came after those of [w]. *)
Definition pdf_added (w w' : PdfWorld) : list pdf_event :=
  drop (length (pdf_trace w)) (pdf_trace w').

Definition pdf_count (p : pdf_event -> bool) (t : list pdf_event) : nat :=
  length (filter (fun e => p e = true) t).

Definition pdf_moved (e : pdf_event) : nat :=
  match e with PdfMove _ _ => 1 | _ => 0 end.

Definition pdf_reported (e : pdf_event) : nat :=
  match e with PdfLog (MsgPdfMoved _) => 1 | _ => 0 end.

Definition pdf_slept (e : pdf_event) : nat :=
  match e with PdfSleep s => s | _ => 0 end.

Definition is_pdf_ask (e : pdf_event) : bool :=
  match e with PdfAsk _ _ => true | _ => false end.

Definition is_pdf_log (e : pdf_event) : bool :=
  match e with PdfLog _ => true | _ => false end.

(** What the PDF agent can add to the trace. *)
Definition pdf_agent_event (filename : string) (existing : list string)
    (e : pdf_event) : Prop :=
  match e with
  | PdfAsk f ex => f = filename /\ ex = existing
  | PdfLog (MsgPdfAgentError _) | PdfSleep _ => True
  | _ => False
  end.

(** What the iteration on [item], started with the locals [l], can add. *)
Definition pdf_item_event (item : Entry) (l : PdfLocals) (e : pdf_event) : Prop :=
  match e with
  | PdfAsk f ex => is_pdf item = true /\ f = name item /\ ex = existing_subfolders l
  | PdfMove f _ => is_pdf item = true /\ f = name item
  | PdfMkdir _ => is_pdf item = true
  | _ => True
  end.

(** What a run of the PDF sorter over [items], started with the known
    subfolders [initial], can add to the trace: requests and moves concern PDF
    files of [items], and each request carries a list that extends [initial]
    and is free of duplicates when [initial] is. *)
Definition pdf_run_event (items : list Entry) (initial : list string)
    (e : pdf_event) : Prop :=
  match e with
  | PdfAsk f ex =>
      (exists item, item ∈ items /\ is_pdf item = true /\ f = name item)
      /\ initial `prefix_of` ex /\ (NoDup initial -> NoDup ex)
  | PdfMove f _ => exists item, item ∈ items /\ is_pdf item = true /\ f = name item
  | _ => True
  end.

(** The recommendation the PDF agent ends with when its first [k] answers
    are API errors. *)
Definition pdf_answer_after (E : PdfEnv) (t k : nat) : option PdfClassification :=
  if (k <? MAX_RETRIES)%nat then
    match classify_pdf E (t + k) with
    | Answer a => Some a
    | _ => None
    end
  else None.

(** How the list of known subfolders changes in an iteration: not at all,
    or by one name that was not in it, the name of the subfolder the file was
    moved to. *)
Definition subfolders_grow (item : Entry) (l l' : PdfLocals) (t : list pdf_event) : Prop :=
  existing_subfolders l' = existing_subfolders l
  \/ exists sub,
       existing_subfolders l' = (existing_subfolders l ++ [sub])%list
       /\ (sub ∉ existing_subfolders l) /\ (PdfMove (name item) sub ∈ t).

Definition pdf_mkdir_refused (E : PdfEnv) : Prop :=
  exists i, pdf_mkdir_ok E i = false.

(* ===================================================================== *)
(** ** Further inputs of the examples                                      *)
(* ===================================================================== *)

(** A client-less environment with one unknown file and one code file. *)
Definition no_client_env : Env :=
  {| gemini_client := false; downloads_exists := true;
     downloads := [file "foo.xyz" 0; file "a.py" 0];
     downloads_listable := true; images_listable := true;
     now := 1000 * DAY;
     classify_extension := always Malformed; classify_code := always Malformed;
     describe_image_batch := always Malformed; describe_image := always Malformed;
     mkdir_ok := always true; stat_ok := always true; move_ok := always true;
     rename_ok := always true; read_ok := always true; write_ok := always true;
     write_opens := always false;
     image_open_ok := always true;
     uuid4_hex8 := always "0a1b2c3d";
     rename_replaces := true |}.

(** An oracle that files the unknown extension [.rs] under [Code], a map
    file that cannot be written, and a later file of that extension. *)
Definition code_learning_env : Env :=
  make_env [file "main.rs" 0; file "lib.RS" 0]
    (always (Answer {| suggested_folder_name := "Code"; is_new_category := false |}))
    (always (Answer {| project_name := "tools"; suggested_folder := "Rust Tools" |}))
    (always Malformed) (always Malformed) (always true) (always false) true.

(** A zone that moves its clocks forward by one hour at the instant
    [clock_change], from UTC+1 to UTC+2; a file modified one hour before the
    change; a run started 23 hours and a half after the modification. *)
Definition clock_change : Z := 1000 * DAY.

Definition summer_time (t : Z) : Z :=
  if (t <? clock_change)%Z then HOUR else 2 * HOUR.

Definition modified_at : Z := clock_change - HOUR.

Definition started_at : Z := modified_at + 23 * HOUR + HOUR / 2.

Definition clock_change_env : Env :=
  {| gemini_client := true; downloads_exists := true;
     downloads := [file "report.pdf" (local_time summer_time modified_at)];
     downloads_listable := true; images_listable := true;
     now := local_time summer_time started_at;
     classify_extension := always Malformed; classify_code := always Malformed;
     describe_image_batch := always Malformed; describe_image := always Malformed;
     mkdir_ok := always true; stat_ok := always true; move_ok := always true;
     rename_ok := always true; read_ok := always true; write_ok := always true;
     write_opens := always false;
     image_open_ok := always true;
     uuid4_hex8 := always "0a1b2c3d";
     rename_replaces := true |}.

(** A batch oracle that fails twice and then answers. *)
Definition flaky_batch_env : Env :=
  make_env [] (always Malformed) (always Malformed)
    (fun n => if (n <? 2)%nat then Malformed
              else Answer [ {| original_filename := "a.png"; short_title := "Cat" |} ])
    (always Malformed) (always true) (always true) true.

(** A filesystem that refuses every rename. *)
Definition no_rename_env : Env :=
  make_env [] (always Malformed) (always Malformed) (always Malformed)
    (always (Answer (Some "Cat"))) (always false) (always true) true.

(** A PDF oracle that raises [APIError] once and then answers. *)
Definition invoices : PdfClassification :=
  {| suggested_subfolder := "Invoices 2024"; is_new_subfolder := true |}.

Definition pdf_sorter_env : PdfEnv :=
  {| pdf_client := true; documents_is_dir := true;
     documents := [folder "Taxes"; file "bill.pdf" 0; file "notes.txt" 0];
     subfolders_listable := true; documents_listable := true;
     classify_pdf := fun n => if (n =? 0)%nat then ApiFailure else Answer invoices;
     pdf_mkdir_ok := always true; pdf_move_ok := always true |}.

Definition start_pdf : PdfWorld := {| pdf_tick := 0; pdf_trace := [] |}.

(* ===================================================================== *)
(** ** Tactics                                                             *)
(* ===================================================================== *)

(** Unfolds the monad and the primitives that do not touch the images. *)
Ltac run_monad :=
  cbv beta iota delta [bind try_except log_message sleep emit dump_map mkdir shutil_move
    guarded instant get_world put_map_file put_images ret raise of_reply]; simpl.

Ltac tally_now :=
  simpl; first
    [ eexists; split; [rewrite <- ?app_assoc; reflexivity | reflexivity]
    | exists []; split; [by rewrite app_nil_r | reflexivity] ].

Ltac counted_now :=
  simpl; eexists _, _;
  (split; [|split; [tally_now|split; [|tally_now]]]);
  unfold weight; simpl; lia.

Ltac not_in_list H :=
  repeat (apply elem_of_cons in H as [H|H]; [discriminate H|]);
  by apply elem_of_nil in H.

Ltac fp_solve :=
  let e := fresh "e" in
  intros e; destruct e as [[]| | |[]| | | |]; simpl; try done; try tauto.

(* ===================================================================== *)
(** ** Rules of the monad                                                  *)
(* ===================================================================== *)

Section Rules.

Context {A B : Type}.

Lemma wp_ret (a : A) w (Q : outcome A -> World -> Prop) :
  Q (Return a) w -> wp (ret a) w Q.
Proof. done. Qed.

Lemma wp_raise e w (Q : outcome A -> World -> Prop) :
  Q (Raise e) w -> wp (raise e) w Q.
Proof. done. Qed.

Lemma wp_bind (m : M A) (k : A -> M B) w (Q : outcome B -> World -> Prop) :
  wp m w (fun r w' =>
            match r with
            | Return a => wp (k a) w' Q
            | Raise e => Q (Raise e) w'
            end) ->
  wp (bind m k) w Q.
Proof. unfold wp, bind. by destruct (m w) as [[a|e] w']. Qed.

Lemma wp_try (body : M A) (handler : exn -> M A) w (Q : outcome A -> World -> Prop) :
  wp body w (fun r w' =>
               match r with
               | Return a => Q (Return a) w'
               | Raise e => wp (handler e) w' Q
               end) ->
  wp (try_except body handler) w Q.
Proof. unfold wp, try_except. by destruct (body w) as [[a|e] w']. Qed.

Lemma wp_mono (m : M A) w (Q Q' : outcome A -> World -> Prop) :
  wp m w Q -> (forall r w', Q r w' -> Q' r w') -> wp m w Q'.
Proof. unfold wp. auto. Qed.

End Rules.

Lemma emits_refl P w : emits P w w.
Proof. exists []. by rewrite app_nil_r. Qed.

Lemma emits_trans P w1 w2 w3 : emits P w1 w2 -> emits P w2 w3 -> emits P w1 w3.
Proof.
  intros (t1 & H1 & F1) (t2 & H2 & F2). exists (t1 ++ t2)%list.
  split; [by rewrite H2, H1, app_assoc | by apply Forall_app].
Qed.

Lemma emits_mono (P P' : event -> Prop) w w' :
  (forall e, P e -> P' e) -> emits P w w' -> emits P' w w'.
Proof.
  intros HP (t & Ht & F). exists t. split; [done|].
  eapply Forall_impl; eauto.
Qed.

Lemma emits_same_trace P w0 w w' :
  trace w' = trace w -> emits P w0 w -> emits P w0 w'.
Proof. intros Ht (t & H & F). exists t. by rewrite Ht. Qed.

Lemma emits_added P w w' : emits P w w' -> Forall P (added w w').
Proof.
  intros (t & Ht & F). unfold added. by rewrite Ht, drop_app_length.
Qed.

Lemma weight_app f t1 t2 : weight f (t1 ++ t2) = (weight f t1 + weight f t2)%nat.
Proof. apply sum_list_with_app. Qed.

Lemma emits_count_0 P (p : event -> bool) w w' :
  (forall e, P e -> p e = false) -> emits P w w' -> count p (added w w') = 0%nat.
Proof.
  intros Hp H. apply emits_added in H. unfold count.
  induction H as [|e t He _ IH]; [done|].
  rewrite filter_cons. rewrite (Hp e He). by case_decide.
Qed.

Section Keeps.

Variable P : event -> Prop.
Context {A B : Type}.

Lemma keeps_ret (a : A) : keeps P (ret a).
Proof. intros w0 w H. by apply wp_ret. Qed.

Lemma keeps_raise e : keeps P (raise e : M A).
Proof. intros w0 w H. by apply wp_raise. Qed.

Lemma keeps_bind (m : M A) (k : A -> M B) :
  keeps P m -> (forall a, keeps P (k a)) -> keeps P (bind m k).
Proof.
  intros Hm Hk w0 w H. apply wp_bind. eapply wp_mono; [by apply Hm|].
  intros [a|e] w' H'; [by apply Hk | done].
Qed.

Lemma keeps_try (body : M A) (handler : exn -> M A) :
  keeps P body -> (forall e, keeps P (handler e)) -> keeps P (try_except body handler).
Proof.
  intros Hm Hk w0 w H. apply wp_try. eapply wp_mono; [by apply Hm|].
  intros [a|e] w' H'; [done | by apply Hk].
Qed.

Lemma keeps_emit e : P e -> keeps P (emit e).
Proof.
  intros He w0 w (t & Ht & F). exists (t ++ [e])%list. simpl.
  split; [by rewrite Ht, app_assoc | apply Forall_app; auto].
Qed.

Lemma keeps_silent (m : M A) :
  (forall w, trace (snd (m w)) = trace w) -> keeps P m.
Proof. intros Hm w0 w H. unfold wp. eapply emits_same_trace; eauto. Qed.

Lemma keeps_run (m : M A) w r w' : keeps P m -> m w = (r, w') -> emits P w w'.
Proof.
  intros Hm Hr. specialize (Hm w w (emits_refl P w)). unfold wp in Hm.
  by rewrite Hr in Hm.
Qed.

End Keeps.

Lemma keeps_mono (P P' : event -> Prop) {A} (m : M A) :
  (forall e, P e -> P' e) -> keeps P m -> keeps P' m.
Proof.
  intros HP Hm w0 w H. unfold wp.
  eapply emits_trans; [exact H|].
  eapply emits_mono; [exact HP|]. eapply keeps_run; [exact Hm|]. apply surjective_pairing.
Qed.

Lemma keeps_instant P : keeps P instant.
Proof. by apply keeps_silent. Qed.

Lemma keeps_get_world P : keeps P get_world.
Proof. by apply keeps_silent. Qed.

Lemma keeps_put_map_file P f : keeps P (put_map_file f).
Proof. by apply keeps_silent. Qed.

Lemma keeps_put_images P d : keeps P (put_images d).
Proof. by apply keeps_silent. Qed.

Lemma keeps_guarded P ok : keeps P (guarded ok).
Proof.
  apply keeps_bind; [apply keeps_instant|]. intros n.
  destruct (ok n); [apply keeps_ret | apply keeps_raise].
Qed.

Lemma keeps_of_reply P {A} (r : reply A) : keeps P (of_reply r).
Proof. destruct r; [apply keeps_ret | apply keeps_raise | apply keeps_raise]. Qed.

Lemma keeps_log P m : P (Log m) -> keeps P (log_message m).
Proof. apply keeps_emit. Qed.

Lemma keeps_sleep P s : P (Sleep s) -> keeps P (sleep s).
Proof. apply keeps_emit. Qed.

(* ===================================================================== *)
(** ** Footprints: the events each function can add *)
(* ===================================================================== *)

Ltac keeps_go :=
  repeat first
    [ apply keeps_ret | apply keeps_raise | apply keeps_instant | apply keeps_get_world
    | apply keeps_put_map_file | apply keeps_put_images
    | apply keeps_guarded | apply keeps_of_reply
    | apply keeps_log | apply keeps_sleep | apply keeps_emit
    | apply keeps_bind; [|intros ?] | apply keeps_try; [|intros ?]
    | match goal with
      | |- keeps _ (if ?b then _ else _) => destruct b
      | |- keeps _ (match ?x with _ => _ end) => destruct x
      end ].

Section FP.
Variable E : Env.

Lemma update_extension_map_footprint m ext f :
  keeps fp_update (update_extension_map E m ext f).
Proof. unfold update_extension_map, dump_map. keeps_go; done. Qed.

Lemma load_extension_map_footprint : keeps fp_load (load_extension_map E).
Proof. unfold load_extension_map, dump_map, mkdir. keeps_go; done. Qed.

Lemma extension_attempts_footprint fuel retries ext existing :
  keeps (fp_recommend ext) (extension_attempts E fuel retries ext existing).
Proof.
  revert retries. induction fuel as [|fuel IH]; intros retries; simpl.
  - apply keeps_ret.
  - keeps_go; done.
Qed.

Lemma get_folder_recommendation_footprint ext existing :
  keeps (fp_recommend ext) (get_folder_recommendation E ext existing).
Proof.
  unfold get_folder_recommendation. destruct (negb _); [apply keeps_ret|].
  apply extension_attempts_footprint.
Qed.

Lemma analyze_code_content_footprint n : keeps fp_code (analyze_code_content E n).
Proof. unfold analyze_code_content. keeps_go; done. Qed.
End FP.


(* ===================================================================== *)
(** ** Counting the moves of a sorting run *)
(* ===================================================================== *)

Lemma tally_refl f w : tally f 0 w w.
Proof. exists []. by rewrite app_nil_r. Qed.

Lemma tally_trans f a b w1 w2 w3 :
  tally f a w1 w2 -> tally f b w2 w3 -> tally f (a + b) w1 w3.
Proof.
  intros (t1 & H1 & F1) (t2 & H2 & F2). exists (t1 ++ t2)%list.
  split; [by rewrite H2, H1, app_assoc|]. rewrite weight_app. lia.
Qed.

Lemma tally_emits f P w w' :
  (forall e, P e -> f e = 0%nat) -> emits P w w' -> tally f 0 w w'.
Proof.
  intros Hf (t & Ht & F). exists t. split; [done|].
  clear Ht. unfold weight. induction F as [|e t He _ IH]; [done|].
  simpl. by rewrite (Hf e He).
Qed.

Lemma tally_added f n w w' : tally f n w w' -> weight f (added w w') = n.
Proof. intros (t & Ht & F). unfold added. by rewrite Ht, drop_app_length. Qed.

Lemma counted_prefix nf nd w w1 r w' :
  emits uncounted w w1 -> counted nf nd w1 r w' -> counted nf nd w r w'.
Proof.
  intros Hq. destruct r as [l'|]; [|done]. intros (a & b & Ha & Ta & Hb & Tb).
  exists a, b. repeat split; try done.
  - change a with (0 + a)%nat. eapply tally_trans; [|exact Ta].
    eapply tally_emits; [|exact Hq]. by intros e [? ?].
  - change b with (0 + b)%nat. eapply tally_trans; [|exact Tb].
    eapply tally_emits; [|exact Hq]. by intros e [? ?].
Qed.

Lemma keeps_wp P {A} (m : M A) w : keeps P m -> wp m w (fun _ w' => emits P w w').
Proof. intros H. apply H, emits_refl. Qed.

Lemma wp_bind_uncounted {A} (m : M A) (k : A -> M Locals) nf nd w :
  keeps uncounted m ->
  (forall a w1, wp (k a) w1 (counted nf nd w1)) ->
  wp (bind m k) w (counted nf nd w).
Proof.
  intros Hm Hk. apply wp_bind. eapply wp_mono; [by apply keeps_wp|].
  intros [a|e] w1 Hq; [|done]. unfold wp. eapply counted_prefix; [exact Hq|]. apply Hk.
Qed.



Section Counting.
Variable E : Env.

Lemma final_move_counted item d l w :
  wp (final_move E item d l) w (counted (files_processed l) (folders_processed l) w).
Proof.
  unfold wp, final_move.
  destruct d as [[[|c s]|p]|]; run_monad.
  - counted_now.
  - destruct (mkdir_ok E (tick w)); simpl; [|done].
    destruct (move_ok E (S (tick w))); counted_now.
  - destruct (move_ok E (tick w)); counted_now.
  - counted_now.
Qed.

Lemma classify_and_move_counted existing item l w :
  wp (classify_and_move E existing item l) w
     (counted (files_processed l) (folders_processed l) w).
Proof.
  unfold classify_and_move.
  apply wp_bind_uncounted; [by apply keeps_log|]. intros _ w1.
  destruct (rule_lookup _ _) as [category|].
  - destruct (String.eqb category "Code").
    + apply wp_bind_uncounted.
      { eapply keeps_mono; [|apply analyze_code_content_footprint]. fp_solve. }
      intros [info|] w2; [|apply final_move_counted].
      destruct (PyStr.truthy _); [|apply final_move_counted].
      apply wp_bind_uncounted; [unfold mkdir; keeps_go; done|]. intros _ w3.
      apply wp_bind_uncounted; [by apply keeps_log|]. intros _ w4.
      apply final_move_counted.
    + apply final_move_counted.
  - apply wp_bind_uncounted.
    { eapply keeps_mono; [|apply get_folder_recommendation_footprint]. fp_solve. }
    intros [r|] w2; [|apply final_move_counted].
    destruct (PyStr.truthy _); [|apply final_move_counted].
    apply wp_bind_uncounted.
    { eapply keeps_mono; [|apply update_extension_map_footprint]. fp_solve. }
    intros ext_map w3. apply (final_move_counted item _ (Build_Locals _ _ _)).
Qed.

Lemma process_item_counted pa cutoff excl existing item l w :
  wp (process_item E pa cutoff excl existing item l) w
     (counted (files_processed l) (folders_processed l) w).
Proof.
  unfold process_item.
  destruct (is_dir item).
  - destruct (_ || _); [unfold wp; counted_now|].
    unfold wp. run_monad. destruct (move_ok E (tick w)); counted_now.
  - destruct (String.eqb _ _); [unfold wp; counted_now|].
    destruct (_ || _); [unfold wp; run_monad; counted_now|].
    destruct (negb pa); [|apply classify_and_move_counted].
    apply wp_bind_uncounted; [apply keeps_guarded|]. intros _ w1.
    destruct (_ <=? _)%Z; [unfold wp; run_monad; counted_now|].
    apply classify_and_move_counted.
Qed.

Lemma for_each_item_counted pa cutoff excl existing items l w :
  wp (for_each_item E pa cutoff excl existing items l) w
     (counted (files_processed l) (folders_processed l) w).
Proof.
  revert l w. induction items as [|item rest IH]; intros l w; simpl.
  - unfold wp. counted_now.
  - apply wp_bind. eapply wp_mono; [apply process_item_counted|].
    intros [l1|e] w1 H1; [|done].
    eapply wp_mono; [apply IH|]. intros [l2|e] w2 H2; [|done].
    destruct H1 as (a1 & b1 & Ha1 & Ta1 & Hb1 & Tb1).
    destruct H2 as (a2 & b2 & Ha2 & Ta2 & Hb2 & Tb2).
    exists (a1 + a2)%nat, (b1 + b2)%nat.
    split; [lia|]. split; [by eapply tally_trans|].
    split; [lia|]. by eapply tally_trans.
Qed.

Lemma organize_post_prefix w w1 r w' :
  emits uncounted w w1 -> organize_post E w1 r w' -> organize_post E w r w'.
Proof.
  intros Hq. destruct r as [n|]; [|done]. intros [Tn H]. split.
  - change n with (0 + n)%nat. eapply tally_trans; [|exact Tn].
    eapply tally_emits; [|exact Hq]. by intros e [? ?].
  - destruct H as [H|(k & Tk & Hl)]; [by left|]. right. exists k. split; [|done].
    change k with (0 + k)%nat. eapply tally_trans; [|exact Tk].
    eapply tally_emits; [|exact Hq]. by intros e [? ?].
Qed.

Lemma wp_bind_organize {A} (m : M A) (k : A -> M nat) w :
  keeps uncounted m ->
  (forall a w1, wp (k a) w1 (organize_post E w1)) ->
  wp (bind m k) w (organize_post E w).
Proof.
  intros Hm Hk. apply wp_bind. eapply wp_mono; [by apply keeps_wp|].
  intros [a|e] w1 Hq; [|done]. unfold wp. eapply organize_post_prefix; [exact Hq|].
  apply Hk.
Qed.

Lemma organize_downloads_spec pa w :
  wp (organize_downloads E pa) w (organize_post E w).
Proof.
  unfold organize_downloads.
  apply wp_bind_organize; [by apply keeps_log|]. intros _ w1.
  destruct (downloads_exists E) eqn:Hex; simpl.
  - apply wp_bind_organize.
    { eapply keeps_mono; [|apply load_extension_map_footprint]. fp_solve. }
    intros ext_map w2.
    apply wp_bind_organize; [unfold mkdir; keeps_go; done|]. intros _ w3.
    apply wp_bind_organize; [unfold mkdir; keeps_go; done|]. intros _ w4.
    destruct (downloads_listable E); simpl; [|by unfold wp].
    apply wp_bind. eapply wp_mono; [apply for_each_item_counted|].
    intros [l|e] w5 H; [|done]. simpl in H.
    destruct H as (a & b & Ha & Ta & Hb & Tb).
    unfold wp. run_monad. split.
    + rewrite Ha. replace a with (a + 0)%nat by lia. eapply tally_trans; [exact Ta|].
      tally_now.
    + right. exists (folders_processed l). split.
      * rewrite Hb. replace b with (b + 0)%nat by lia. eapply tally_trans; [exact Tb|].
        tally_now.
      * by rewrite last_snoc.
  - unfold wp. run_monad. split; [tally_now | by left].
Qed.
End Counting.


(* ===================================================================== *)
(** ** Calls that never raise *)
(* ===================================================================== *)

Lemma safe_ret {A} (a : A) : safe (ret a).
Proof. by intros w. Qed.

Lemma safe_bind {A B} (m : M A) (k : A -> M B) :
  safe m -> (forall a, safe (k a)) -> safe (bind m k).
Proof.
  intros Hm Hk w. apply wp_bind. eapply wp_mono; [apply Hm|].
  intros [a|e] w' H; [apply Hk | done].
Qed.

Lemma safe_try {A} (body : M A) (handler : exn -> M A) :
  (forall e, safe (handler e)) -> safe (try_except body handler).
Proof.
  intros Hk w. apply wp_try. unfold wp at 1. destruct (body w) as [[a|e] w']; simpl;
    [done | apply Hk].
Qed.

Lemma safe_emit e : safe (emit e).
Proof. by intros w. Qed.

Lemma safe_instant : safe instant.
Proof. by intros w. Qed.

Lemma safe_get_world : safe get_world.
Proof. by intros w. Qed.

Ltac safe_go :=
  repeat first
    [ apply safe_ret | apply safe_instant | apply safe_get_world | apply safe_emit
    | apply safe_try; intros ?
    | apply safe_bind; [|intros ?]
    | match goal with
      | |- safe (if ?b then _ else _) => destruct b
      | |- safe (match ?x with _ => _ end) => destruct x
      end ].

Section Raising.
Variable E : Env.

Lemma safe_update_extension_map m ext f : safe (update_extension_map E m ext f).
Proof. unfold update_extension_map, log_message. safe_go. Qed.

Lemma safe_extension_attempts fuel retries ext existing :
  safe (extension_attempts E fuel retries ext existing).
Proof.
  revert retries. induction fuel as [|fuel IH]; intros retries; simpl; [apply safe_ret|].
  unfold log_message, sleep. safe_go. apply IH.
Qed.

Lemma safe_get_folder_recommendation ext existing :
  safe (get_folder_recommendation E ext existing).
Proof.
  unfold get_folder_recommendation. destruct (negb _); [apply safe_ret|].
  apply safe_extension_attempts.
Qed.

Lemma safe_analyze_code_content n : safe (analyze_code_content E n).
Proof. unfold analyze_code_content, log_message. safe_go. Qed.

End Raising.


(* ===================================================================== *)
(** ** The category map *)
(* ===================================================================== *)

Lemma mem_true x l : PyStr.mem x l = true <-> x ∈ l.
Proof.
  unfold PyStr.mem. rewrite existsb_exists. split.
  - intros (y & Hy & Heq). apply String.eqb_eq in Heq. subst. by apply list_elem_of_In.
  - intros H. exists x. split; [by apply list_elem_of_In | apply String.eqb_refl].
Qed.

Lemma mem_false x l : PyStr.mem x l = false <-> x ∉ l.
Proof.
  rewrite <- mem_true. destruct (PyStr.mem x l); split; congruence.
Qed.

Lemma dict_get_set_eq k v d : dict_get k (dict_set k v d) = Some v.
Proof.
  induction d as [|[k' v'] d IH]; simpl.
  - by rewrite String.eqb_refl.
  - destruct (String.eqb k k') eqn:Hk; simpl; rewrite Hk; [done | exact IH].
Qed.

Lemma dict_get_set_ne k k' v d : k' ≠ k -> dict_get k' (dict_set k v d) = dict_get k' d.
Proof.
  intros Hne. induction d as [|[k0 v0] d IH]; simpl.
  - destruct (String.eqb k' k) eqn:Hk; [|done]. apply String.eqb_eq in Hk. congruence.
  - destruct (String.eqb k k0) eqn:Hk; simpl.
    + apply String.eqb_eq in Hk. subst k0.
      destruct (String.eqb k' k) eqn:Hk'; [|done]. apply String.eqb_eq in Hk'. congruence.
    + by rewrite IH.
Qed.

Lemma dict_has_get k d : dict_has k d = true <-> is_Some (dict_get k d).
Proof.
  induction d as [|[k0 v0] d IH]; simpl.
  - split; [done | by intros [? ?]].
  - destruct (String.eqb k k0); simpl; [by split; eauto | exact IH].
Qed.

Lemma dict_has_false k d : dict_has k d = false -> dict_get k d = None.
Proof.
  intros H. destruct (dict_get k d) eqn:Hg; [|done].
  assert (dict_has k d = true) by (apply dict_has_get; eauto). congruence.
Qed.



Lemma update_extension_map_returns E m ext f w :
  exists m1 w1, update_extension_map E m ext f w = (Return m1, w1)
    /\ dict_get (safe_name f) m1 =
         Some (let old := default [] (dict_get (safe_name f) m) in
               if PyStr.mem (PyStr.lower ext) old then old else old ++ [PyStr.lower ext])%list
    /\ (forall k', k' ≠ safe_name f -> dict_get k' m1 = dict_get k' m)
    /\ (PyStr.mem (PyStr.lower ext) (default [] (dict_get (safe_name f) m)) = true -> m1 = m /\ w1 = w).
Proof.
  unfold update_extension_map.
  destruct (dict_has (safe_name f) m) eqn:Hhas; simpl.
  - apply dict_has_get in Hhas as [old Hold]. rewrite Hold. simpl.
    destruct (PyStr.mem (PyStr.lower ext) old) eqn:Hmem; simpl.
    + eexists _, _. split; [reflexivity|]. auto.
    + run_monad.
      destruct (write_ok E (tick w)); [|destruct (write_opens E (tick w))]; simpl;
      (eexists _, _; split; [reflexivity|]; rewrite dict_get_set_eq;
       split; [done|]; split; [by intros; apply dict_get_set_ne | done]).
  - rewrite dict_get_set_eq. simpl.
    pose proof (dict_has_false _ _ Hhas) as Hnone. rewrite Hnone. simpl.
    run_monad.
    destruct (write_ok E (tick w)); [|destruct (write_opens E (tick w))]; simpl;
      (eexists _, _; split; [reflexivity|]; rewrite dict_get_set_eq;
       split; [done|]; split; [by intros; rewrite !dict_get_set_ne | done]).
Qed.

Lemma update_extension_map_value E m ext f w :
  fst (update_extension_map E m ext f w) = Return (recorded m ext f).
Proof.
  unfold update_extension_map, recorded.
  destruct (negb (PyStr.mem _ _)); [|done].
  run_monad. by destruct (write_ok E (tick w)); [|destruct (write_opens E (tick w))].
Qed.

Lemma rule_lookup_none ext m k l :
  rule_lookup ext m = None -> dict_get k m = Some l -> PyStr.mem ext l = false.
Proof.
  induction m as [|[k0 v0] m IH]; simpl; [done|].
  destruct (PyStr.mem ext v0) eqn:Hm; [done|]. intros Hn.
  destruct (String.eqb k k0); [congruence | by apply IH].
Qed.

Lemma mem_app_other e x l : x ≠ e -> PyStr.mem e (l ++ [x]) = PyStr.mem e l.
Proof.
  intros Hne. unfold PyStr.mem. rewrite existsb_app. simpl.
  destruct (String.eqb e x) eqn:H; [apply String.eqb_eq in H; congruence|].
  by rewrite !orb_false_r.
Qed.

Lemma mem_app_self e l : PyStr.mem e (l ++ [e]) = true.
Proof. apply mem_true. set_solver. Qed.

Lemma rule_lookup_set_other e k x m old :
  x ≠ e -> dict_get k m = Some old ->
  rule_lookup e (dict_set k (old ++ [x]) m) = rule_lookup e m.
Proof.
  intros Hne. induction m as [|[k0 v0] m IH]; simpl; [done|].
  destruct (String.eqb k k0) eqn:Hk; simpl.
  - intros [= ->]. by rewrite mem_app_other.
  - intros H. by rewrite IH.
Qed.

Lemma rule_lookup_set_empty e k m :
  dict_get k m = None -> rule_lookup e (dict_set k [] m) = rule_lookup e m.
Proof.
  induction m as [|[k0 v0] m IH]; simpl; [done|].
  destruct (String.eqb k k0) eqn:Hk; simpl; [done|]. intros H. by rewrite IH.
Qed.

Lemma rule_lookup_set_self e k l m :
  rule_lookup e m = None -> rule_lookup e (dict_set k (l ++ [e]) m) = Some k.
Proof.
  induction m as [|[k0 v0] m IH]; simpl.
  - by rewrite mem_app_self.
  - destruct (PyStr.mem e v0) eqn:Hm; [done|]. intros Hn.
    destruct (String.eqb k k0) eqn:Hk; simpl.
    + rewrite mem_app_self. apply String.eqb_eq in Hk. by subst.
    + rewrite Hm. by apply IH.
Qed.

Lemma rule_lookup_recorded_other e m ext f :
  PyStr.lower ext ≠ e -> rule_lookup e (recorded m ext f) = rule_lookup e m.
Proof.
  intros Hne. unfold recorded.
  destruct (dict_has (safe_name f) m) eqn:Hhas; simpl.
  - apply dict_has_get in Hhas as [old Hold]. rewrite Hold. simpl.
    destruct (PyStr.mem _ old); simpl; [done|]. by apply rule_lookup_set_other.
  - apply dict_has_false in Hhas. rewrite dict_get_set_eq. simpl.
    pose proof (rule_lookup_set_other e (safe_name f) (PyStr.lower ext)
                  (dict_set (safe_name f) [] m) [] Hne (dict_get_set_eq _ _ _)) as H.
    simpl in H. rewrite H. by apply rule_lookup_set_empty.
Qed.

Lemma rule_lookup_recorded_new m ext f :
  rule_lookup (PyStr.lower ext) m = None ->
  rule_lookup (PyStr.lower ext) (recorded m ext f) = Some (safe_name f).
Proof.
  intros Hn. unfold recorded.
  destruct (dict_has (safe_name f) m) eqn:Hhas; simpl.
  - apply dict_has_get in Hhas as [old Hold]. rewrite Hold. simpl.
    rewrite (rule_lookup_none _ _ _ _ Hn Hold). simpl. by apply rule_lookup_set_self.
  - apply dict_has_false in Hhas. rewrite dict_get_set_eq. simpl.
    apply (rule_lookup_set_self _ _ []). by rewrite rule_lookup_set_empty.
Qed.

Lemma lower_char_idem c : PyStr.lower_char (PyStr.lower_char c) = PyStr.lower_char c.
Proof. by destruct c as [[] [] [] [] [] [] [] []]. Qed.

Lemma lower_idem s : PyStr.lower (PyStr.lower s) = PyStr.lower s.
Proof. induction s as [|c s IH]; simpl; [done|]. by rewrite lower_char_idem, IH. Qed.


(* ===================================================================== *)
(** ** Which oracle calls an iteration makes *)
(* ===================================================================== *)

Lemma wp_bind_value {A B} (m : M A) (k : A -> M B) w (V : A -> Prop)
    (Q : outcome B -> Prop) :
  (forall w, wp m w (fun r _ => match r with Return a => V a | Raise _ => True end)) ->
  (forall e, Q (Raise e)) ->
  (forall a w1, V a -> wp (k a) w1 (fun r _ => Q r)) ->
  wp (bind m k) w (fun r _ => Q r).
Proof.
  intros Hm HQ Hk. apply wp_bind. eapply wp_mono; [apply Hm|].
  intros [a|e] w1 H; [by apply Hk | apply HQ].
Qed.

Lemma wp_bind_any {A B} (m : M A) (k : A -> M B) w (Q : outcome B -> Prop) :
  (forall e, Q (Raise e)) ->
  (forall a w1, wp (k a) w1 (fun r _ => Q r)) ->
  wp (bind m k) w (fun r _ => Q r).
Proof.
  intros HQ Hk. apply wp_bind. unfold wp at 1.
  destruct (m w) as [[a|e] w1]; simpl; [apply Hk | apply HQ].
Qed.

Lemma keeps_bind_value P {A B} (m : M A) (k : A -> M B) (V : A -> Prop) :
  keeps P m ->
  (forall w, wp m w (fun r _ => match r with Return a => V a | Raise _ => True end)) ->
  (forall a, V a -> keeps P (k a)) ->
  keeps P (bind m k).
Proof.
  intros Hm HV Hk w0 w H. apply wp_bind.
  specialize (Hm w0 w H). specialize (HV w). unfold wp in *.
  destruct (m w) as [[a|e] w1]; simpl in *; [by apply Hk | done].
Qed.

Section Calls.
Variable E : Env.
Variable P : event -> Prop.
Hypothesis HP : only_agents P.

Lemma keeps_mkdir p : keeps P (mkdir E p).
Proof. unfold mkdir. keeps_go. by apply HP. Qed.

Lemma keeps_final_move item d l : keeps P (final_move E item d l).
Proof.
  unfold final_move, shutil_move.
  destruct d as [[[|c s]|p]|]; keeps_go; try apply keeps_mkdir; by apply HP.
Qed.

Lemma keeps_update_extension_map m ext f : keeps P (update_extension_map E m ext f).
Proof.
  eapply keeps_mono; [|apply update_extension_map_footprint].
  intros e He. apply HP. by destruct e as [[]| | | | | | |].
Qed.

Lemma keeps_analyze_code_content n :
  P (Agent (AskCode n)) -> keeps P (analyze_code_content E n).
Proof.
  intros Hn. unfold analyze_code_content. keeps_go; try done; by apply HP.
Qed.

Lemma keeps_get_folder_recommendation ext existing :
  (forall ex, P (Agent (AskExtension ext ex))) ->
  keeps P (get_folder_recommendation E ext existing).
Proof.
  intros Hn. eapply keeps_mono; [|apply get_folder_recommendation_footprint].
  intros e He. destruct e as [[]| | |[]| | | |]; simpl in He; try done;
    try (by apply HP). subst. apply Hn.
Qed.

Lemma keeps_classify_mapped existing item l category :
  rule_lookup (PyStr.lower (PyStr.suffix (name item))) (EXT_MAP l) = Some category ->
  (category = "Code" -> P (Agent (AskCode (name item)))) ->
  keeps P (classify_and_move E existing item l).
Proof.
  intros Hl Hcode. unfold classify_and_move. rewrite Hl.
  apply keeps_bind; [by apply keeps_log, HP|]. intros _.
  destruct (String.eqb category "Code") eqn:Hc; [|apply keeps_final_move].
  apply String.eqb_eq in Hc.
  apply keeps_bind; [by apply keeps_analyze_code_content, Hcode|].
  intros [info|]; [|apply keeps_final_move].
  destruct (PyStr.truthy _); [|apply keeps_final_move].
  apply keeps_bind; [apply keeps_mkdir|]. intros _.
  apply keeps_bind; [by apply keeps_log, HP|]. intros _.
  apply keeps_final_move.
Qed.

Lemma keeps_classify_unmapped existing item l :
  rule_lookup (PyStr.lower (PyStr.suffix (name item))) (EXT_MAP l) = None ->
  (forall ex, P (Agent (AskExtension (PyStr.lower (PyStr.suffix (name item))) ex))) ->
  keeps P (classify_and_move E existing item l).
Proof.
  intros Hl Hask. unfold classify_and_move. rewrite Hl.
  apply keeps_bind; [by apply keeps_log, HP|]. intros _.
  apply keeps_bind; [by apply keeps_get_folder_recommendation|].
  intros [r|]; [|apply keeps_final_move].
  destruct (PyStr.truthy _); [|apply keeps_final_move].
  apply keeps_bind; [apply keeps_update_extension_map|]. intros ext_map.
  apply keeps_final_move.
Qed.

(** An iteration is harmless for [P] as soon as its classification step is. *)
Lemma keeps_process_item pa cutoff excl existing item l :
  keeps P (classify_and_move E existing item l) ->
  keeps P (process_item E pa cutoff excl existing item l).
Proof.
  intros Hc. unfold process_item, shutil_move.
  destruct (is_dir item); [keeps_go; by apply HP|].
  destruct (String.eqb _ _); [apply keeps_ret|].
  destruct (_ || _); [keeps_go; by apply HP|].
  destruct (negb pa); [|done].
  apply keeps_bind; [apply keeps_guarded|]. intros _.
  destruct (_ <=? _)%Z; [keeps_go; by apply HP | done].
Qed.
End Calls.

Section Mapping.
Variable E : Env.

Lemma final_move_same_map item d l w :
  wp (final_move E item d l) w (fun r _ => same_map l r).
Proof.
  unfold wp, final_move. destruct d as [[[|c s]|p]|]; run_monad; try done.
  - destruct (mkdir_ok E (tick w)); simpl; [|done].
    by destruct (move_ok E (S (tick w))).
  - by destruct (move_ok E (tick w)).
Qed.

Lemma final_move_still_mapped e c item d l w :
  rule_lookup e (EXT_MAP l) = Some c ->
  wp (final_move E item d l) w (fun r _ => still_mapped e c r).
Proof.
  intros H. eapply wp_mono; [apply final_move_same_map|].
  intros [l'|] w' Hs; [|done]. simpl in *. by rewrite Hs.
Qed.

Lemma classify_still_mapped e c existing item l w :
  rule_lookup e (EXT_MAP l) = Some c ->
  wp (classify_and_move E existing item l) w (fun r _ => still_mapped e c r).
Proof.
  intros H. unfold classify_and_move.
  apply wp_bind_any; [done|]. intros _ w1.
  destruct (rule_lookup (PyStr.lower (PyStr.suffix (name item))) (EXT_MAP l))
    as [category|] eqn:Hl.
  - destruct (String.eqb category "Code"); [|by apply final_move_still_mapped].
    apply wp_bind_any; [done|].
    intros [info|] w2; [|by apply final_move_still_mapped].
    destruct (PyStr.truthy _); [|by apply final_move_still_mapped].
    apply wp_bind_any; [done|]. intros _ w3.
    apply wp_bind_any; [done|]. intros _ w4. by apply final_move_still_mapped.
  - apply wp_bind_any; [done|].
    intros [r|] w2; [|by apply final_move_still_mapped].
    destruct (PyStr.truthy _); [|by apply final_move_still_mapped].
    apply (wp_bind_value _ _ _
             (fun m => m = recorded (EXT_MAP l)
                             (PyStr.lower (PyStr.suffix (name item)))
                             (suggested_folder_name r))).
    { intros w'. unfold wp. rewrite update_extension_map_value. done. }
    { done. }
    intros ext_map w3 ->. apply final_move_still_mapped. simpl.
    rewrite rule_lookup_recorded_other; [done|].
    rewrite lower_idem. intros Heq. rewrite Heq in Hl. congruence.
Qed.

Lemma process_item_still_mapped e c pa cutoff excl existing item l w :
  rule_lookup e (EXT_MAP l) = Some c ->
  wp (process_item E pa cutoff excl existing item l) w (fun r _ => still_mapped e c r).
Proof.
  intros H. unfold process_item.
  destruct (is_dir item).
  - destruct (_ || _); [done|]. unfold wp. run_monad.
    by destruct (move_ok E (tick w)).
  - destruct (String.eqb _ _); [done|].
    destruct (_ || _); [done|].
    destruct (negb pa); [|by apply classify_still_mapped].
    apply wp_bind_any; [done|].
    intros _ w1. destruct (_ <=? _)%Z; [done | by apply classify_still_mapped].
Qed.

(** Once an extension is in the map, no later iteration asks the oracle
    about it. *)
Lemma keeps_process_item_mapped e c pa cutoff excl existing item l :
  rule_lookup e (EXT_MAP l) = Some c ->
  keeps (fun ev => is_ask_extension_of e ev = false)
    (process_item E pa cutoff excl existing item l).
Proof.
  intros H.
  assert (HP : only_agents (fun ev => is_ask_extension_of e ev = false)).
  { intros ev Hev. by destruct ev as [| | |[]| | | |]. }
  apply keeps_process_item; [done|].
  destruct (rule_lookup (PyStr.lower (PyStr.suffix (name item))) (EXT_MAP l))
    as [category|] eqn:Hl.
  - by eapply keeps_classify_mapped.
  - apply keeps_classify_unmapped; [done..|]. intros ex. simpl.
    apply String.eqb_neq. intros Heq. rewrite Heq in Hl. congruence.
Qed.

Lemma keeps_for_each_mapped e c pa cutoff excl existing items l :
  rule_lookup e (EXT_MAP l) = Some c ->
  keeps (fun ev => is_ask_extension_of e ev = false)
    (for_each_item E pa cutoff excl existing items l).
Proof.
  revert l. induction items as [|item rest IH]; intros l H; simpl.
  - apply keeps_ret.
  - apply (keeps_bind_value _ _ _ (fun l' => rule_lookup e (EXT_MAP l') = Some c)).
    + by eapply keeps_process_item_mapped.
    + intros w. by apply process_item_still_mapped.
    + intros l' Hl'. by apply IH.
Qed.
End Mapping.


(* ===================================================================== *)
(** ** Normalisation of category names *)
(* ===================================================================== *)

Lemma chars_filter p s c : c ∈ chars (PyStr.filter_chars p s) -> p c = true /\ c ∈ chars s.
Proof.
  induction s as [|x s IH]; simpl; [by intros H%elem_of_nil|].
  destruct (p x) eqn:Hp; simpl.
  - intros [->|H]%elem_of_cons; [split; [done|by left]|].
    apply IH in H as [? ?]. split; [done|by right].
  - intros H. apply IH in H as [? ?]. split; [done|by right].
Qed.

Lemma chars_replace_space s c :
  c ∈ chars (PyStr.replace " " "_" s) -> c ≠ " "%char /\ (c ∈ chars s \/ c = "_"%char).
Proof.
  induction s as [|x s IH]; simpl; [by intros H%elem_of_nil|].
  intros [->|H]%elem_of_cons.
  - destruct (Ascii.eqb x " ") eqn:Hx.
    + split; [done | by right].
    + apply Ascii.eqb_neq in Hx. split; [done|]. left. by left.
  - apply IH in H as [? [?|?]]; (split; [done|]); [left; by right | by right].
Qed.

Lemma safe_name_chars f c :
  c ∈ chars (safe_name f) -> PyStr.kept c = true /\ c ≠ " "%char.
Proof.
  unfold safe_name. intros [Hne [H| ->]]%chars_replace_space; [|done].
  apply chars_filter in H as [? _]. done.
Qed.

Lemma filter_chars_ext p q s :
  (forall c, c ∈ chars s -> p c = q c) -> PyStr.filter_chars p s = PyStr.filter_chars q s.
Proof.
  induction s as [|x s IH]; simpl; [done|]. intros H.
  rewrite (H x) by by left. rewrite IH; [done|]. intros c Hc. apply H. by right.
Qed.

Lemma kept_spec_class c :
  (PyStr.is_space c = true -> c = " "%char) -> PyStr.kept c = spec_class c.
Proof. destruct c as [[] [] [] [] [] [] [] []]; vm_compute; intros H; try done; by discriminate H. Qed.

(** On names whose only blanks are spaces the code normalises as the
    specification says. *)
Lemma safe_name_spec f :
  (forall c, c ∈ chars f -> PyStr.is_space c = true -> c = " "%char) ->
  safe_name f = spec_safe_name f.
Proof.
  intros H. unfold safe_name, spec_safe_name, PyStr.re_sub_non_word. f_equal.
  apply filter_chars_ext. intros c Hc. apply kept_spec_class. by apply H.
Qed.


(* ===================================================================== *)
(** ** The extension agent *)
(* ===================================================================== *)

Lemma extension_attempts_step E fuel retries ext existing :
  extension_attempts E (S fuel) retries ext existing
  = if (retries <? MAX_RETRIES)%nat then
      try_except
        (n <- instant ;;
         emit (Agent (AskExtension ext existing)) ;;
         r <- of_reply (classify_extension E n) ;;
         ret (Some r))
        (fun e =>
           match e with
           | APIError =>
               log_message (MsgExtensionAgentError (S retries)) ;;
               sleep RETRY_DELAY ;;
               extension_attempts E fuel (S retries) ext existing
           | OtherException =>
               log_message MsgExtensionAgentUnexpected ;; ret None
           end)
    else ret None.
Proof. reflexivity. Qed.

(** The retry loops stop because the limit is reached, not because their
    fuel is: one more unit of fuel changes nothing. *)
Lemma extension_attempts_fuel E fuel retries ext existing w :
  (MAX_RETRIES <= retries + fuel)%nat ->
  extension_attempts E (S fuel) retries ext existing w
  = extension_attempts E fuel retries ext existing w.
Proof.
  revert retries w. induction fuel as [|fuel IH]; intros retries w Hle.
  - rewrite extension_attempts_step.
    destruct (retries <? MAX_RETRIES)%nat eqn:Hlt; [|reflexivity].
    apply Nat.ltb_lt in Hlt. lia.
  - rewrite (extension_attempts_step E (S fuel) retries),
      (extension_attempts_step E fuel retries).
    destruct (retries <? MAX_RETRIES)%nat; [|done].
    unfold try_except.
    match goal with |- (let (_, _) := ?m in _) = _ =>
      destruct m as [[a|[|]] w1] end; [done| |done].
    unfold bind, log_message, sleep, emit. apply IH. lia.
Qed.

Section Ext.
Variable E : Env.

Lemma classify_unmapped_eval existing item l w :
  rule_lookup (PyStr.lower (PyStr.suffix (name item))) (EXT_MAP l) = None ->
  forall r w2,
  get_folder_recommendation E (PyStr.lower (PyStr.suffix (name item))) existing
    (set_trace (trace w ++ [Log (MsgProcessing (name item))]) w) = (Return r, w2) ->
  usable r = false ->
  classify_and_move E existing item l w =
  final_move E item (Some (DestStr "Unsorted_Agent_Failed")) l w2.
Proof.
  intros Hl r w2 Hr Hu. unfold classify_and_move. rewrite Hl.
  unfold bind at 1. unfold log_message, emit. unfold bind at 1. rewrite Hr.
  destruct r as [r|]; simpl in *; [|done]. by rewrite Hu.
Qed.

Lemma added_app w t1 t2 w' :
  trace w = t1 -> trace w' = (t1 ++ t2)%list -> added w w' = t2.
Proof. intros H1 H2. unfold added. by rewrite H1, H2, drop_app_length. Qed.

Lemma get_folder_recommendation_eval ext existing w k :
  gemini_client E = true ->
  (k <= MAX_RETRIES)%nat ->
  (forall j, (j < k)%nat -> classify_extension E (tick w + j) = ApiFailure) ->
  ((k < MAX_RETRIES)%nat -> classify_extension E (tick w + k) <> ApiFailure) ->
  exists w2,
    get_folder_recommendation E ext existing w = (Return (answer_after E (tick w) k), w2)
    /\ count is_ask_extension (added w w2) = Nat.min (S k) MAX_RETRIES
    /\ weight slept (added w w2) = (k * RETRY_DELAY)%nat
    /\ tick w2 = (tick w + Nat.min (S k) MAX_RETRIES)%nat.
Proof.
  intros Hc Hk Hfail Hlast.
  unfold get_folder_recommendation, answer_after. rewrite Hc. simpl.
  destruct k as [|[|[|[|k]]]]; [| | | |unfold MAX_RETRIES in Hk; lia].
  - specialize (Hlast ltac:(unfold MAX_RETRIES; lia)). clear Hfail.
    rewrite Nat.add_0_r in *. run_monad.
    destruct (classify_extension E (tick w)) as [a| |]; [|done|]; simpl;
      (eexists; split; [reflexivity|]);
      (erewrite added_app; [|reflexivity|simpl; rewrite <- ?app_assoc; reflexivity]);
      repeat split; simpl; lia.
  - specialize (Hlast ltac:(unfold MAX_RETRIES; lia)).
    pose proof (Hfail 0%nat ltac:(lia)) as H0. clear Hfail.
    rewrite Nat.add_0_r in H0. rewrite Nat.add_1_r in *. run_monad. rewrite H0. simpl.
    destruct (classify_extension E (S (tick w))) as [a| |]; [|done|]; simpl;
      (eexists; split; [reflexivity|]);
      (erewrite added_app; [|reflexivity|simpl; rewrite <- ?app_assoc; reflexivity]);
      repeat split; simpl; lia.
  - specialize (Hlast ltac:(unfold MAX_RETRIES; lia)).
    pose proof (Hfail 0%nat ltac:(lia)) as H0.
    pose proof (Hfail 1%nat ltac:(lia)) as H1. clear Hfail.
    rewrite Nat.add_0_r in H0. rewrite Nat.add_1_r in H1.
    replace (tick w + 2)%nat with (S (S (tick w))) in * by lia.
    run_monad. rewrite H0. simpl. rewrite H1. simpl.
    destruct (classify_extension E (S (S (tick w)))) as [a| |]; [|done|]; simpl;
      (eexists; split; [reflexivity|]);
      (erewrite added_app; [|reflexivity|simpl; rewrite <- ?app_assoc; reflexivity]);
      repeat split; simpl; lia.
  - clear Hlast.
    pose proof (Hfail 0%nat ltac:(lia)) as H0.
    pose proof (Hfail 1%nat ltac:(lia)) as H1.
    pose proof (Hfail 2%nat ltac:(lia)) as H2. clear Hfail.
    rewrite Nat.add_0_r in H0. rewrite Nat.add_1_r in H1.
    replace (tick w + 2)%nat with (S (S (tick w))) in * by lia.
    run_monad. rewrite H0. simpl. rewrite H1. simpl. rewrite H2. simpl.
    eexists; split; [reflexivity|].
    erewrite added_app; [|reflexivity|simpl; rewrite <- ?app_assoc; reflexivity].
    repeat split; simpl; lia.
Qed.
End Ext.

(* ===================================================================== *)
(** ** The image renamer *)
(* ===================================================================== *)

Lemma image_batch_attempts_step E fuel retries filenames :
  image_batch_attempts E (S fuel) retries filenames
  = if (retries <? MAX_RETRIES)%nat then
      try_except
        (n <- instant ;;
         emit (Agent (AskImageBatch filenames)) ;;
         r <- of_reply (describe_image_batch E n) ;;
         ret (Some r))
        (fun _ =>
           log_message (MsgImageAgentError (S retries)) ;;
           if (S retries <? MAX_RETRIES)%nat then
             sleep RETRY_DELAY ;;
             image_batch_attempts E fuel (S retries) filenames
           else ret None)
    else ret None.
Proof. reflexivity. Qed.

(** Likewise for the batch agent. *)
Lemma image_batch_attempts_fuel E fuel retries filenames w :
  (MAX_RETRIES <= retries + fuel)%nat ->
  image_batch_attempts E (S fuel) retries filenames w
  = image_batch_attempts E fuel retries filenames w.
Proof.
  revert retries w. induction fuel as [|fuel IH]; intros retries w Hle.
  - rewrite image_batch_attempts_step.
    destruct (retries <? MAX_RETRIES)%nat eqn:Hlt; [|reflexivity].
    apply Nat.ltb_lt in Hlt. lia.
  - rewrite (image_batch_attempts_step E (S fuel) retries),
      (image_batch_attempts_step E fuel retries).
    destruct (retries <? MAX_RETRIES)%nat; [|done].
    unfold try_except.
    match goal with |- (let (_, _) := ?m in _) = _ =>
      destruct m as [[a|e] w1] end; [done|].
    unfold bind at 1. unfold log_message, emit.
    unfold bind at 1.
    destruct (S retries <? MAX_RETRIES)%nat; [|done].
    unfold bind, sleep, emit. apply IH. lia.
Qed.

Section Renamer.
Variable E : Env.
Variable P : event -> Prop.
Hypothesis HP : only_agents P.
Hypothesis HB : forall filenames, P (Agent (AskImageBatch filenames)).

Lemma keeps_os_rename src dst : keeps P (os_rename E src dst).
Proof. unfold os_rename. keeps_go. by apply HP. Qed.

Lemma keeps_image_open filename : keeps P (image_open E filename).
Proof. unfold image_open. keeps_go. Qed.

Lemma keeps_open_batch files batch l : keeps P (open_batch E files batch l).
Proof.
  revert batch l. induction files as [|f files IH]; intros batch l; simpl.
  - apply keeps_ret.
  - apply keeps_bind; [|intros r; apply IH].
    apply keeps_try; [|intros; apply keeps_ret].
    apply keeps_bind; [apply keeps_image_open | intros; apply keeps_ret].
Qed.

Lemma keeps_rename_batch result_map batch l : keeps P (rename_batch E result_map batch l).
Proof.
  revert l. induction batch as [|f batch IH]; intros l; simpl.
  - apply keeps_ret.
  - destruct (result_get f result_map); [|apply IH].
    apply keeps_bind; [|intros; apply IH].
    apply keeps_try; [|intros; apply keeps_ret].
    apply keeps_bind; [apply keeps_os_rename | intros; apply keeps_ret].
Qed.

Lemma keeps_image_batch_attempts fuel retries filenames :
  keeps P (image_batch_attempts E fuel retries filenames).
Proof.
  revert retries. induction fuel as [|fuel IH]; intros retries; simpl.
  - apply keeps_ret.
  - keeps_go; try apply HB; try (by apply HP). apply IH.
Qed.

Lemma keeps_get_batch_info batch : keeps P (get_batch_info_from_images_renamer E batch).
Proof.
  unfold get_batch_info_from_images_renamer. destruct (negb _); [apply keeps_ret|].
  apply keeps_image_batch_attempts.
Qed.

Lemma keeps_process_batch use_delay all_files file_index l :
  keeps P (process_batch E use_delay all_files file_index l).
Proof.
  unfold process_batch.
  apply keeps_bind; [apply keeps_open_batch|]. intros [batch l1]. simpl.
  apply keeps_bind.
  { destruct batch as [|b batch]; [apply keeps_ret|].
    apply keeps_bind; [apply keeps_get_batch_info|].
    intros [[|d ds]|]; try apply keeps_ret. apply keeps_rename_batch. }
  intros l2. apply keeps_bind; [|intros; apply keeps_ret].
  destruct (_ && _); [by apply keeps_sleep, HP | apply keeps_ret].
Qed.

Lemma keeps_batch_loop fuel use_delay all_files file_index l :
  keeps P (batch_loop E fuel use_delay all_files file_index l).
Proof.
  revert file_index l. induction fuel as [|fuel IH]; intros file_index l; simpl.
  - apply keeps_ret.
  - destruct (_ <? _)%nat; [|apply keeps_ret].
    apply keeps_bind; [apply keeps_process_batch | intros; apply IH].
Qed.

Lemma keeps_execute_image_renamer use_delay : keeps P (execute_image_renamer E use_delay).
Proof.
  unfold execute_image_renamer, renamer_run.
  apply keeps_bind; [by apply keeps_log, HP|]. intros _.
  apply keeps_bind; [apply keeps_get_world|]. intros w.
  destruct (images w) as [d|].
  - destruct (negb _); [apply keeps_raise|].
    apply keeps_bind.
    { apply keeps_bind; [by apply keeps_log, HP|]. intros _. apply keeps_batch_loop. }
    intros l. apply keeps_bind; [by apply keeps_log, HP | intros; apply keeps_ret].
  - apply keeps_bind; [by apply keeps_log, HP | intros; apply keeps_ret].
Qed.
End Renamer.



(* ===================================================================== *)
(** ** The search for a free name *)
(* ===================================================================== *)

Lemma chars_append s1 s2 :
  list_ascii_of_string (s1 +:+ s2) = (list_ascii_of_string s1 ++ list_ascii_of_string s2)%list.
Proof. induction s1 as [|c s1 IH]; simpl; [done | by rewrite IH]. Qed.

Lemma chars_inj s1 s2 : list_ascii_of_string s1 = list_ascii_of_string s2 -> s1 = s2.
Proof.
  intros H. rewrite <- (string_of_list_ascii_of_string s1), H.
  apply string_of_list_ascii_of_string.
Qed.

Lemma append_inv_tail s1 s2 t : s1 +:+ t = s2 +:+ t -> s1 = s2.
Proof.
  intros H. apply chars_inj. apply (f_equal list_ascii_of_string) in H.
  rewrite !chars_append in H. by apply app_inv_tail in H.
Qed.

Lemma append_inv_head s t1 t2 : s +:+ t1 = s +:+ t2 -> t1 = t2.
Proof. induction s as [|c s IH]; simpl; [done|]. intros [= H]. by apply IH. Qed.

Lemma numbered_inj base ext i j : numbered base i ext = numbered base j ext -> i = j.
Proof.
  unfold numbered. intros H.
  apply append_inv_head in H. apply append_inv_head in H.
  apply append_inv_tail in H. by apply (inj pretty) in H.
Qed.

Section Free.
Variable (w : World) (base ext : string).

Lemma free_name_taken fuel k cand :
  path_exists w (free_name fuel k base ext cand w) = true ->
  path_exists w cand = true /\
  forall i, (k <= i < k + fuel)%nat -> path_exists w (numbered base i ext) = true.
Proof.
  revert k cand. induction fuel as [|fuel IH]; intros k cand; simpl.
  - intros H. split; [done|]. lia.
  - destruct (path_exists w cand) eqn:Hc; [|congruence].
    intros H. apply IH in H as [Hk Hrest]. split; [done|].
    intros i Hi. destruct (decide (i = k)) as [->|Hne]; [done|]. apply Hrest. lia.
Qed.

(** The search of [retry_failed_file_renamer] ends on a free name. *)
Lemma free_name_is_free :
  path_exists w (free_name (search_fuel w) 1 base ext (base +:+ ext) w) = false.
Proof.
  destruct (path_exists w (free_name _ _ _ _ _ _)) eqn:H; [|done]. exfalso.
  apply free_name_taken in H as [_ H].
  unfold search_fuel, path_exists in *. destruct (images w) as [d|].
  - set (l := map (fun i => numbered base i ext) (seq 1 (S (size d)))).
    assert (Hsub : list_to_set l ⊆ dom d).
    { intros x Hx. apply elem_of_list_to_set in Hx. unfold l in Hx.
      apply list_elem_of_fmap in Hx as (i & -> & Hi). apply elem_of_seq in Hi.
      apply elem_of_dom. eapply bool_decide_eq_true_1. apply H. lia. }
    apply subseteq_size in Hsub. rewrite size_dom, size_list_to_set in Hsub.
    + unfold l in Hsub. rewrite length_map, length_seq in Hsub. lia.
    + unfold l. apply NoDup_fmap_2_strong; [|apply NoDup_seq].
      intros i j _ _. apply numbered_inj.
  - specialize (H 1%nat ltac:(lia)). done.
Qed.
End Free.

(* ===================================================================== *)
(** ** Single-item repair *)
(* ===================================================================== *)

Section Repair.
Variable E : Env.

Lemma os_rename_eval src dst w d c :
  images w = Some d -> d !! src = Some c ->
  os_rename E src dst w =
    if rename_allowed E d src dst (tick w)
    then (Return tt,
          {| tick := S (tick w); trace := (trace w ++ [Rename src dst])%list;
             map_file := map_file w;
             images := Some (<[dst := c]> (delete src d)) |})
    else (Raise OtherException, set_tick (S (tick w)) w).
Proof.
  intros Hd Hc. unfold os_rename, rename_allowed. run_monad.
  destruct (rename_ok E (tick w)); simpl; [|done].
  rewrite Hd, Hc.
  by destruct (bool_decide _ && _ && _).
Qed.

Lemma image_open_eval filename w d c :
  images w = Some d -> d !! filename = Some c ->
  image_open E filename w =
    if image_open_ok E (tick w)
    then (Return tt, set_tick (S (tick w)) w)
    else (Raise OtherException, set_tick (S (tick w)) w).
Proof.
  intros Hd Hc. unfold image_open. run_monad. rewrite Hd, Hc. run_monad.
  by destruct (image_open_ok E (tick w)).
Qed.

(** Renaming away and back leaves the original name with its content and
    frees the temporary name. *)
Lemma rename_back (d : gmap string nat) original temp c :
  <[original := c]> (delete temp (<[temp := c]> (delete original d)))
  = <[original := c]> (delete temp d).
Proof.
  apply map_eq. intros i.
  destruct (decide (i = original)) as [->|Ho]; [by rewrite !lookup_insert_eq|].
  rewrite !lookup_insert_ne by done.
  destruct (decide (i = temp)) as [->|Ht]; [by rewrite !lookup_delete_eq|].
  by rewrite !lookup_delete_ne, lookup_insert_ne, lookup_delete_ne by done.
Qed.

Lemma rename_back_fresh (d : gmap string nat) original temp c :
  d !! original = Some c -> d !! temp = None ->
  <[original := c]> (delete temp d) = d.
Proof. intros Ho Ht. by rewrite delete_id, insert_id. Qed.

(** The rename back is refused by the environment or not at all. *)
Lemma restore_allowed (d : gmap string nat) original temp c t :
  rename_allowed E (<[temp := c]> (delete original d)) temp original t = rename_ok E t.
Proof.
  unfold rename_allowed.
  destruct (String.eqb temp original) eqn:Heq; simpl.
  - by rewrite andb_false_r, andb_true_r.
  - apply String.eqb_neq in Heq.
    rewrite lookup_insert_ne, lookup_delete_eq by done.
    rewrite bool_decide_eq_false_2 by (by intros [? ?]).
    simpl. by rewrite andb_true_r.
Qed.

Lemma restore_eval original temp w d c :
  images w = Some (<[temp := c]> (delete original d)) ->
  restore_name E original temp w =
    if rename_ok E (tick w)
    then (Return false,
          {| tick := S (tick w);
             trace := (trace w ++ [Log (MsgRetryFailed original); Rename temp original])%list;
             map_file := map_file w;
             images := Some (<[original := c]> (delete temp d)) |})
    else (Return false,
          {| tick := S (tick w);
             trace := (trace w ++ [Log (MsgRetryFailed original); Log MsgRestoreFatal])%list;
             map_file := map_file w; images := images w |}).
Proof.
  intros Hi. unfold restore_name.
  unfold bind at 1. unfold log_message at 1, emit at 1. unfold bind, try_except.
  erewrite os_rename_eval; [|simpl; exact Hi| apply lookup_insert_eq].
  rewrite restore_allowed. simpl.
  destruct (rename_ok E (tick w)); run_monad.
  - by rewrite rename_back, <- app_assoc.
  - rewrite <- app_assoc. reflexivity.
Qed.

Lemma restore_concludes original temp w w2 d c t r w' :
  images w = Some d -> d !! original = Some c ->
  images w2 = Some (<[temp := c]> (delete original d)) ->
  trace w2 = (trace w ++ t)%list -> Log MsgRestoreFatal ∉ t ->
  restore_name E original temp w2 = (r, w') ->
  r = Return false /\
  ((rename_ok E (pred (tick w')) = true /\
    images w' = Some (<[original := c]> (delete temp d)) /\
    (d !! temp = None -> images w' = images w) /\
    Log MsgRestoreFatal ∉ added w w')
   \/
   (rename_ok E (pred (tick w')) = false /\
    images w' = Some (<[temp := c]> (delete original d)) /\
    last (trace w') = Some (Log MsgRestoreFatal))).
Proof.
  intros Hd Ho Hi Htr Hnf. rewrite (restore_eval original temp w2 d c Hi).
  destruct (rename_ok E (tick w2)) eqn:Hok; intros [= Hr Hw]; rewrite <- Hr, <- Hw;
    simpl; (split; [done|]).
  - left. split; [done|]. split; [done|]. split.
    + intros Ht. by rewrite Hd, rename_back_fresh.
    + unfold added. simpl. rewrite Htr, <- app_assoc, drop_app_length.
      intros [H|H]%elem_of_app; [done | not_in_list H].
  - right. split; [done|]. split; [done|].
    by rewrite last_app.
Qed.

Arguments os_rename : simpl never.
Arguments restore_name : simpl never.
Arguments free_name : simpl never.
Arguments rename_allowed : simpl never.

(** Single-item repair, step by step. *)
Lemma retry_eval original w d c :
  gemini_client E = true ->
  images w = Some d -> d !! original = Some c ->
  let ext := PyStr.splitext_ext original in
  let temp := "temp_retry_" +:+ uuid4_hex8 E (tick w) +:+ ext in
  rename_allowed E d original temp (S (tick w)) = true ->
  forall r w', retry_failed_file_renamer E original w = (r, w') ->
  (r = Return true /\
     image_open_ok E (2 + tick w) = true /\
     (exists t, describe_image E (3 + tick w) = Answer (Some t) /\ t <> "") /\
     rename_ok E (4 + tick w) = true)
  \/
  (r = Return false /\
     ((rename_ok E (pred (tick w')) = true /\
       images w' = Some (<[original := c]> (delete temp d)) /\
       (d !! temp = None -> images w' = images w) /\
       Log MsgRestoreFatal ∉ added w w')
      \/
      (rename_ok E (pred (tick w')) = false /\
       images w' = Some (<[temp := c]> (delete original d)) /\
       last (trace w') = Some (Log MsgRestoreFatal)))).
Proof.
  intros Hc Hd Ho ext temp Hr1 r w'.
  unfold retry_failed_file_renamer. rewrite Hc. simpl.
  unfold bind at 1. unfold log_message at 1, emit at 1.
  unfold bind at 1. unfold instant at 1. simpl.
  fold ext. fold temp.
  unfold try_except. unfold bind at 1.
  erewrite os_rename_eval; [|simpl; exact Hd|exact Ho].
  simpl. rewrite Hr1.
  unfold bind at 1.
  erewrite image_open_eval; [|simpl; reflexivity|apply lookup_insert_eq].
  simpl.
  assert (Hfail : forall w2 t,
            images w2 = Some (<[temp := c]> (delete original d)) ->
            trace w2 = (trace w ++ t)%list -> Log MsgRestoreFatal ∉ t ->
            restore_name E original temp w2 = (r, w') ->
            r = Return false /\
            ((rename_ok E (pred (tick w')) = true /\
              images w' = Some (<[original := c]> (delete temp d)) /\
              (d !! temp = None -> images w' = images w) /\
              Log MsgRestoreFatal ∉ added w w')
             \/
             (rename_ok E (pred (tick w')) = false /\
              images w' = Some (<[temp := c]> (delete original d)) /\
              last (trace w') = Some (Log MsgRestoreFatal)))).
  { intros w2 t Hi Htr Hnf H. by eapply restore_concludes. }
  destruct (image_open_ok E (S (S (tick w)))) eqn:Hopen.
  2:{ intros H. right. eapply Hfail; [| | |exact H].
      - reflexivity.
      - simpl. rewrite <- app_assoc. reflexivity.
      - simpl. intros H'. not_in_list H'. }
  run_monad.
  destruct (describe_image E (S (S (S (tick w))))) as [[[|ch t]|]| |] eqn:Hrep; simpl.
  - (* an empty title *)
    intros H. right. eapply Hfail; [| | |exact H].
    + reflexivity.
    + simpl. rewrite <- !app_assoc. reflexivity.
    + simpl. intros H'. not_in_list H'.
  - (* a title *)
    match goal with |- context [free_name ?f ?k ?b ?e ?n ?W] =>
      generalize (free_name f k b e n W) end.
    intros new_filename.
    erewrite os_rename_eval; [|simpl; reflexivity|apply lookup_insert_eq].
    simpl.
    destruct (rename_allowed E _ temp new_filename _) eqn:Hr4; simpl.
    + intros [= Hr Hw]. left. rewrite <- Hr.
      unfold rename_allowed in Hr4. apply andb_true_iff in Hr4 as [Hr4 _]. eauto 10.
    + intros H. right. eapply Hfail; [| | |exact H].
      * reflexivity.
      * simpl. rewrite <- !app_assoc. reflexivity.
      * simpl. intros H'. not_in_list H'.
  - (* no title *)
    intros H. right. eapply Hfail; [| | |exact H].
    + reflexivity.
    + simpl. rewrite <- !app_assoc. reflexivity.
    + simpl. intros H'. not_in_list H'.
  - (* the oracle raised APIError *)
    intros H. right. eapply Hfail; [| | |exact H].
    + reflexivity.
    + simpl. rewrite <- !app_assoc. reflexivity.
    + simpl. intros H'. not_in_list H'.
  - (* the call raised another exception *)
    intros H. right. eapply Hfail; [| | |exact H].
    + reflexivity.
    + simpl. rewrite <- !app_assoc. reflexivity.
    + simpl. intros H'. not_in_list H'.
Qed.
(** When every step is let through, the repair ends on a name that was free:
    it never renames onto an existing file. *)
Lemma repair_succeeds original w d c t :
  let ext := PyStr.splitext_ext original in
  let temp := "temp_retry_" +:+ uuid4_hex8 E (tick w) +:+ ext in
  gemini_client E = true ->
  images w = Some d -> d !! original = Some c ->
  rename_allowed E d original temp (S (tick w)) = true ->
  image_open_ok E (2 + tick w) = true ->
  describe_image E (3 + tick w) = Answer (Some t) -> t <> "" ->
  rename_ok E (4 + tick w) = true ->
  exists new_filename w',
    retry_failed_file_renamer E original w = (Return true, w')
    /\ (<[temp := c]> (delete original d)) !! new_filename = None
    /\ images w' = Some (<[new_filename := c]>
                           (delete temp (<[temp := c]> (delete original d)))).
Proof.
  intros ext temp Hc Hd Ho Hr1 Hopen Hrep Ht Hr4. simpl in Hopen, Hrep, Hr4.
  unfold retry_failed_file_renamer. rewrite Hc. simpl.
  unfold bind at 1. unfold log_message at 1, emit at 1.
  unfold bind at 1. unfold instant at 1. simpl.
  fold ext. fold temp.
  unfold try_except. unfold bind at 1.
  erewrite os_rename_eval; [|simpl; exact Hd|exact Ho].
  simpl. rewrite Hr1.
  unfold bind at 1.
  erewrite image_open_eval; [|simpl; reflexivity|apply lookup_insert_eq].
  simpl. rewrite Hopen. run_monad. rewrite Hrep. simpl.
  destruct t as [|ch t]; [done|].
  match goal with |- context [free_name ?f ?k ?b ?e ?n ?W] =>
    pose proof (free_name_is_free W b e) as Hfree;
    change (search_fuel W) with f in Hfree;
    set (new_filename := free_name f k b e n W) in *
  end.
  unfold path_exists in Hfree. simpl in Hfree.
  erewrite os_rename_eval; [|simpl; reflexivity|apply lookup_insert_eq].
  unfold rename_allowed. simpl. rewrite Hr4, Hfree. simpl.
  exists new_filename. eexists. split; [reflexivity|]. split; [|done].
  by apply bool_decide_eq_false_1, eq_None_not_Some in Hfree.
Qed.
End Repair.

(* ===================================================================== *)
(** ** Skipped entries                                                     *)
(* ===================================================================== *)

(** C5, as the code has it: take an entry whose name or whose extension
    equals, up to case, an entry of the [Exclusions] list of the map.  If it
    is a file, the iteration skips it: it returns the locals unchanged and
    adds nothing to the trace but the "Excluded" log line (nothing at all
    for the configuration file, which is passed over before the check); it
    moves nothing, asks the oracle nothing and leaves the map file alone.
    If it is a directory the exclusion list is not consulted: the archive
    and the folders destination are passed over, and any other directory is
    moved to the folders destination and counted, or the failure of the move
    is logged. *)
Theorem excluded_file_is_skipped E pa cutoff ext_map existing item l w x :
  x ∈ default [] (dict_get "Exclusions" ext_map) ->
  PyStr.lower (name item) = PyStr.lower x
    \/ PyStr.lower (PyStr.suffix (name item)) = PyStr.lower x ->
  exists r w',
    process_item E pa cutoff (exclusions_of ext_map) existing item l w = (r, w')
    /\ map_file w' = map_file w /\ images w' = images w
    /\ if is_dir item then
         if String.eqb (name item) ARCHIVE_DIR_name
            || String.eqb (name item) FOLDERS_DEST_DIR_name
         then r = Return l /\ w' = w
         else if move_ok E (tick w) then
           r = Return {| EXT_MAP := EXT_MAP l;
                         files_processed := files_processed l;
                         folders_processed := S (folders_processed l) |}
           /\ added w w' = [Move (name item) [FOLDERS_DEST_DIR_name; name item];
                            Log (MsgFolderMoved (name item))]
         else
           r = Return l /\ added w w' = [Log (MsgFolderMoveError (name item))]
       else
         r = Return l
         /\ tick w' = tick w
         /\ added w w' = (if String.eqb (name item) CONFIG_FILE_name then []
                          else [Log (MsgExcluded (name item))]).
Proof.
  intros Hx Hm. unfold process_item. destruct (is_dir item).
  - destruct (_ || _).
    { exists (Return l), w. done. }
    unfold shutil_move. run_monad.
    destruct (move_ok E (tick w)); simpl; eexists _, _; (split; [reflexivity|]);
      (split; [done|]); (split; [done|]); (split; [done|]);
      (erewrite added_app; [|reflexivity|simpl; rewrite <- ?app_assoc; reflexivity]);
      done.
  - destruct (String.eqb (name item) CONFIG_FILE_name).
    { exists (Return l), w. repeat split; try done. unfold added. by rewrite drop_all. }
    assert (Hex : PyStr.mem (PyStr.lower (name item)) (exclusions_of ext_map)
                  || PyStr.mem (PyStr.lower (PyStr.suffix (name item)))
                       (exclusions_of ext_map) = true).
    { apply orb_true_iff. unfold exclusions_of.
      destruct Hm as [Hm|Hm]; [left|right]; apply mem_true; rewrite Hm;
        by apply list_elem_of_fmap_2. }
    rewrite Hex. run_monad. eexists _, _. split; [reflexivity|].
    repeat split; try done. unfold added. simpl. by rewrite drop_app_length.
Qed.

(** A file named in capitals is excluded by the entry [README.md] of the
    default map. *)
Lemma excluded_file_is_skipped_witness :
  let item := file "README.MD" 0 in
  let l := initial default_map in
  let w := start None in
  exists r w',
    process_item empty_env false 0 (exclusions_of default_map) [] item l w = (r, w')
    /\ map_file w' = map_file w /\ images w' = images w
    /\ r = Return l
    /\ tick w' = tick w
    /\ added w w' = [Log (MsgExcluded "README.MD")].
Proof.
  intros item l w.
  apply (excluded_file_is_skipped empty_env false 0 default_map [] item l w "README.md").
  - simpl. set_solver.
  - left. reflexivity.
Defined.

(** C5 as stated fails on directories: they are relocated before the
    exclusion check is reached, whatever their name. *)
Lemma excluded_folder_is_moved :
  let run := organize_downloads excluded_folder_env false (start None) in
  let exclusion_list := map PyStr.lower default_exclusions in
  dict_get "Exclusions" default_map = Some default_exclusions
  /\ PyStr.mem (PyStr.lower "Desktop.ini") exclusion_list = true
  /\ PyStr.mem (PyStr.lower (PyStr.suffix "old.temp")) exclusion_list = true
  /\ moves_of "Desktop.ini" (trace (snd run)) = [["Folders"; "Desktop.ini"]]
  /\ moves_of "old.temp" (trace (snd run)) = [["Folders"; "old.temp"]]
  /\ last (trace (snd run)) = Some (Log (MsgSortingComplete 0 2)).
Proof. vm_compute. repeat split; reflexivity. Qed.

(** The time gate in the terms the code compares, the local datetimes of
    the run and of the last modification.  With time-gating on, a file
    modified less than 24 hours of the local clock before the run is left
    alone by the iteration (no move, no oracle call; the iteration ends
    normally, or in the exception of a failed [stat]); with the process-all
    flag the modification time and the cutoff play no part, and a file that
    is neither the configuration file nor excluded goes on to
    classification. *)
Lemma time_gate E excl existing item l w :
  is_dir item = false ->
  ((now E - mtime item < DAY)%Z ->
     exists r w',
       process_item E false (now E - DAY) excl existing item l w = (r, w')
       /\ (r = Return l \/ r = Raise OtherException)
       /\ (added w w' = [] \/ added w w' = [Log (MsgExcluded (name item))]
           \/ added w w' = [Log (MsgRecent (name item))]))
  /\ (forall t cutoff,
        process_item E true cutoff excl existing (touch t item) l w
        = process_item E true (now E - DAY) excl existing item l w)
  /\ (String.eqb (name item) CONFIG_FILE_name = false ->
      PyStr.mem (PyStr.lower (name item)) excl = false ->
      PyStr.mem (PyStr.lower (PyStr.suffix (name item))) excl = false ->
      process_item E true (now E - DAY) excl existing item l w
      = classify_and_move E existing item l w).
Proof.
  intros Hf. split; [|split].
  - intros Hrecent. unfold process_item. rewrite Hf.
    destruct (String.eqb (name item) CONFIG_FILE_name).
    { exists (Return l), w. split; [done|]. split; [by left|]. left.
      unfold added. by rewrite drop_all. }
    destruct (_ || _).
    { run_monad. eexists _, _. split; [reflexivity|]. split; [by left|].
      right. left. unfold added. simpl. by rewrite drop_app_length. }
    simpl. run_monad.
    destruct (stat_ok E (tick w)); simpl.
    + assert (Hge : (now E - DAY <=? mtime item)%Z = true) by (apply Z.leb_le; lia).
      rewrite Hge. simpl. eexists _, _. split; [reflexivity|]. split; [by left|].
      right. right. unfold added. simpl. by rewrite drop_app_length.
    + eexists _, _. split; [reflexivity|]. split; [by right|]. left.
      unfold added. simpl. by rewrite drop_all.
  - intros t cutoff. unfold process_item, touch. simpl. reflexivity.
  - intros Hc H1 H2. unfold process_item. by rewrite Hf, Hc, H1, H2.
Qed.

(** C6, on a run that spans a change of the local clock: the zone moves its
    clocks forward by one hour, the file was modified one hour before that
    and the run starts 23 hours and a half after the modification.  The
    datetimes the gate compares are 24 hours and a half apart, so with
    time-gating on the file, modified less than 24 hours before the start of
    the run, is not skipped: it is moved to [Documents] and counted. *)
Theorem time_gate_counts_wall_clock_hours :
  let item := file "report.pdf" (local_time summer_time modified_at) in
  let run := organize_downloads clock_change_env false (start None) in
  (0 < started_at - modified_at < DAY)%Z
  /\ downloads clock_change_env = [item]
  /\ now clock_change_env = local_time summer_time started_at
  /\ (now clock_change_env - mtime item = DAY + HOUR / 2)%Z
  /\ count (fun e => match e with Log (MsgRecent _) => true | _ => false end)
       (trace (snd run)) = 0%nat
  /\ moves_of "report.pdf" (trace (snd run)) = [["Documents"; "report.pdf"]]
  /\ fst run = Return 1%nat.
Proof. vm_compute. repeat split; reflexivity. Qed.

(* ===================================================================== *)
(** ** Rule-based classification                                           *)
(* ===================================================================== *)

(** C3, as the code has it: for a file whose extension is in the category
    map the iteration never asks the extension agent; when the matching
    category is not [Code] it asks the oracle nothing at all, and when it is
    [Code] the only request it can make is the content analysis of that
    file. *)
Theorem mapped_extension_is_not_escalated E pa cutoff excl existing item l w category :
  is_dir item = false ->
  rule_lookup (PyStr.lower (PyStr.suffix (name item))) (EXT_MAP l) = Some category ->
  let w' := snd (process_item E pa cutoff excl existing item l w) in
  count is_ask_extension (added w w') = 0%nat
  /\ (category <> "Code" -> count is_agent (added w w') = 0%nat)
  /\ Forall (fun e => is_agent e = true -> e = Agent (AskCode (name item))) (added w w').
Proof.
  intros _ Hl w'. split; [|split].
  - apply (emits_count_0 (fun e => is_ask_extension e = false)); [done|].
    eapply keeps_run; [|apply surjective_pairing].
    assert (HP : only_agents (fun e => is_ask_extension e = false)).
    { intros e He. by destruct e as [| | |[]| | | |]. }
    apply keeps_process_item; [done|]. by eapply keeps_classify_mapped.
  - intros Hne. apply (emits_count_0 (fun e => is_agent e = false)); [done|].
    eapply keeps_run; [|apply surjective_pairing].
    assert (HP : only_agents (fun e => is_agent e = false)) by (by intros e He).
    apply keeps_process_item; [done|]. by eapply keeps_classify_mapped.
  - apply emits_added. eapply keeps_run; [|apply surjective_pairing].
    assert (HP : only_agents
                   (fun e => is_agent e = true -> e = Agent (AskCode (name item)))).
    { intros e He Ht. congruence. }
    apply keeps_process_item; [done|]. by eapply keeps_classify_mapped.
Qed.

(** A PDF is sorted into [Documents] without any request to the oracle. *)
Lemma mapped_extension_is_not_escalated_witness :
  let item := file "report.pdf" 0 in
  let w' := snd (process_item pdf_env true 0 [] [] item (initial default_map)
                   (start None)) in
  count is_ask_extension (added (start None) w') = 0%nat
  /\ ("Documents" <> "Code" -> count is_agent (added (start None) w') = 0%nat)
  /\ Forall (fun e => is_agent e = true -> e = Agent (AskCode (name item)))
       (added (start None) w').
Proof.
  apply (mapped_extension_is_not_escalated pdf_env true 0 [] []
           (file "report.pdf" 0) (initial default_map) (start None) "Documents");
    reflexivity.
Defined.

(** C3 as stated fails on code files: [.py] is in the map, and the run asks
    the oracle to analyse the content of the file. *)
Lemma code_file_invokes_oracle :
  let item := file "a.py" 0 in
  let run := organize_downloads code_env false (start None) in
  is_dir item = false
  /\ rule_lookup (PyStr.lower (PyStr.suffix (name item))) default_map = Some "Code"
  /\ filter (fun e => is_agent e = true) (trace (snd run)) = [Agent (AskCode "a.py")]
  /\ moves_of "a.py" (trace (snd run)) = [["Code_Projects"; "Web_Scraper"; "a.py"]].
Proof. vm_compute. repeat split; reflexivity. Qed.

(* ===================================================================== *)
(** ** The outcome of a sorting run                                        *)
(* ===================================================================== *)



(* ===================================================================== *)
(** ** Recording a learned mapping                                         *)
(* ===================================================================== *)

(** C7, as the code has it: the record operation keeps the characters of
    the category name that are word characters, blanks or hyphens and turns
    each space into an underscore (so no space is left, while tabs and other
    blanks stay); it lowercases the extension; it appends the extension to
    the list of that category only when it is not in it yet, leaves every
    other category alone and creates no duplicate; recording the same pair
    again changes neither the map nor the world. *)
Theorem record_normalizes_and_is_idempotent E m ext f w :
  exists m1 w1,
    update_extension_map E m ext f w = (Return m1, w1)
    /\ (forall c, c ∈ chars (safe_name f) -> PyStr.kept c = true /\ c ≠ " "%char)
    /\ (let old := default [] (dict_get (safe_name f) m) in
        dict_get (safe_name f) m1 =
          Some (if PyStr.mem (PyStr.lower ext) old then old
                else old ++ [PyStr.lower ext])%list
        /\ (NoDup old -> forall l, dict_get (safe_name f) m1 = Some l -> NoDup l))
    /\ (forall k, k ≠ safe_name f -> dict_get k m1 = dict_get k m)
    /\ update_extension_map E m1 ext f w1 = (Return m1, w1).
Proof.
  destruct (update_extension_map_returns E m ext f w) as (m1 & w1 & Hr & Hg & Ho & _).
  exists m1, w1. split; [done|]. split; [apply safe_name_chars|].
  split; [|split; [done|]].
  - split; [done|]. intros Hnd l. rewrite Hg. intros [= <-].
    simpl. destruct (PyStr.mem _ _) eqn:Hm; [done|].
    apply NoDup_app. split; [done|]. split; [|apply NoDup_singleton].
    intros x Hx [->|[]%elem_of_nil]%elem_of_cons. apply mem_false in Hm. done.
  - destruct (update_extension_map_returns E m1 ext f w1) as (m2 & w2 & Hr2 & _ & _ & Hid).
    rewrite Hr2.
    assert (Hmem : PyStr.mem (PyStr.lower ext) (default [] (dict_get (safe_name f) m1))
                   = true).
    { rewrite Hg. simpl.
      destruct (PyStr.mem (PyStr.lower ext) (default [] (dict_get (safe_name f) m)))
        eqn:Hm; [exact Hm | apply mem_app_self]. }
    by destruct (Hid Hmem) as [-> ->].
Qed.

(** C7 as stated fails on the character class: a tab is outside
    [A-Za-z0-9_- ] and the code keeps it. *)
Lemma tab_survives_normalization :
  let f := String "A" (String TAB "b") in
  safe_name f = f /\ spec_safe_name f = "Ab"
  /\ fst (update_extension_map empty_env [] ".X" f (start None)) = Return [(f, [".x"])].
Proof. vm_compute. repeat split; reflexivity. Qed.

Lemma update_unwritable E m ext f w :
  rule_lookup (PyStr.lower ext) m = None ->
  write_ok E (tick w) = false ->
  exists w1,
    update_extension_map E m ext f w = (Return (recorded m ext f), w1)
    /\ map_file w1 = (if write_opens E (tick w) then Unreadable else map_file w)
    /\ added w w1 = [Log (MsgMapUpdated (PyStr.lower ext) (safe_name f));
                     Log MsgMapWriteFatal].
Proof.
  intros Hn Hw. unfold update_extension_map, recorded.
  assert (Hm : PyStr.mem (PyStr.lower ext)
                 (default [] (dict_get (safe_name f)
                    (if negb (dict_has (safe_name f) m)
                     then dict_set (safe_name f) [] m else m))) = false).
  { destruct (dict_has (safe_name f) m) eqn:Hhas; simpl.
    - apply dict_has_get in Hhas as [old Hold]. rewrite Hold. simpl.
      by eapply rule_lookup_none.
    - by rewrite dict_get_set_eq. }
  rewrite Hm. simpl. run_monad. rewrite Hw. simpl.
  destruct (write_opens E (tick w)); simpl.
  all: eexists; split; [reflexivity|]; split; [done|].
  all: erewrite added_app; [|reflexivity|simpl; rewrite <- ?app_assoc; reflexivity].
  all: done.
Qed.

Lemma recorded_holds_pair m ext f :
  rule_lookup (PyStr.lower ext) m = None ->
  exists old, dict_get (safe_name f) (recorded m ext f) = Some (old ++ [PyStr.lower ext])%list.
Proof.
  intros Hn. unfold recorded.
  destruct (dict_has (safe_name f) m) eqn:Hhas; simpl.
  - apply dict_has_get in Hhas as [old Hold]. rewrite Hold. simpl.
    rewrite (rule_lookup_none _ _ _ _ Hn Hold). simpl.
    exists old. apply dict_get_set_eq.
  - rewrite dict_get_set_eq. simpl. exists []. apply dict_get_set_eq.
Qed.

(** The steps 3 to 6 of an iteration on a file that the rules place in a
    category other than [Code]. *)
Lemma classify_mapped_eval E existing item l w category :
  rule_lookup (PyStr.lower (PyStr.suffix (name item))) (EXT_MAP l) = Some category ->
  category <> "Code" ->
  exists r w',
    classify_and_move E existing item l w = (r, w')
    /\ map_file w' = map_file w
    /\ if String.eqb category "" then
         r = Return l /\ added w w' = [Log (MsgProcessing (name item))]
       else if mkdir_ok E (tick w) then
         if move_ok E (S (tick w)) then
           r = Return {| EXT_MAP := EXT_MAP l;
                         files_processed := S (files_processed l);
                         folders_processed := folders_processed l |}
           /\ added w w' = [Log (MsgProcessing (name item)); Mkdir [category];
                            Move (name item) [category; name item];
                            Log (MsgMoved (name item) category)]
         else
           r = Return l
           /\ added w w' = [Log (MsgProcessing (name item)); Mkdir [category];
                            Log (MsgMoveError (name item))]
       else
         r = Raise OtherException
         /\ added w w' = [Log (MsgProcessing (name item))].
Proof.
  intros Hl Hcode. unfold classify_and_move. rewrite Hl.
  apply String.eqb_neq in Hcode. rewrite Hcode.
  unfold final_move. destruct category as [|c s].
  { run_monad. eexists _, _. split; [reflexivity|]. split; [done|].
    erewrite added_app; [|reflexivity|simpl; rewrite <- ?app_assoc; reflexivity].
    done. }
  change (String.eqb (String c s) "") with false. cbv iota.
  run_monad.
  destruct (mkdir_ok E (tick w)); simpl.
  - destruct (move_ok E (S (tick w))); simpl;
      eexists _, _; (split; [reflexivity|]); (split; [done|]);
      (erewrite added_app; [|reflexivity|simpl; rewrite <- ?app_assoc; reflexivity]);
      done.
  - eexists _, _. split; [reflexivity|]. split; [done|].
    erewrite added_app; [|reflexivity|simpl; rewrite <- ?app_assoc; reflexivity].
    done.
Qed.

Lemma added_same_trace w0 w w' : trace w0 = trace w -> added w0 w' = added w w'.
Proof. intros H. unfold added. by rewrite H. Qed.

Lemma added_split w w1 w' t1 t2 :
  trace w1 = (trace w ++ t1)%list -> trace w' = (trace w1 ++ t2)%list ->
  added w w' = (added w w1 ++ added w1 w')%list.
Proof.
  intros H1 H2.
  rewrite (added_app w (trace w) (t1 ++ t2) w'), (added_app w (trace w) t1 w1),
    (added_app w1 (trace w1) t2 w'); try done.
  by rewrite H2, H1, app_assoc.
Qed.

Section Reuse.
Variable E : Env.
Variables (pa : bool) (cutoff : Z) (excl existing : list string).
Variables (ext category : string).
Hypothesis Hcode : category <> "Code".

(** An iteration that returns, on an admitted file of a mapped extension,
    has announced the file, created the category and tried the move. *)
Lemma process_item_filed item l w l' w' :
  category <> "" ->
  is_dir item = false ->
  admitted pa cutoff excl item = true ->
  rule_lookup (PyStr.lower (PyStr.suffix (name item))) (EXT_MAP l) = Some category ->
  process_item E pa cutoff excl existing item l w = (Return l', w') ->
  filed item category (added w w').
Proof.
  intros Hne Hf Ha Hl. unfold admitted in Ha. rewrite Hf in Ha.
  apply andb_true_iff in Ha as [Ha Ht]. apply andb_true_iff in Ha as [Hc Hx].
  apply negb_true_iff in Hc, Hx.
  unfold process_item. rewrite Hf, Hc, Hx.
  assert (Hgo : forall w0, trace w0 = trace w ->
            classify_and_move E existing item l w0 = (Return l', w') ->
            filed item category (added w w')).
  { intros w0 Hw0 Hrun.
    destruct (classify_mapped_eval E existing item l w0 category Hl Hcode)
      as (r & w1 & Hr & _ & Hcase).
    rewrite Hrun in Hr. injection Hr as <- <-.
    apply String.eqb_neq in Hne. rewrite Hne in Hcase.
    rewrite (added_same_trace w0 w) in Hcase by done.
    destruct (mkdir_ok E (tick w0)); [|by destruct Hcase].
    destruct (move_ok E (S (tick w0))); destruct Hcase as [_ ->]; unfold filed;
      repeat split; try (left; set_solver); try (right; set_solver); set_solver. }
  destruct pa; simpl in *.
  - by apply Hgo.
  - apply negb_true_iff in Ht. run_monad.
    destruct (stat_ok E (tick w)); simpl; [|done].
    rewrite Ht. by apply Hgo.
Qed.

Lemma keeps_process_item_not_about item l :
  rule_lookup ext (EXT_MAP l) = Some category ->
  keeps (asks_not_about ext) (process_item E pa cutoff excl existing item l).
Proof.
  intros H.
  assert (HP : only_agents (asks_not_about ext)).
  { intros ev Hev. by destruct ev as [| | |[]| | | |]. }
  apply keeps_process_item; [done|].
  destruct (rule_lookup (PyStr.lower (PyStr.suffix (name item))) (EXT_MAP l))
    as [c|] eqn:Hl.
  - eapply keeps_classify_mapped; [done..|]. intros -> Heq. simpl in Heq.
    rewrite Heq in Hl. congruence.
  - apply keeps_classify_unmapped; [done..|]. intros ex Heq. simpl in Heq.
    rewrite Heq in Hl. congruence.
Qed.

Lemma keeps_for_each_not_about items l :
  rule_lookup ext (EXT_MAP l) = Some category ->
  keeps (asks_not_about ext) (for_each_item E pa cutoff excl existing items l).
Proof.
  revert l. induction items as [|item rest IH]; intros l H; simpl.
  - apply keeps_ret.
  - apply (keeps_bind_value _ _ _
             (fun l' => rule_lookup ext (EXT_MAP l') = Some category)).
    + by apply keeps_process_item_not_about.
    + intros w. by apply process_item_still_mapped.
    + intros l' Hl'. by apply IH.
Qed.

(** A loop that returns has filed every admitted file of the extension. *)
Lemma for_each_item_filed items :
  category <> "" ->
  forall l w l' w',
  rule_lookup ext (EXT_MAP l) = Some category ->
  for_each_item E pa cutoff excl existing items l w = (Return l', w') ->
  forall next, next ∈ items -> is_dir next = false ->
    admitted pa cutoff excl next = true ->
    PyStr.lower (PyStr.suffix (name next)) = ext ->
    filed next category (added w w').
Proof.
  intros Hne. induction items as [|item rest IH]; intros l w l' w' Hl Hrun next Hin.
  { by apply elem_of_nil in Hin. }
  simpl in Hrun. unfold bind in Hrun.
  destruct (process_item E pa cutoff excl existing item l w) as [[l1|e] w1] eqn:H1;
    [|done].
  pose proof (process_item_still_mapped E ext category pa cutoff excl existing item l w Hl)
    as Hs. unfold wp in Hs. rewrite H1 in Hs. simpl in Hs.
  destruct (keeps_run _ _ _ _ _ (keeps_process_item_not_about item l Hl) H1)
    as (t1 & Ht1 & _).
  destruct (keeps_run _ _ _ _ _ (keeps_for_each_not_about rest l1 Hs) Hrun)
    as (t2 & Ht2 & _).
  rewrite (added_split w w1 w' t1 t2 Ht1 Ht2).
  intros Hf Ha Hext.
  apply elem_of_cons in Hin as [->|Hin].
  - assert (F : filed item category (added w w1)).
    { eapply process_item_filed; [done..| |exact H1]. by rewrite Hext. }
    destruct F as (F1 & F2 & F3). unfold filed.
    rewrite !elem_of_app. tauto.
  - destruct (IH l1 w1 l' w' Hs Hrun next Hin Hf Ha Hext) as (F1 & F2 & F3).
    unfold filed. rewrite !elem_of_app. tauto.
Qed.
End Reuse.

(** C10, as the code has it: when the oracle's answer for an unmapped
    extension is recorded and the map file cannot be written, the record
    operation logs the failure and still returns the map with the new pair
    under the normalised category; the file on disk is as before, or cut
    short when the failure came after it was opened.  The iteration goes on
    to move the file and hands that map to the rest of the loop.  Whatever
    entries the rest of the loop meets, it never asks the extension agent
    about that extension again; and unless the learned category is [Code],
    it makes no request about any file of that extension, and a loop that
    returns has announced every admitted file of that extension, created the
    category (if its name is not empty) and tried to move the file into
    it. *)
Theorem unpersisted_mapping_is_reused E pa cutoff excl existing item l w r w2 :
  let ext := PyStr.lower (PyStr.suffix (name item)) in
  let w1 := set_trace (trace w ++ [Log (MsgProcessing (name item))]) w in
  let folder := suggested_folder_name r in
  let category := safe_name folder in
  rule_lookup ext (EXT_MAP l) = None ->
  get_folder_recommendation E ext existing w1 = (Return (Some r), w2) ->
  PyStr.truthy folder = true ->
  write_ok E (tick w2) = false ->
  exists m1 w3,
    update_extension_map E (EXT_MAP l) ext folder w2 = (Return m1, w3)
    /\ added w2 w3 = [Log (MsgMapUpdated ext category); Log MsgMapWriteFatal]
    /\ map_file w3 = (if write_opens E (tick w2) then Unreadable else map_file w2)
    /\ (exists old, dict_get category m1 = Some (old ++ [ext])%list)
    /\ rule_lookup ext m1 = Some category
    /\ classify_and_move E existing item l w
       = final_move E item (Some (DestStr folder))
           {| EXT_MAP := m1; files_processed := files_processed l;
              folders_processed := folders_processed l |} w3
    /\ (forall l' w', classify_and_move E existing item l w = (Return l', w') ->
        EXT_MAP l' = m1)
    /\ forall later l1 w4,
         EXT_MAP l1 = m1 ->
         let run := for_each_item E pa cutoff excl existing later l1 w4 in
         count (is_ask_extension_of ext) (added w4 (snd run)) = 0%nat
         /\ (category <> "Code" ->
             Forall (asks_not_about ext) (added w4 (snd run))
             /\ (category <> "" ->
                 forall l5, fst run = Return l5 ->
                 forall next, next ∈ later -> is_dir next = false ->
                   admitted pa cutoff excl next = true ->
                   PyStr.lower (PyStr.suffix (name next)) = ext ->
                   filed next category (added w4 (snd run)))).
Proof.
  intros ext w1 folder category Hl Hr Ht Hw.
  assert (Hlow : PyStr.lower ext = ext) by apply lower_idem.
  destruct (update_unwritable E (EXT_MAP l) ext folder w2)
    as (w3 & Hu & Hf & Hadd); [by rewrite Hlow | done |].
  assert (Hnew : rule_lookup ext (recorded (EXT_MAP l) ext folder) = Some category).
  { rewrite <- Hlow at 1. apply rule_lookup_recorded_new. by rewrite Hlow. }
  exists (recorded (EXT_MAP l) ext folder), w3.
  split; [done|]. split; [by rewrite Hlow in Hadd|]. split; [done|].
  split.
  { destruct (recorded_holds_pair (EXT_MAP l) ext folder) as [old Hold];
      [by rewrite Hlow|].
    exists old. by rewrite Hlow in Hold. }
  split; [done|].
  assert (Hrun : classify_and_move E existing item l w
                 = final_move E item (Some (DestStr folder))
                     {| EXT_MAP := recorded (EXT_MAP l) ext folder;
                        files_processed := files_processed l;
                        folders_processed := folders_processed l |} w3).
  { unfold classify_and_move. fold ext. rewrite Hl.
    unfold bind at 1. unfold log_message, emit. fold w1.
    unfold bind at 1. rewrite Hr. fold folder. rewrite Ht.
    unfold bind at 1. by rewrite Hu. }
  split; [exact Hrun|]. split.
  - intros l' w' Hret. rewrite Hrun in Hret.
    match type of Hret with final_move E item ?d ?l0 w3 = _ =>
      pose proof (final_move_same_map E item d l0 w3) as Hs end.
    unfold wp in Hs. rewrite Hret in Hs. exact Hs.
  - intros later l1 w4 Hl1 run. rewrite <- Hl1 in Hnew. unfold run. split.
    + apply (emits_count_0 (fun e => is_ask_extension_of ext e = false)); [done|].
      eapply keeps_run; [|apply surjective_pairing].
      eapply keeps_for_each_mapped. exact Hnew.
    + intros Hcode. split.
      * apply emits_added. eapply keeps_run; [|apply surjective_pairing].
        by eapply keeps_for_each_not_about.
      * intros Hne l5 Hret next Hin Hd Ha Hext.
        eapply (for_each_item_filed E pa cutoff excl existing ext category Hcode later Hne
                  l1 w4 l5); try done.
        destruct (for_each_item _ _ _ _ _ _ _ _) as [r5 w5].
        simpl in *. by subst r5.
Qed.

(** The oracle files [.xyz] under "Blender Files"; the map cannot be saved;
    a later [bar.XYZ] is sorted into [Blender_Files] without the oracle. *)
Lemma unpersisted_mapping_is_reused_witness :
  let E := unwritable_env in
  let item := file "foo.xyz" 0 in
  let w := start None in
  let w2 := snd (get_folder_recommendation E ".xyz" []
                   (set_trace (trace w ++ [Log (MsgProcessing "foo.xyz")]) w)) in
  exists m1 w3,
    update_extension_map E default_map ".xyz" "Blender Files" w2 = (Return m1, w3)
    /\ added w2 w3 = [Log (MsgMapUpdated ".xyz" "Blender_Files"); Log MsgMapWriteFatal]
    /\ map_file w3 = (if write_opens E (tick w2) then Unreadable else map_file w2)
    /\ (exists old, dict_get "Blender_Files" m1 = Some (old ++ [".xyz"])%list)
    /\ rule_lookup ".xyz" m1 = Some "Blender_Files"
    /\ classify_and_move E [] item (initial default_map) w
       = final_move E item (Some (DestStr "Blender Files"))
           {| EXT_MAP := m1; files_processed := 0; folders_processed := 0 |} w3
    /\ (forall l' w', classify_and_move E [] item (initial default_map) w = (Return l', w') ->
        EXT_MAP l' = m1)
    /\ forall later l1 w4,
         EXT_MAP l1 = m1 ->
         let run := for_each_item E true 0 [] [] later l1 w4 in
         count (is_ask_extension_of ".xyz") (added w4 (snd run)) = 0%nat
         /\ ("Blender_Files" <> "Code" ->
             Forall (asks_not_about ".xyz") (added w4 (snd run))
             /\ ("Blender_Files" <> "" ->
                 forall l5, fst run = Return l5 ->
                 forall next, next ∈ later -> is_dir next = false ->
                   admitted true 0 [] next = true ->
                   PyStr.lower (PyStr.suffix (name next)) = ".xyz" ->
                   filed next "Blender_Files" (added w4 (snd run)))).
Proof.
  intros E item w w2.
  apply (unpersisted_mapping_is_reused E true 0 [] [] item (initial default_map) w
           {| suggested_folder_name := "Blender Files"; is_new_category := true |} w2);
    reflexivity.
Defined.

(** C10 as stated fails when the learned category is [Code]: [.rs] is
    recorded under [Code] (the write fails), and the later [lib.RS] is
    classified by the map as a code file, which sends its content to the
    oracle and files it where the oracle says. *)
Lemma learned_code_category_is_analysed :
  let run := organize_downloads code_learning_env true (start None) in
  rule_lookup ".rs" default_map = None
  /\ count (fun e => match e with Log MsgMapWriteFatal => true | _ => false end)
       (trace (snd run)) = 1%nat
  /\ map_file (snd run) = Absent
  /\ filter (fun e => is_agent e = true) (trace (snd run))
     = [Agent (AskExtension ".rs" (categories_of default_map));
        Agent (AskCode "lib.RS")]
  /\ moves_of "main.rs" (trace (snd run)) = [["Code"; "main.rs"]]
  /\ moves_of "lib.RS" (trace (snd run)) = [["Code_Projects"; "Rust_Tools"; "lib.RS"]]
  /\ fst run = Return 2%nat.
Proof. vm_compute. repeat split; reflexivity. Qed.

(* ===================================================================== *)
(** ** Escalation to the extension agent                                   *)
(* ===================================================================== *)

(** C8: for a file whose extension is not in the map, let the first [k]
    answers of the extension agent be API errors ([k] at most the retry
    limit) and the next one, if the limit is not reached, be something else.
    Then the agent is asked [k + 1] times, and never more than [MAX_RETRIES]
    times; it sleeps [RETRY_DELAY] seconds after each API error; an answer
    that is not an API error ends the attempts at once, with the
    recommendation if there is one and with nothing otherwise; and when
    nothing usable comes out (limit reached, other exception, empty folder
    name) the file goes to [Unsorted_Agent_Failed] with the map unchanged. *)
Theorem extension_agent_retries_then_falls_back E existing item l w k :
  let ext := PyStr.lower (PyStr.suffix (name item)) in
  let w1 := set_trace (trace w ++ [Log (MsgProcessing (name item))]) w in
  gemini_client E = true ->
  rule_lookup ext (EXT_MAP l) = None ->
  (k <= MAX_RETRIES)%nat ->
  (forall j, (j < k)%nat -> classify_extension E (tick w + j) = ApiFailure) ->
  ((k < MAX_RETRIES)%nat -> classify_extension E (tick w + k) <> ApiFailure) ->
  exists w2,
    get_folder_recommendation E ext existing w1
    = (Return (answer_after E (tick w) k), w2)
    /\ count is_ask_extension (added w1 w2) = Nat.min (S k) MAX_RETRIES
    /\ weight slept (added w1 w2) = (k * RETRY_DELAY)%nat
    /\ (usable (answer_after E (tick w) k) = false ->
        classify_and_move E existing item l w
        = final_move E item (Some (DestStr "Unsorted_Agent_Failed")) l w2).
Proof.
  intros ext w1 Hc Hl Hk Hfail Hlast.
  destruct (get_folder_recommendation_eval E ext existing w1 k Hc Hk Hfail Hlast)
    as (w2 & Hr & Hn & Hs & _).
  exists w2. split; [exact Hr|]. split; [exact Hn|]. split; [exact Hs|].
  intros Hu. by eapply classify_unmapped_eval.
Qed.

(** Three API errors in a row: three requests, thirty seconds of sleep, and
    the file goes to the fallback category. *)
Lemma extension_agent_retries_then_falls_back_witness :
  let E := api_down_env in
  let item := file "foo.xyz" 0 in
  let w := start None in
  let w1 := set_trace (trace w ++ [Log (MsgProcessing "foo.xyz")]) w in
  exists w2,
    get_folder_recommendation E ".xyz" [] w1 = (Return None, w2)
    /\ count is_ask_extension (added w1 w2) = 3%nat
    /\ weight slept (added w1 w2) = 30%nat
    /\ (usable None = false ->
        classify_and_move E [] item (initial default_map) w
        = final_move E item (Some (DestStr "Unsorted_Agent_Failed"))
            (initial default_map) w2).
Proof.
  intros E item w w1.
  apply (extension_agent_retries_then_falls_back E [] item (initial default_map) w 3).
  - reflexivity.
  - reflexivity.
  - unfold MAX_RETRIES. lia.
  - intros j _. reflexivity.
  - unfold MAX_RETRIES. lia.
Defined.

(* ===================================================================== *)
(** ** Repair of a single image                                            *)
(* ===================================================================== *)

(** C9: take a repair whose first rename, of the original file to its
    temporary name, went through.  Either every later step succeeds and the
    repair reports success; or it reports failure, and then the last thing
    it did was the rename back: if that rename was let through, the file is
    under its original name again with its content, the temporary name is
    free, the folder is exactly as before when the temporary name was fresh,
    and the fatal line is not logged; if it was refused, the fatal line is
    the last line logged and the file is still under its temporary name.
    Success needs the image to open, the oracle to answer with a non-empty
    title and the final rename to be let through, so any failure of these
    leads to the restoring branch. *)
Theorem repair_restores_original_name E original w d c :
  let ext := PyStr.splitext_ext original in
  let temp := "temp_retry_" +:+ uuid4_hex8 E (tick w) +:+ ext in
  gemini_client E = true ->
  images w = Some d ->
  d !! original = Some c ->
  rename_allowed E d original temp (S (tick w)) = true ->
  forall r w',
    retry_failed_file_renamer E original w = (r, w') ->
    (r = Return true /\
       image_open_ok E (2 + tick w) = true /\
       (exists t, describe_image E (3 + tick w) = Answer (Some t) /\ t <> "") /\
       rename_ok E (4 + tick w) = true)
    \/
    (r = Return false /\
       ((rename_ok E (pred (tick w')) = true /\
         images w' = Some (<[original := c]> (delete temp d)) /\
         (d !! temp = None -> images w' = images w) /\
         Log MsgRestoreFatal ∉ added w w')
        \/
        (rename_ok E (pred (tick w')) = false /\
         images w' = Some (<[temp := c]> (delete original d)) /\
         last (trace w') = Some (Log MsgRestoreFatal)))).
Proof.
  intros ext temp Hc Hd Ho Hr1 r w'. by apply retry_eval.
Qed.

(** The oracle raises [APIError] during the repair of [a.png]: the repair
    reports failure, the folder is as before and nothing fatal is logged. *)
Lemma repair_restores_original_name_witness :
  let run := retry_failed_file_renamer repair_env "a.png" (start (Some lone_image)) in
  fst run = Return false
  /\ images (snd run) = Some lone_image
  /\ Log MsgRestoreFatal ∉ added (start (Some lone_image)) (snd run).
Proof.
  intros run.
  destruct (repair_restores_original_name repair_env "a.png" (start (Some lone_image))
              lone_image 1%nat eq_refl eq_refl eq_refl eq_refl
              (fst run) (snd run) (surjective_pairing run))
    as [[Hr _]|[Hr [(_ & _ & Hi & Hn)|(Hk & _)]]].
  - discriminate Hr.
  - split; [exact Hr|]. split; [exact (Hi eq_refl) | exact Hn].
  - discriminate Hk.
Defined.

(* ===================================================================== *)
(** ** The batch renamer                                                   *)
(* ===================================================================== *)

(** The loop of the renamer stops because the files are exhausted, not
    because its fuel is: one more unit of fuel changes nothing. *)
Lemma batch_loop_fuel E use_delay all_files fuel file_index l w :
  (length all_files <= file_index + fuel)%nat ->
  batch_loop E (S fuel) use_delay all_files file_index l w
  = batch_loop E fuel use_delay all_files file_index l w.
Proof.
  revert file_index l w. induction fuel as [|fuel IH]; intros file_index l w Hlen.
  - simpl. destruct (file_index <? length all_files)%nat eqn:Hlt; [|done].
    apply Nat.ltb_lt in Hlt. lia.
  - change (batch_loop E (S (S fuel)) use_delay all_files file_index l w)
      with ((if (file_index <? length all_files)%nat then
               l <- process_batch E use_delay all_files file_index l ;;
               batch_loop E (S fuel) use_delay all_files (file_index + BATCH_SIZE) l
             else ret l) w).
    change (batch_loop E (S fuel) use_delay all_files file_index l w)
      with ((if (file_index <? length all_files)%nat then
               l <- process_batch E use_delay all_files file_index l ;;
               batch_loop E fuel use_delay all_files (file_index + BATCH_SIZE) l
             else ret l) w).
    destruct (file_index <? length all_files)%nat; [|done].
    unfold bind.
    destruct (process_batch E use_delay all_files file_index l w) as [[l1|e] w1];
      [|done].
    apply IH. unfold BATCH_SIZE. lia.
Qed.

(** C1, on an input where the derived name is taken: the folder holds
    [a.png] and [Cat_DESC.png], and the oracle titles [a.png] "Cat".  Where
    [os.rename] replaces its target the batch path renames [a.png] onto
    [Cat_DESC.png], whose former content is gone; where [os.rename] refuses
    an existing target the rename fails and [a.png] is queued.  In neither
    case is a counter appended.  The single-item repair, on the same input,
    produces [Cat_DESC_1.png]. *)
Theorem batch_rename_ignores_collision :
  let w := start (Some collision_images) in
  let replacing := execute_image_renamer (cat_env true) false w in
  let refusing := renamer_run (cat_env false) false collision_images w in
  let repair := retry_failed_file_renamer (cat_env true) "a.png" w in
  (fst replacing = Return 1%nat
   /\ image_at (snd replacing) "Cat_DESC.png" = Some 1%nat
   /\ image_at (snd replacing) "Cat_DESC_1.png" = None
   /\ image_total (snd replacing) = 1%nat)
  /\ (fst refusing
      = Return {| batch_processed_count := 0; failed_files_for_retry := ["a.png"] |}
      /\ image_at (snd refusing) "a.png" = Some 1%nat
      /\ image_at (snd refusing) "Cat_DESC.png" = Some 2%nat
      /\ image_at (snd refusing) "Cat_DESC_1.png" = None
      /\ image_total (snd refusing) = 2%nat)
  /\ (fst repair = Return true
      /\ image_at (snd repair) "Cat_DESC.png" = Some 2%nat
      /\ image_at (snd repair) "Cat_DESC_1.png" = Some 1%nat
      /\ image_total (snd repair) = 2%nat).
Proof. vm_compute. repeat split; reflexivity. Qed.

(** No run of the renamer ever makes the single-item request of the repair,
    whatever the oracle and the filesystem do. *)
Lemma renamer_makes_no_repair_call E use_delay w :
  count is_ask_image (added w (snd (execute_image_renamer E use_delay w))) = 0%nat.
Proof.
  apply (emits_count_0 (fun e => is_ask_image e = false)); [done|].
  eapply keeps_run; [|apply surjective_pairing].
  apply keeps_execute_image_renamer; [|done].
  intros e He. by destruct e as [| | |[]| | | |].
Qed.

(** C2, on an input where the batch oracle fails at every attempt: the loop
    ends with [a.png] in the retry queue, the renamer returns 0 without a
    single repair request, and [a.png] is still there under its name. *)
Theorem retry_queue_is_never_consumed :
  let w := start (Some lone_image) in
  let loop := renamer_run failing_batch_env true lone_image w in
  let run := execute_image_renamer failing_batch_env true w in
  fst loop = Return {| batch_processed_count := 0; failed_files_for_retry := ["a.png"] |}
  /\ fst run = Return 0%nat
  /\ count is_ask_image (trace (snd run)) = 0%nat
  /\ image_at (snd run) "a.png" = Some 1%nat
  /\ image_total (snd run) = 1%nat.
Proof. vm_compute. repeat split; reflexivity. Qed.

(** The scenario of twelve images: ten are renamed, the two of the second
    batch are queued, and the run ends without a repair request, both files
    still under their names. *)
Example twelve_images_two_batches :
  let w := start (Some twelve_images) in
  let loop := renamer_run twelve_env true twelve_images w in
  let run := execute_image_renamer twelve_env true w in
  fst loop
  = Return {| batch_processed_count := 10;
              failed_files_for_retry := ["img4.png"; "img8.png"] |}
  /\ fst run = Return 10%nat
  /\ count is_agent (trace (snd run)) = 4%nat
  /\ count is_ask_image (trace (snd run)) = 0%nat
  /\ image_at (snd run) "img4.png" = Some 4%nat
  /\ image_at (snd run) "img8.png" = Some 8%nat
  /\ image_total (snd run) = 12%nat.
Proof. vm_compute. repeat split; reflexivity. Qed.

(* ===================================================================== *)
(** ** Loading and saving the category map                                 *)
(* ===================================================================== *)

(** The map a run starts from is the stored one or the default one. *)
Lemma load_extension_map_result E w m w' :
  load_extension_map E w = (Return m, w') ->
  m = default_map \/ map_file w = Stored m.
Proof.
  unfold load_extension_map. run_monad.
  destruct (mkdir_ok E (tick w)); simpl; [|done].
  destruct (map_file w) as [| |m0]; simpl.
  - destruct (write_ok E (S (tick w))); [|destruct (write_opens E (S (tick w)))];
      simpl; intros [= <- <-]; by left.
  - destruct (read_ok E (S (tick w))); simpl; intros [= <- <-]; by left.
  - destruct (read_ok E (S (tick w))); simpl; intros [= <- <-]; [by right | by left].
Qed.

Lemma load_extension_map_returns E w :
  mkdir_ok E (tick w) = true ->
  exists m w', load_extension_map E w = (Return m, w').
Proof.
  intros Hmk. unfold load_extension_map. run_monad. rewrite Hmk. simpl.
  destruct (map_file w) as [| |m0]; simpl.
  - destruct (write_ok E (S (tick w))); [|destruct (write_opens E (S (tick w)))];
      simpl; eauto.
  - destruct (read_ok E (S (tick w))); simpl; eauto.
  - destruct (read_ok E (S (tick w))); simpl; eauto.
Qed.

(** X1: [load_extension_map] fails soft.  The only exception that escapes
    is that of the directory creation, which sits outside the [try].  When
    the archive directory can be created the call returns: what the map file
    holds, as it is, when the file can be read and parses; the default map
    when the file cannot be read or does not parse (the file is then left as
    it is); and the default map when there is no file.  The missing file is
    then created with the default map; when that write fails the file stays
    missing if it could not be opened, and is left empty or cut short, so
    unreadable, if the failure came after it was opened. *)
Theorem load_extension_map_fails_soft E w :
  if mkdir_ok E (tick w) then
    exists m w',
      load_extension_map E w = (Return m, w')
      /\ match map_file w with
         | Stored m0 =>
             map_file w' = Stored m0
             /\ m = (if read_ok E (S (tick w)) then m0 else default_map)
         | Unreadable => map_file w' = Unreadable /\ m = default_map
         | Absent =>
             m = default_map
             /\ map_file w'
                = (if write_ok E (S (tick w)) then Stored default_map
                   else if write_opens E (S (tick w)) then Unreadable else Absent)
         end
  else load_extension_map E w = (Raise OtherException, set_tick (S (tick w)) w).
Proof.
  unfold load_extension_map. run_monad.
  destruct (mkdir_ok E (tick w)); simpl; [|done].
  destruct (map_file w) as [| |m0] eqn:Hf; simpl.
  - destruct (write_ok E (S (tick w))); [|destruct (write_opens E (S (tick w)))];
      simpl; eexists _, _; (split; [reflexivity|]); simpl; by rewrite ?Hf.
  - destruct (read_ok E (S (tick w))); simpl; eexists _, _; (split; [reflexivity|]);
      simpl; by rewrite ?Hf.
  - destruct (read_ok E (S (tick w))); simpl; eexists _, _; (split; [reflexivity|]);
      simpl; by rewrite ?Hf.
Qed.

(** X2: the rule lookup returns the first category, in the order of the
    map, whose list holds the extension: it answers [c] exactly when the map
    splits into categories that do not hold the extension, then [c] with a
    list that holds it, then the rest; and it answers nothing exactly when no
    category holds the extension. *)
Theorem rule_lookup_first_match ext m :
  (forall c,
     rule_lookup ext m = Some c <->
     exists pre l post,
       m = (pre ++ (c, l) :: post)%list /\ ext ∈ l
       /\ Forall (fun kv => ext ∉ snd kv) pre)
  /\ (rule_lookup ext m = None <-> Forall (fun kv => ext ∉ snd kv) m).
Proof.
  split.
  - intros c. split.
    + revert c. induction m as [|[k v] m IH]; intros c; simpl; [done|].
      destruct (PyStr.mem ext v) eqn:Hm.
      * intros [= <-]. exists [], v, m. split; [done|].
        split; [by apply mem_true | constructor].
      * apply mem_false in Hm. intros H.
        destruct (IH c H) as (pre & l & post & -> & Hl & Hpre).
        exists ((k, v) :: pre), l, post. split; [done|]. split; [done|].
        by constructor.
    + intros (pre & l & post & -> & Hl & Hpre).
      induction Hpre as [|[k v] pre Hk _ IH]; simpl.
      * apply mem_true in Hl. by rewrite Hl.
      * simpl in Hk. apply mem_false in Hk. by rewrite Hk.
  - induction m as [|[k v] m IH]; simpl; [split; [by constructor|done]|].
    destruct (PyStr.mem ext v) eqn:Hm.
    + split; [done|]. intros H. apply Forall_cons in H as [H _].
      simpl in H. apply mem_true in Hm. done.
    + apply mem_false in Hm. rewrite IH. split.
      * intros H. by constructor.
      * intros H. by apply Forall_cons in H as [_ H].
Qed.

(** X3: what the record operation does to the disk.  A pair that is already
    in the map costs nothing: no log line, no write.  A new pair is announced
    and the whole map is written; when the write goes through the file holds
    exactly the map that is returned.  When it fails the failure is logged
    and the returned map has the pair all the same; the file is as before
    only if it could not be opened: a failure after [open] leaves it empty
    or cut short, and the map it held is lost. *)
Theorem update_extension_map_persists E m ext f w :
  exists m1 w1,
    update_extension_map E m ext f w = (Return m1, w1)
    /\ if PyStr.mem (PyStr.lower ext) (default [] (dict_get (safe_name f) m)) then
         m1 = m /\ w1 = w
       else
         dict_get (safe_name f) m1
         = Some (default [] (dict_get (safe_name f) m) ++ [PyStr.lower ext])%list
         /\ if write_ok E (tick w) then
              map_file w1 = Stored m1
              /\ added w w1 = [Log (MsgMapUpdated (PyStr.lower ext) (safe_name f));
                               WriteMap m1]
            else
              map_file w1
              = (if write_opens E (tick w) then Unreadable else map_file w)
              /\ added w w1 = [Log (MsgMapUpdated (PyStr.lower ext) (safe_name f));
                               Log MsgMapWriteFatal].
Proof.
  destruct (update_extension_map_returns E m ext f w) as (m1 & w1 & Hr & Hg & _ & Hid).
  exists m1, w1. split; [exact Hr|].
  destruct (PyStr.mem (PyStr.lower ext) (default [] (dict_get (safe_name f) m))) eqn:Hm.
  { by apply Hid. }
  cbv zeta in Hg. rewrite Hm in Hg.
  split; [exact Hg|].
  revert Hr. unfold update_extension_map.
  assert (Hm' : PyStr.mem (PyStr.lower ext)
                 (default [] (dict_get (safe_name f)
                    (if negb (dict_has (safe_name f) m)
                     then dict_set (safe_name f) [] m else m))) = false).
  { destruct (dict_has (safe_name f) m) eqn:Hhas; simpl; [done|].
    by rewrite dict_get_set_eq. }
  rewrite Hm'. simpl. run_monad.
  destruct (write_ok E (tick w)); [|destruct (write_opens E (tick w))];
    simpl; intros [= <- <-]; simpl;
    (split; [done|]);
    (erewrite added_app; [|reflexivity|simpl; rewrite <- ?app_assoc; reflexivity]);
    done.
Qed.

(* ===================================================================== *)
(** ** What a sorting run moves                                            *)
(* ===================================================================== *)

(** A sorting run, seen from the map it has loaded: what holds of the
    events outside the loop and of the loop, for every map, holds of the
    run, for the map it started from. *)
Lemma organize_downloads_emits E pa w (P : ExtMap -> event -> Prop) :
  (forall m e, frame_event e -> P m e) ->
  (forall m l,
     keeps (P m)
       (for_each_item E pa (now E - DAY) (exclusions_of m) (categories_of m)
          (downloads E) l)) ->
  exists m0,
    (m0 = default_map \/ map_file w = Stored m0)
    /\ Forall (P m0) (added w (snd (organize_downloads E pa w))).
Proof.
  intros Hframe Hloop. unfold organize_downloads.
  unfold bind at 1. unfold log_message at 1, emit at 1.
  set (w1 := set_trace (trace w ++ [Log MsgStartSorting]) w).
  assert (H1 : forall m0, emits (P m0) w w1).
  { intros m0. exists [Log MsgStartSorting]. split; [done|].
    constructor; [by apply Hframe | constructor]. }
  destruct (negb (downloads_exists E)).
  { exists default_map. split; [by left|]. apply emits_added.
    eapply emits_trans; [apply H1|].
    eapply keeps_run; [|apply surjective_pairing]. keeps_go. by apply Hframe. }
  unfold bind at 1.
  destruct (load_extension_map E w1) as [[m|e] w2] eqn:Hload.
  - exists m. split.
    { apply load_extension_map_result in Hload. exact Hload. }
    apply emits_added. eapply emits_trans; [apply H1|].
    eapply emits_trans.
    { eapply keeps_run; [|exact Hload].
      eapply keeps_mono; [|apply load_extension_map_footprint].
      intros e He. apply Hframe. by destruct e as [[]| | |[]| | | |]. }
    eapply keeps_run; [|apply surjective_pairing].
    apply keeps_bind; [unfold mkdir; keeps_go; by apply Hframe|]. intros _.
    apply keeps_bind; [unfold mkdir; keeps_go; by apply Hframe|]. intros _.
    destruct (negb (downloads_listable E)); [apply keeps_raise|].
    apply keeps_bind; [apply Hloop|]. intros l.
    keeps_go. by apply Hframe.
  - exists default_map. split; [by left|]. apply emits_added.
    eapply emits_trans; [apply H1|].
    eapply keeps_run; [|exact Hload].
    eapply keeps_mono; [|apply load_extension_map_footprint].
    intros e' He. apply Hframe. by destruct e' as [[]| | |[]| | | |].
Qed.

Section Moves.
Variable E : Env.
Variable P : event -> Prop.
Hypothesis HP : only_moves P.

Lemma keeps_mkdir_moves p : keeps P (mkdir E p).
Proof. unfold mkdir. keeps_go. by apply HP. Qed.

Lemma keeps_final_move_moves item d l :
  (forall dir, P (Move (name item) (dir ++ [name item])%list)) ->
  keeps P (final_move E item d l).
Proof.
  intros Hm. unfold final_move, shutil_move.
  destruct d as [[[|c s]|p]|]; keeps_go; try apply keeps_mkdir_moves;
    try (by apply HP).
  - apply (Hm [String c s]).
  - apply Hm.
Qed.

Lemma keeps_classify_moves existing item l :
  (forall dir, P (Move (name item) (dir ++ [name item])%list)) ->
  keeps P (classify_and_move E existing item l).
Proof.
  intros Hm. unfold classify_and_move.
  apply keeps_bind; [by apply keeps_log, HP|]. intros _.
  destruct (rule_lookup _ _) as [category|].
  - destruct (String.eqb category "Code"); [|by apply keeps_final_move_moves].
    apply keeps_bind.
    { eapply keeps_mono; [|apply analyze_code_content_footprint].
      intros e He. apply HP. by destruct e as [[]| | |[]| | | |]. }
    intros [info|]; [|by apply keeps_final_move_moves].
    destruct (PyStr.truthy _); [|by apply keeps_final_move_moves].
    apply keeps_bind; [apply keeps_mkdir_moves|]. intros _.
    apply keeps_bind; [by apply keeps_log, HP|]. intros _.
    by apply keeps_final_move_moves.
  - apply keeps_bind.
    { eapply keeps_mono; [|apply get_folder_recommendation_footprint].
      intros e He. apply HP. by destruct e as [[]| | |[]| | | |]. }
    intros [r|]; [|by apply keeps_final_move_moves].
    destruct (PyStr.truthy _); [|by apply keeps_final_move_moves].
    apply keeps_bind.
    { eapply keeps_mono; [|apply update_extension_map_footprint].
      intros e He. apply HP. by destruct e as [[]| | |[]| | | |]. }
    intros ext_map. by apply keeps_final_move_moves.
Qed.

Lemma keeps_process_item_moves pa cutoff excl existing item l :
  (admitted pa cutoff excl item = true ->
   forall dir, P (Move (name item) (dir ++ [name item])%list)) ->
  keeps P (process_item E pa cutoff excl existing item l).
Proof.
  intros Hm. unfold process_item, shutil_move. unfold admitted in Hm.
  destruct (is_dir item).
  - destruct (_ || _); [apply keeps_ret|]. simpl in Hm.
    keeps_go; try (by apply HP). apply (Hm eq_refl [FOLDERS_DEST_DIR_name]).
  - destruct (String.eqb _ _); [apply keeps_ret|].
    destruct (_ || _); [keeps_go; by apply HP|]. simpl in Hm.
    destruct pa; simpl in *.
    + apply keeps_classify_moves. by apply Hm.
    + apply keeps_bind; [apply keeps_guarded|]. intros _.
      destruct (_ <=? _)%Z; [keeps_go; by apply HP|].
      apply keeps_classify_moves. by apply Hm.
Qed.
End Moves.

Lemma moves_admitted_only_moves pa cutoff excl items :
  only_moves (moves_admitted pa cutoff excl items).
Proof. intros e He. by destruct e. Qed.

Lemma keeps_for_each_moves E pa cutoff excl existing items rest l :
  rest ⊆ items ->
  keeps (moves_admitted pa cutoff excl items)
    (for_each_item E pa cutoff excl existing rest l).
Proof.
  revert l. induction rest as [|item rest IH]; intros l Hsub; simpl.
  - apply keeps_ret.
  - apply keeps_bind.
    + apply keeps_process_item_moves; [apply moves_admitted_only_moves|].
      intros Ha dir. exists item, dir. split; [apply Hsub; by left|]. done.
    + intros l'. apply IH. intros x Hx. apply Hsub. by right.
Qed.

(** X4: every move of a sorting run is the move of an entry of the staging
    directory that the loop admits (a directory other than the archive and
    the folders destination; a file other than the configuration file, not
    excluded, and old enough unless all files are processed), to a path
    under the archive that ends in the name of the entry: nothing is renamed
    on the way, and skipped entries stay where they are.  The exclusion list
    is that of the map the run started from. *)
Theorem sorting_run_moves_only_admitted_entries E pa w :
  exists m0,
    (m0 = default_map \/ map_file w = Stored m0)
    /\ Forall (moves_admitted pa (now E - DAY) (exclusions_of m0) (downloads E))
         (added w (snd (organize_downloads E pa w))).
Proof.
  apply (organize_downloads_emits E pa w
           (fun m => moves_admitted pa (now E - DAY) (exclusions_of m) (downloads E))).
  - intros m e He. by destruct e as [[]| | |[]| | | |].
  - intros m l. by apply keeps_for_each_moves.
Qed.

(* ===================================================================== *)
(** ** Moves and their reports                                             *)
(* ===================================================================== *)

Lemma accounted_refl w : accounted w w.
Proof. exists []. by rewrite app_nil_r. Qed.

Lemma accounted_trans w1 w2 w3 : accounted w1 w2 -> accounted w2 w3 -> accounted w1 w3.
Proof.
  intros (t1 & H1 & F1) (t2 & H2 & F2). exists (t1 ++ t2)%list.
  split; [by rewrite H2, H1, app_assoc|]. rewrite !weight_app. lia.
Qed.

Lemma accounts_ret {A} (a : A) : accounts (ret a).
Proof. intros w. apply accounted_refl. Qed.

Lemma accounts_bind {A B} (m : M A) (k : A -> M B) :
  accounts m -> (forall a, accounts (k a)) -> accounts (bind m k).
Proof.
  intros Hm Hk w. specialize (Hm w). unfold bind.
  destruct (m w) as [[a|e] w1]; simpl in *; [|done].
  eapply accounted_trans; [exact Hm | apply Hk].
Qed.

Lemma accounts_keeps {A} (m : M A) : keeps unrelated_to_moves m -> accounts m.
Proof.
  intros Hm w.
  destruct (keeps_run _ m w _ _ Hm (surjective_pairing _)) as (t & Ht & F).
  exists t. split; [done|]. clear Ht.
  unfold weight. induction F as [|e t (H1 & H2 & H3) _ IH]; [done|].
  simpl. rewrite H1, H2, H3. exact IH.
Qed.

Ltac accounted_now :=
  simpl; first
    [ eexists; split; [rewrite <- ?app_assoc; reflexivity | reflexivity]
    | exists []; split; [by rewrite app_nil_r | reflexivity] ].

Section Accounts.
Variable E : Env.

Lemma accounts_final_move item d l : accounts (final_move E item d l).
Proof.
  intros w. unfold final_move.
  destruct d as [[[|c s]|p]|]; run_monad.
  - accounted_now.
  - destruct (mkdir_ok E (tick w)); simpl; [|accounted_now].
    destruct (move_ok E (S (tick w))); accounted_now.
  - destruct (move_ok E (tick w)); accounted_now.
  - accounted_now.
Qed.

Lemma accounts_classify existing item l : accounts (classify_and_move E existing item l).
Proof.
  unfold classify_and_move.
  apply accounts_bind; [by apply accounts_keeps, keeps_log|]. intros _.
  destruct (rule_lookup _ _) as [category|].
  - destruct (String.eqb category "Code"); [|apply accounts_final_move].
    apply accounts_bind.
    { apply accounts_keeps.
      eapply keeps_mono; [|apply analyze_code_content_footprint]. fp_solve. }
    intros [info|]; [|apply accounts_final_move].
    destruct (PyStr.truthy _); [|apply accounts_final_move].
    apply accounts_bind; [apply accounts_keeps; unfold mkdir; keeps_go; done|]. intros _.
    apply accounts_bind; [by apply accounts_keeps, keeps_log|]. intros _.
    apply accounts_final_move.
  - apply accounts_bind.
    { apply accounts_keeps.
      eapply keeps_mono; [|apply get_folder_recommendation_footprint]. fp_solve. }
    intros [r|]; [|apply accounts_final_move].
    destruct (PyStr.truthy _); [|apply accounts_final_move].
    apply accounts_bind.
    { apply accounts_keeps.
      eapply keeps_mono; [|apply update_extension_map_footprint]. fp_solve. }
    intros ext_map. apply accounts_final_move.
Qed.

Lemma accounts_process_item pa cutoff excl existing item l :
  accounts (process_item E pa cutoff excl existing item l).
Proof.
  unfold process_item. destruct (is_dir item).
  - destruct (_ || _); [apply accounts_ret|].
    intros w. run_monad. destruct (move_ok E (tick w)); accounted_now.
  - destruct (String.eqb _ _); [apply accounts_ret|].
    destruct (_ || _); [by apply accounts_keeps; keeps_go|].
    destruct (negb pa); [|apply accounts_classify].
    apply accounts_bind; [apply accounts_keeps, keeps_guarded|]. intros _.
    destruct (_ <=? _)%Z; [by apply accounts_keeps; keeps_go|].
    apply accounts_classify.
Qed.

Lemma accounts_for_each pa cutoff excl existing items l :
  accounts (for_each_item E pa cutoff excl existing items l).
Proof.
  revert l. induction items as [|item rest IH]; intros l; simpl.
  - apply accounts_ret.
  - apply accounts_bind; [apply accounts_process_item | apply IH].
Qed.

Lemma accounts_organize pa : accounts (organize_downloads E pa).
Proof.
  unfold organize_downloads.
  apply accounts_bind; [by apply accounts_keeps, keeps_log|]. intros _.
  destruct (negb _); [by apply accounts_keeps; keeps_go|].
  apply accounts_bind.
  { apply accounts_keeps.
    eapply keeps_mono; [|apply load_extension_map_footprint]. fp_solve. }
  intros ext_map.
  apply accounts_bind; [apply accounts_keeps; unfold mkdir; keeps_go; done|]. intros _.
  apply accounts_bind; [apply accounts_keeps; unfold mkdir; keeps_go; done|]. intros _.
  destruct (negb (downloads_listable E)); [apply accounts_keeps, keeps_raise|].
  apply accounts_bind; [apply accounts_for_each|]. intros l.
  by apply accounts_keeps; keeps_go.
Qed.
End Accounts.

Lemma accounted_added w w' :
  accounted w w' ->
  weight move_count (added w w')
  = (weight file_moved (added w w') + weight folder_moved (added w w'))%nat.
Proof. intros (t & Ht & F). unfold added. by rewrite Ht, drop_app_length. Qed.

(** X5: in every sorting run, aborted or not, the moves that went through
    are the moves that were reported: there are as many calls of
    [shutil.move] that succeeded as log lines for a moved file or a moved
    folder, so a failed move is never reported or counted and a successful
    one always is.  When the run returns [n] and its last log line reports
    [n] files and [k] folders, it has made [n + k] moves. *)
Theorem every_move_is_reported E pa w :
  let r := organize_downloads E pa w in
  weight move_count (added w (snd r))
  = (weight file_moved (added w (snd r)) + weight folder_moved (added w (snd r)))%nat
  /\ match fst r with
     | Return n =>
         (downloads_exists E = false /\ n = 0%nat
          /\ weight move_count (added w (snd r)) = 0%nat)
         \/ exists k, last (trace (snd r)) = Some (Log (MsgSortingComplete n k))
                      /\ weight move_count (added w (snd r)) = (n + k)%nat
     | Raise _ => True
     end.
Proof.
  intros r. pose proof (accounted_added _ _ (accounts_organize E pa w)) as Hb.
  fold r in Hb. split; [exact Hb|].
  pose proof (organize_downloads_spec E pa w) as Hs. unfold wp in Hs. fold r in Hs.
  destruct (fst r) as [n|e]; [|done]. simpl in Hs.
  destruct Hs as [Tn [[Hex ->]|(k & Tk & Hl)]].
  - left. split; [done|]. split; [done|].
    unfold r, organize_downloads. rewrite Hex. run_monad.
    by erewrite added_app; [|reflexivity|simpl; rewrite <- ?app_assoc; reflexivity].
  - right. exists k. split; [done|].
    apply tally_added in Tn, Tk. lia.
Qed.

(* ===================================================================== *)
(** ** What a sorting run asks                                             *)
(* ===================================================================== *)

Lemma asks_about_only_agents pa cutoff excl existing items :
  only_agents (asks_about pa cutoff excl existing items).
Proof. intros e He. by destruct e as [| | |[]| | | |]. Qed.

Lemma extension_attempts_asks_with E fuel retries ext existing :
  keeps (asks_with ext existing) (extension_attempts E fuel retries ext existing).
Proof.
  revert retries. induction fuel as [|fuel IH]; intros retries; simpl.
  - apply keeps_ret.
  - keeps_go; done.
Qed.

Lemma keeps_classify_asks E pa cutoff excl existing items item l :
  item ∈ items -> admitted pa cutoff excl item = true -> is_dir item = false ->
  keeps (asks_about pa cutoff excl existing items) (classify_and_move E existing item l).
Proof.
  intros Hin Ha Hd.
  pose proof (asks_about_only_agents pa cutoff excl existing items) as HP.
  unfold classify_and_move.
  apply keeps_bind; [by apply keeps_log|]. intros _.
  destruct (rule_lookup _ _) as [category|].
  - destruct (String.eqb category "Code"); [|by apply keeps_final_move].
    apply keeps_bind.
    { apply keeps_analyze_code_content; [done|]. simpl. by exists item. }
    intros [info|]; [|by apply keeps_final_move].
    destruct (PyStr.truthy _); [|by apply keeps_final_move].
    apply keeps_bind; [by apply keeps_mkdir|]. intros _.
    apply keeps_bind; [by apply keeps_log|]. intros _.
    by apply keeps_final_move.
  - apply keeps_bind.
    { unfold get_folder_recommendation. destruct (negb _); [apply keeps_ret|].
      eapply keeps_mono; [|apply extension_attempts_asks_with].
      intros e He. destruct e as [| | |[]| | | |]; simpl in *; try done.
      destruct He as [-> ->]. split; [done|]. by exists item. }
    intros [r|]; [|by apply keeps_final_move].
    destruct (PyStr.truthy _); [|by apply keeps_final_move].
    apply keeps_bind; [by apply keeps_update_extension_map|]. intros ext_map.
    by apply keeps_final_move.
Qed.

Lemma keeps_process_item_asks E pa cutoff excl existing items item l :
  item ∈ items ->
  keeps (asks_about pa cutoff excl existing items)
    (process_item E pa cutoff excl existing item l).
Proof.
  intros Hin.
  pose proof (asks_about_only_agents pa cutoff excl existing items) as HP.
  pose proof (keeps_classify_asks E pa cutoff excl existing items item l Hin) as Hc.
  unfold admitted in Hc.
  unfold process_item, shutil_move.
  destruct (is_dir item); [keeps_go; by apply HP|].
  destruct (String.eqb _ _); [apply keeps_ret|].
  destruct (_ || _); [keeps_go; by apply HP|]. simpl in Hc.
  destruct pa; simpl in *; [by apply Hc|].
  apply keeps_bind; [apply keeps_guarded|]. intros _.
  destruct (_ <=? _)%Z; [keeps_go; by apply HP | by apply Hc].
Qed.

Lemma keeps_for_each_asks E pa cutoff excl existing items rest l :
  rest ⊆ items ->
  keeps (asks_about pa cutoff excl existing items)
    (for_each_item E pa cutoff excl existing rest l).
Proof.
  revert l. induction rest as [|item rest IH]; intros l Hsub; simpl.
  - apply keeps_ret.
  - apply keeps_bind.
    + apply keeps_process_item_asks. apply Hsub. by left.
    + intros l'. apply IH. intros x Hx. apply Hsub. by right.
Qed.

(** X6: what a sorting run sends to the oracle.  Every request is about an
    admitted file of the staging directory: its content, or its lowercased
    extension.  Every extension request of the run carries the same list of
    categories, the keys of the map the run started from without
    [Exclusions]: the list is computed once, before the loop, so the
    categories learned during the run are never in it.  The sorter makes no
    image request. *)
Theorem sorting_run_requests E pa w :
  exists m0,
    (m0 = default_map \/ map_file w = Stored m0)
    /\ Forall
         (asks_about pa (now E - DAY) (exclusions_of m0) (categories_of m0) (downloads E))
         (added w (snd (organize_downloads E pa w))).
Proof.
  apply (organize_downloads_emits E pa w
           (fun m => asks_about pa (now E - DAY) (exclusions_of m) (categories_of m)
                       (downloads E))).
  - intros m e He. by destruct e as [[]| | |[]| | | |].
  - intros m l. by apply keeps_for_each_asks.
Qed.

(* ===================================================================== *)
(** ** The content analysis of a code file                                 *)
(* ===================================================================== *)

Lemma analyze_code_content_value E filename w :
  fst (analyze_code_content E filename w)
  = Return (if gemini_client E && read_ok E (tick w) then
              match classify_code E (S (tick w)) with
              | Answer info => Some info
              | _ => None
              end
            else None).
Proof.
  unfold analyze_code_content. destruct (gemini_client E); simpl; [|done].
  run_monad. destruct (read_ok E (tick w)); simpl; [|done].
  by destruct (classify_code E (S (tick w))).
Qed.

(** X7: [analyze_code_content] never raises, never sleeps and asks the
    oracle at most once, although its request sits in a retry loop: the loop
    body returns or raises in its first iteration.  It returns a
    classification exactly when the file could be read and the one request
    was answered, and then it logs nothing; every failure is logged once and
    gives [None]; without a client nothing happens at all. *)
Theorem code_analysis_asks_once E filename w :
  exists r w',
    analyze_code_content E filename w = (Return r, w')
    /\ count is_sleep (added w w') = 0%nat
    /\ match r with
       | Some info =>
           gemini_client E = true /\ read_ok E (tick w) = true
           /\ classify_code E (S (tick w)) = Answer info
           /\ added w w' = [Agent (AskCode filename)]
       | None =>
           (gemini_client E = false /\ w' = w)
           \/ (gemini_client E = true /\ read_ok E (tick w) = false
               /\ added w w' = [Log (MsgCodeAnalysisFailed filename)])
           \/ (gemini_client E = true /\ read_ok E (tick w) = true
               /\ (forall info, classify_code E (S (tick w)) <> Answer info)
               /\ added w w' = [Agent (AskCode filename);
                                Log (MsgCodeAnalysisFailed filename)])
       end.
Proof.
  unfold analyze_code_content.
  destruct (gemini_client E); simpl.
  2:{ exists None, w. split; [done|]. split; [|by left].
      unfold added. by rewrite drop_all. }
  run_monad. destruct (read_ok E (tick w)); simpl.
  - destruct (classify_code E (S (tick w))) as [info| |] eqn:Hr; simpl;
      eexists _, _; (split; [reflexivity|]);
      (erewrite added_app; [|reflexivity|simpl; rewrite <- ?app_assoc; reflexivity]);
      (split; [done|]).
    + done.
    + right. right. done.
    + right. right. done.
  - eexists _, _. split; [reflexivity|].
    erewrite added_app; [|reflexivity|simpl; rewrite <- ?app_assoc; reflexivity].
    split; [done|]. right. left. done.
Qed.

(* ===================================================================== *)
(** ** Where a file ends up                                                *)
(* ===================================================================== *)

Lemma moves_to_only_moves item dir : only_moves (moves_to item dir).
Proof. intros e He. by destruct e. Qed.

Lemma keeps_final_move_to E item (folder : string) l :
  keeps (moves_to (name item) [folder]) (final_move E item (Some (DestStr folder)) l).
Proof.
  unfold final_move, shutil_move, mkdir. destruct folder; keeps_go; done.
Qed.

Lemma keeps_final_move_path E item p l :
  keeps (moves_to (name item) p) (final_move E item (Some (DestPath p)) l).
Proof. unfold final_move, shutil_move. keeps_go; done. Qed.

(** X8: a file that the rules place in a category other than [Code] is
    moved to [category/name], counted and reported.  When the move fails,
    the failure is logged, the file is not counted and the iteration returns
    all the same; only a directory that cannot be created aborts the
    iteration.  A category whose name is empty swallows its files: the file
    is announced and left where it is.  The map file is never touched. *)
Theorem mapped_file_goes_to_its_category E existing item l w category :
  rule_lookup (PyStr.lower (PyStr.suffix (name item))) (EXT_MAP l) = Some category ->
  category <> "Code" ->
  exists r w',
    classify_and_move E existing item l w = (r, w')
    /\ map_file w' = map_file w
    /\ if String.eqb category "" then
         r = Return l /\ added w w' = [Log (MsgProcessing (name item))]
       else if mkdir_ok E (tick w) then
         if move_ok E (S (tick w)) then
           r = Return {| EXT_MAP := EXT_MAP l;
                         files_processed := S (files_processed l);
                         folders_processed := folders_processed l |}
           /\ added w w' = [Log (MsgProcessing (name item)); Mkdir [category];
                            Move (name item) [category; name item];
                            Log (MsgMoved (name item) category)]
         else
           r = Return l
           /\ added w w' = [Log (MsgProcessing (name item)); Mkdir [category];
                            Log (MsgMoveError (name item))]
       else
         r = Raise OtherException
         /\ added w w' = [Log (MsgProcessing (name item))].
Proof.
  intros Hl Hcode. unfold classify_and_move. rewrite Hl.
  apply String.eqb_neq in Hcode. rewrite Hcode.
  unfold final_move. destruct category as [|c s].
  { run_monad. eexists _, _. split; [reflexivity|]. split; [done|].
    erewrite added_app; [|reflexivity|simpl; rewrite <- ?app_assoc; reflexivity].
    done. }
  change (String.eqb (String c s) "") with false. cbv iota.
  run_monad.
  destruct (mkdir_ok E (tick w)); simpl.
  - destruct (move_ok E (S (tick w))); simpl;
      eexists _, _; (split; [reflexivity|]); (split; [done|]);
      (erewrite added_app; [|reflexivity|simpl; rewrite <- ?app_assoc; reflexivity]);
      done.
  - eexists _, _. split; [reflexivity|]. split; [done|].
    erewrite added_app; [|reflexivity|simpl; rewrite <- ?app_assoc; reflexivity].
    done.
Qed.

(** A PDF goes to [Documents]. *)
Lemma mapped_file_goes_to_its_category_witness :
  exists r w',
    classify_and_move pdf_env [] (file "report.pdf" 0) (initial default_map) (start None)
    = (r, w')
    /\ r = Return {| EXT_MAP := default_map; files_processed := 1;
                     folders_processed := 0 |}
    /\ added (start None) w'
       = [Log (MsgProcessing "report.pdf"); Mkdir ["Documents"];
          Move "report.pdf" ["Documents"; "report.pdf"];
          Log (MsgMoved "report.pdf" "Documents")].
Proof.
  destruct (mapped_file_goes_to_its_category pdf_env [] (file "report.pdf" 0)
              (initial default_map) (start None) "Documents" eq_refl)
    as (r & w' & Hr & _ & Hcase).
  - discriminate.
  - exists r, w'. split; [exact Hr|]. exact Hcase.
Defined.

(** X9: a file that the rules classify as [Code] goes to
    [Code_Projects/<folder>/name] when the content analysis yields a folder,
    and to [Code/name] in every other case (no client, unreadable file,
    failed request, empty suggestion); nothing else is moved, and the
    iteration never sleeps. *)
Theorem code_file_destination E existing item l w :
  rule_lookup (PyStr.lower (PyStr.suffix (name item))) (EXT_MAP l) = Some "Code" ->
  let w' := snd (classify_and_move E existing item l w) in
  Forall
    (moves_to (name item)
       match semantic_folder_at E (tick w) with
       | Some semantic_folder => ["Code_Projects"; semantic_folder]
       | None => ["Code"]
       end)
    (added w w')
  /\ count is_sleep (added w w') = 0%nat.
Proof.
  intros Hl w'. split.
  - apply emits_added. unfold w', classify_and_move. rewrite Hl.
    change (String.eqb "Code" "Code") with true. cbv iota.
    unfold bind at 1. unfold log_message at 1, emit at 1.
    set (w1 := set_trace _ w).
    assert (H1 : forall dir, emits (moves_to (name item) dir) w w1).
    { intros dir. eexists. split; [reflexivity|]. by repeat constructor. }
    pose proof (analyze_code_content_value E (name item) w1) as Hv.
    unfold bind at 1.
    destruct (analyze_code_content E (name item) w1) as [r w2] eqn:Hr.
    simpl in Hv. subst r.
    assert (H2 : forall dir, emits (moves_to (name item) dir) w w2).
    { intros dir. eapply emits_trans; [apply H1|].
      eapply keeps_run; [|exact Hr].
      eapply keeps_mono; [|apply analyze_code_content_footprint].
      intros e He. by destruct e as [[]| | |[]| | | |]. }
    unfold semantic_folder_at.
    change (tick w1) with (tick w).
    destruct (gemini_client E && read_ok E (tick w)).
    2:{ eapply emits_trans; [apply H2|].
        eapply keeps_run; [|apply surjective_pairing].
        apply (keeps_final_move_to E item "Code" l). }
    destruct (classify_code E (S (tick w))) as [info| |].
    + destruct (PyStr.truthy (suggested_folder info)).
      * eapply emits_trans; [apply H2|].
        eapply keeps_run; [|apply surjective_pairing].
        apply keeps_bind; [apply keeps_mkdir_moves, moves_to_only_moves|]. intros _.
        apply keeps_bind; [by apply keeps_log|]. intros _.
        apply (keeps_final_move_path E item ["Code_Projects"; _]).
      * eapply emits_trans; [apply H2|].
        eapply keeps_run; [|apply surjective_pairing].
        apply (keeps_final_move_to E item "Code" l).
    + eapply emits_trans; [apply H2|].
      eapply keeps_run; [|apply surjective_pairing].
      apply (keeps_final_move_to E item "Code" l).
    + eapply emits_trans; [apply H2|].
      eapply keeps_run; [|apply surjective_pairing].
      apply (keeps_final_move_to E item "Code" l).
  - apply (emits_count_0 (fun e => is_sleep e = false)); [done|].
    eapply keeps_run; [|apply surjective_pairing].
    unfold classify_and_move. rewrite Hl.
    change (String.eqb "Code" "Code") with true. cbv iota.
    apply keeps_bind; [by apply keeps_log|]. intros _.
    apply keeps_bind.
    { eapply keeps_mono; [|apply analyze_code_content_footprint].
      intros e He. by destruct e as [[]| | |[]| | | |]. }
    intros [info|]; unfold final_move, shutil_move, mkdir; keeps_go; done.
Qed.

(** The analysis of [a.py] suggests "Web Scraper": the file goes to
    [Code_Projects/Web_Scraper]. *)
Lemma code_file_destination_witness :
  let w := start None in
  let w' := snd (classify_and_move code_env [] (file "a.py" 0) (initial default_map) w) in
  Forall (moves_to "a.py" ["Code_Projects"; "Web_Scraper"]) (added w w')
  /\ count is_sleep (added w w') = 0%nat.
Proof.
  exact (code_file_destination code_env [] (file "a.py" 0) (initial default_map)
           (start None) eq_refl).
Defined.

(** X10: a learned category is used raw for the file that taught it and
    normalised afterwards.  When the extension agent recommends a folder for
    an unmapped extension, the map records the extension under the
    normalised name, while the file at hand is moved to a folder named as
    the oracle spelt it (when that directory can be created and the move
    goes through).  A later file with the same extension is filed by the
    rules under the normalised name, which is spelt differently whenever
    normalising changes the name. *)
Theorem learned_category_is_used_raw_then_normalised E existing item l w r w2 :
  let ext := PyStr.lower (PyStr.suffix (name item)) in
  let w1 := set_trace (trace w ++ [Log (MsgProcessing (name item))]) w in
  let folder := suggested_folder_name r in
  rule_lookup ext (EXT_MAP l) = None ->
  get_folder_recommendation E ext existing w1 = (Return (Some r), w2) ->
  PyStr.truthy folder = true ->
  exists m1 w3 res w',
    update_extension_map E (EXT_MAP l) ext folder w2 = (Return m1, w3)
    /\ rule_lookup ext m1 = Some (safe_name folder)
    /\ classify_and_move E existing item l w = (res, w')
    /\ (if mkdir_ok E (tick w3) then
          if move_ok E (S (tick w3)) then
            res = Return {| EXT_MAP := m1;
                            files_processed := S (files_processed l);
                            folders_processed := folders_processed l |}
            /\ added w3 w' = [Mkdir [folder]; Move (name item) [folder; name item];
                              Log (MsgMoved (name item) folder)]
          else
            res = Return {| EXT_MAP := m1;
                            files_processed := files_processed l;
                            folders_processed := folders_processed l |}
            /\ added w3 w' = [Mkdir [folder]; Log (MsgMoveError (name item))]
        else res = Raise OtherException /\ added w3 w' = [])
    /\ forall next l1 w4,
         EXT_MAP l1 = m1 ->
         PyStr.lower (PyStr.suffix (name next)) = ext ->
         safe_name folder <> "Code" ->
         safe_name folder <> "" ->
         exists res' w5,
           classify_and_move E existing next l1 w4 = (res', w5)
           /\ if mkdir_ok E (tick w4) then
                if move_ok E (S (tick w4)) then
                  res' = Return {| EXT_MAP := m1;
                                   files_processed := S (files_processed l1);
                                   folders_processed := folders_processed l1 |}
                  /\ added w4 w5
                     = [Log (MsgProcessing (name next)); Mkdir [safe_name folder];
                        Move (name next) [safe_name folder; name next];
                        Log (MsgMoved (name next) (safe_name folder))]
                else
                  res' = Return l1
                  /\ added w4 w5
                     = [Log (MsgProcessing (name next)); Mkdir [safe_name folder];
                        Log (MsgMoveError (name next))]
              else
                res' = Raise OtherException
                /\ added w4 w5 = [Log (MsgProcessing (name next))].
Proof.
  intros ext w1 folder Hl Hr Ht.
  assert (Hlow : PyStr.lower ext = ext) by apply lower_idem.
  destruct (update_extension_map_returns E (EXT_MAP l) ext folder w2)
    as (m1 & w3 & Hu & _).
  pose proof (update_extension_map_value E (EXT_MAP l) ext folder w2) as Hv.
  rewrite Hu in Hv. simpl in Hv. injection Hv as ->.
  assert (Hnew : rule_lookup ext (recorded (EXT_MAP l) ext folder)
                 = Some (safe_name folder)).
  { rewrite <- Hlow at 1. apply rule_lookup_recorded_new. by rewrite Hlow. }
  assert (Hrun : classify_and_move E existing item l w
                 = final_move E item (Some (DestStr folder))
                     {| EXT_MAP := recorded (EXT_MAP l) ext folder;
                        files_processed := files_processed l;
                        folders_processed := folders_processed l |} w3).
  { unfold classify_and_move. fold ext. rewrite Hl.
    unfold bind at 1. unfold log_message, emit. fold w1.
    unfold bind at 1. rewrite Hr. fold folder. rewrite Ht.
    unfold bind at 1. by rewrite Hu. }
  exists (recorded (EXT_MAP l) ext folder), w3.
  assert (Hfirst : exists res w',
            final_move E item (Some (DestStr folder))
              {| EXT_MAP := recorded (EXT_MAP l) ext folder;
                 files_processed := files_processed l;
                 folders_processed := folders_processed l |} w3 = (res, w')
            /\ (if mkdir_ok E (tick w3) then
                  if move_ok E (S (tick w3)) then
                    res = Return {| EXT_MAP := recorded (EXT_MAP l) ext folder;
                                    files_processed := S (files_processed l);
                                    folders_processed := folders_processed l |}
                    /\ added w3 w' = [Mkdir [folder]; Move (name item) [folder; name item];
                                      Log (MsgMoved (name item) folder)]
                  else
                    res = Return {| EXT_MAP := recorded (EXT_MAP l) ext folder;
                                    files_processed := files_processed l;
                                    folders_processed := folders_processed l |}
                    /\ added w3 w' = [Mkdir [folder]; Log (MsgMoveError (name item))]
                else res = Raise OtherException /\ added w3 w' = [])).
  { unfold final_move. destruct folder as [|c s]; [done|]. run_monad.
    destruct (mkdir_ok E (tick w3)); simpl.
    - destruct (move_ok E (S (tick w3))); simpl;
        eexists _, _; (split; [reflexivity|]); (split; [done|]);
        (erewrite added_app; [|reflexivity|simpl; rewrite <- ?app_assoc; reflexivity]);
        done.
    - eexists _, _. split; [reflexivity|]. split; [done|].
      unfold added. simpl. by rewrite drop_all. }
  destruct Hfirst as (res & w' & Hfin & Hcase).
  exists res, w'. split; [exact Hu|]. split; [exact Hnew|].
  split; [by rewrite Hrun|]. split; [exact Hcase|].
  intros next l1 w4 Hl1 Hext Hcode Hne.
  destruct (classify_mapped_eval E existing next l1 w4 (safe_name folder))
    as (res' & w5 & Hr5 & _ & Hcase5); [by rewrite Hext, Hl1 | done |].
  exists res', w5. split; [exact Hr5|].
  apply String.eqb_neq in Hne. rewrite Hne in Hcase5. by rewrite Hl1 in Hcase5.
Qed.

(** The oracle files [.xyz] under "Blender Files": [foo.xyz] goes to the
    folder of that name, the later [bar.XYZ] to [Blender_Files]. *)
Lemma learned_category_is_used_raw_then_normalised_witness :
  let E := unwritable_env in
  let item := file "foo.xyz" 0 in
  let l := initial default_map in
  let w := start None in
  let w2 := snd (get_folder_recommendation E ".xyz" []
                   (set_trace (trace w ++ [Log (MsgProcessing "foo.xyz")]) w)) in
  exists m1 w3 res w',
    update_extension_map E default_map ".xyz" "Blender Files" w2 = (Return m1, w3)
    /\ rule_lookup ".xyz" m1 = Some "Blender_Files"
    /\ classify_and_move E [] item l w = (res, w')
    /\ (if mkdir_ok E (tick w3) then
          if move_ok E (S (tick w3)) then
            res = Return {| EXT_MAP := m1; files_processed := 1; folders_processed := 0 |}
            /\ added w3 w' = [Mkdir ["Blender Files"];
                              Move "foo.xyz" ["Blender Files"; "foo.xyz"];
                              Log (MsgMoved "foo.xyz" "Blender Files")]
          else
            res = Return {| EXT_MAP := m1; files_processed := 0; folders_processed := 0 |}
            /\ added w3 w' = [Mkdir ["Blender Files"]; Log (MsgMoveError "foo.xyz")]
        else res = Raise OtherException /\ added w3 w' = [])
    /\ forall next l1 w4,
         EXT_MAP l1 = m1 ->
         PyStr.lower (PyStr.suffix (name next)) = ".xyz" ->
         "Blender_Files" <> "Code" ->
         "Blender_Files" <> "" ->
         exists res' w5,
           classify_and_move E [] next l1 w4 = (res', w5)
           /\ if mkdir_ok E (tick w4) then
                if move_ok E (S (tick w4)) then
                  res' = Return {| EXT_MAP := m1;
                                   files_processed := S (files_processed l1);
                                   folders_processed := folders_processed l1 |}
                  /\ added w4 w5
                     = [Log (MsgProcessing (name next)); Mkdir ["Blender_Files"];
                        Move (name next) ["Blender_Files"; name next];
                        Log (MsgMoved (name next) "Blender_Files")]
                else
                  res' = Return l1
                  /\ added w4 w5
                     = [Log (MsgProcessing (name next)); Mkdir ["Blender_Files"];
                        Log (MsgMoveError (name next))]
              else
                res' = Raise OtherException
                /\ added w4 w5 = [Log (MsgProcessing (name next))].
Proof.
  intros E item l w w2.
  apply (learned_category_is_used_raw_then_normalised E [] item l w
           {| suggested_folder_name := "Blender Files"; is_new_category := true |} w2);
    reflexivity.
Defined.

(* ===================================================================== *)
(** ** Without a client                                                    *)
(* ===================================================================== *)

Lemma keeps_classify_no_client E existing item l :
  gemini_client E = false ->
  keeps (fun e => is_agent e = false) (classify_and_move E existing item l).
Proof.
  intros Hc.
  assert (HP : only_agents (fun e => is_agent e = false)) by (by intros e He).
  unfold classify_and_move, analyze_code_content, get_folder_recommendation.
  rewrite Hc. change (negb false) with true. cbv iota.
  apply keeps_bind; [by apply keeps_log|]. intros _.
  destruct (rule_lookup _ _) as [category|].
  - destruct (String.eqb category "Code"); [|by apply keeps_final_move].
    apply keeps_bind; [apply keeps_ret|]. intros [info|]; [|by apply keeps_final_move].
    destruct (PyStr.truthy _); [|by apply keeps_final_move].
    apply keeps_bind; [by apply keeps_mkdir|]. intros _.
    apply keeps_bind; [by apply keeps_log|]. intros _. by apply keeps_final_move.
  - apply keeps_bind; [apply keeps_ret|]. intros [r|]; [|by apply keeps_final_move].
    destruct (PyStr.truthy _); [|by apply keeps_final_move].
    apply keeps_bind; [by apply keeps_update_extension_map|]. intros ext_map.
    by apply keeps_final_move.
Qed.

Lemma keeps_image_open_any E P filename : keeps P (image_open E filename).
Proof. unfold image_open. keeps_go. Qed.

Lemma keeps_open_batch_any E P files batch l : keeps P (open_batch E files batch l).
Proof.
  revert batch l. induction files as [|f files IH]; intros batch l; simpl.
  - apply keeps_ret.
  - apply keeps_bind; [|intros r; apply IH].
    apply keeps_try; [|intros; apply keeps_ret].
    apply keeps_bind; [apply keeps_image_open_any | intros; apply keeps_ret].
Qed.

Lemma keeps_batch_loop_no_client E fuel use_delay all_files file_index l :
  gemini_client E = false ->
  keeps idle (batch_loop E fuel use_delay all_files file_index l).
Proof.
  intros Hc. revert file_index l.
  induction fuel as [|fuel IH]; intros file_index l; simpl; [apply keeps_ret|].
  destruct (_ <? _)%nat; [|apply keeps_ret].
  apply keeps_bind; [|intros; apply IH].
  unfold process_batch, get_batch_info_from_images_renamer. rewrite Hc.
  change (negb false) with true. cbv iota.
  apply keeps_bind; [apply keeps_open_batch_any|]. intros [batch l1]. simpl.
  apply keeps_bind.
  { destruct batch as [|b batch]; [apply keeps_ret|].
    apply (keeps_bind_value _ _ _ (fun r => r = None));
      [apply keeps_ret | by intros w | intros r ->; apply keeps_ret]. }
  intros l2. apply keeps_bind; [|intros; apply keeps_ret].
  destruct (_ && _); [by apply keeps_sleep | apply keeps_ret].
Qed.

Lemma keeps_for_each_no_client E pa cutoff excl existing items l :
  gemini_client E = false ->
  keeps (fun e => is_agent e = false) (for_each_item E pa cutoff excl existing items l).
Proof.
  intros Hc. revert l. induction items as [|item rest IH]; intros l; simpl.
  - apply keeps_ret.
  - apply keeps_bind; [|intros; apply IH].
    apply keeps_process_item; [by intros e He|]. by apply keeps_classify_no_client.
Qed.

(** X11: without a client nothing is sent to the oracle.  A sorting run
    makes no request (unmapped files fall back to the failure category, code
    files to [Code]); the renamer makes no request and renames nothing; the
    single-item repair returns [False] at once, with the folder and the log
    untouched. *)
Theorem without_client_nothing_is_asked E pa use_delay original w :
  gemini_client E = false ->
  count is_agent (added w (snd (organize_downloads E pa w))) = 0%nat
  /\ Forall idle (added w (snd (execute_image_renamer E use_delay w)))
  /\ retry_failed_file_renamer E original w = (Return false, w).
Proof.
  intros Hc. split; [|split].
  - destruct (organize_downloads_emits E pa w (fun _ e => is_agent e = false))
      as (m0 & _ & F).
    + intros m e He. by destruct e as [[]| | |[]| | | |].
    + intros m l. by apply keeps_for_each_no_client.
    + unfold count. clear -F.
      induction F as [|e t He _ IH]; [done|].
      rewrite filter_cons. rewrite He. by case_decide.
  - apply emits_added. eapply keeps_run; [|apply surjective_pairing].
    unfold execute_image_renamer, renamer_run.
    apply keeps_bind; [by apply keeps_log|]. intros _.
    apply keeps_bind; [apply keeps_get_world|]. intros w0.
    destruct (images w0) as [d|].
    + destruct (negb (images_listable E)); [apply keeps_raise|].
      apply keeps_bind.
      { apply keeps_bind; [by apply keeps_log|]. intros _.
        by apply keeps_batch_loop_no_client. }
      intros l. by keeps_go.
    + by keeps_go.
  - unfold retry_failed_file_renamer. by rewrite Hc.
Qed.

(** An unknown file and a code file, sorted without a client. *)
Lemma without_client_nothing_is_asked_witness :
  let w := start (Some lone_image) in
  count is_agent (added w (snd (organize_downloads no_client_env true w))) = 0%nat
  /\ Forall idle (added w (snd (execute_image_renamer no_client_env true w)))
  /\ retry_failed_file_renamer no_client_env "a.png" w = (Return false, w).
Proof.
  exact (without_client_nothing_is_asked no_client_env true true "a.png"
           (start (Some lone_image)) eq_refl).
Defined.

(* ===================================================================== *)
(** ** The batch agent                                                     *)
(* ===================================================================== *)

(** X12: the batch agent retries after every failure, whatever its kind.
    When the first [k] attempts fail ([k] at most the limit) and the next
    one, if the limit is not reached, is answered, the agent is asked
    [k + 1] times and never more than [MAX_RETRIES] times, always about the
    same files; it logs one error per failed attempt; it sleeps
    [RETRY_DELAY] seconds between two attempts and not after the last one;
    it never raises and leaves the folder alone. *)
Theorem batch_agent_retries_on_any_failure E filenames w k :
  gemini_client E = true ->
  (k <= MAX_RETRIES)%nat ->
  (forall j, (j < k)%nat -> is_answer (describe_image_batch E (tick w + j)) = false) ->
  ((k < MAX_RETRIES)%nat -> is_answer (describe_image_batch E (tick w + k)) = true) ->
  exists w2,
    get_batch_info_from_images_renamer E filenames w
    = (Return (batch_answer_after E (tick w) k), w2)
    /\ count is_agent (added w w2) = Nat.min (S k) MAX_RETRIES
    /\ Forall (is_ask_batch_of filenames) (added w w2)
    /\ count is_image_agent_error (added w w2) = k
    /\ weight slept (added w w2) = (Nat.min k (MAX_RETRIES - 1) * RETRY_DELAY)%nat
    /\ images w2 = images w.
Proof.
  intros Hc Hk Hfail Hlast.
  unfold get_batch_info_from_images_renamer, batch_answer_after. rewrite Hc. simpl.
  destruct k as [|[|[|[|k]]]]; [| | | |unfold MAX_RETRIES in Hk; lia].
  - specialize (Hlast ltac:(unfold MAX_RETRIES; lia)). clear Hfail.
    rewrite Nat.add_0_r in *. run_monad.
    destruct (describe_image_batch E (tick w)) as [a| |]; [|done|done]; simpl.
    eexists; split; [reflexivity|].
    erewrite added_app; [|reflexivity|simpl; rewrite <- ?app_assoc; reflexivity].
    repeat split; simpl; try done. by repeat constructor.
  - specialize (Hlast ltac:(unfold MAX_RETRIES; lia)).
    pose proof (Hfail 0%nat ltac:(lia)) as H0. clear Hfail.
    rewrite Nat.add_0_r in H0. rewrite Nat.add_1_r in *. run_monad.
    destruct (describe_image_batch E (tick w)) as [a0| |]; [done| |]; simpl.
    all: destruct (describe_image_batch E (S (tick w))) as [a| |]; [|done|done]; simpl.
    all: eexists; split; [reflexivity|].
    all: erewrite added_app; [|reflexivity|simpl; rewrite <- ?app_assoc; reflexivity].
    all: repeat split; simpl; try done; by repeat constructor.
  - specialize (Hlast ltac:(unfold MAX_RETRIES; lia)).
    pose proof (Hfail 0%nat ltac:(lia)) as H0.
    pose proof (Hfail 1%nat ltac:(lia)) as H1. clear Hfail.
    rewrite Nat.add_0_r in H0. rewrite Nat.add_1_r in H1.
    replace (tick w + 2)%nat with (S (S (tick w))) in * by lia.
    run_monad.
    destruct (describe_image_batch E (tick w)) as [a0| |]; [done| |]; simpl.
    all: destruct (describe_image_batch E (S (tick w))) as [a1| |]; [done| |]; simpl.
    all: destruct (describe_image_batch E (S (S (tick w)))) as [a| |]; [|done|done]; simpl.
    all: eexists; split; [reflexivity|].
    all: erewrite added_app; [|reflexivity|simpl; rewrite <- ?app_assoc; reflexivity].
    all: repeat split; simpl; try done; by repeat constructor.
  - clear Hlast.
    pose proof (Hfail 0%nat ltac:(lia)) as H0.
    pose proof (Hfail 1%nat ltac:(lia)) as H1.
    pose proof (Hfail 2%nat ltac:(lia)) as H2. clear Hfail.
    rewrite Nat.add_0_r in H0. rewrite Nat.add_1_r in H1.
    replace (tick w + 2)%nat with (S (S (tick w))) in * by lia.
    run_monad.
    destruct (describe_image_batch E (tick w)) as [a0| |]; [done| |]; simpl.
    all: destruct (describe_image_batch E (S (tick w))) as [a1| |]; [done| |]; simpl.
    all: destruct (describe_image_batch E (S (S (tick w)))) as [a| |]; [done| |]; simpl.
    all: eexists; split; [reflexivity|].
    all: erewrite added_app; [|reflexivity|simpl; rewrite <- ?app_assoc; reflexivity].
    all: repeat split; simpl; try done; by repeat constructor.
Qed.

(** Two malformed answers, then the descriptions: three requests, two error
    lines, twenty seconds of sleep. *)
Lemma batch_agent_retries_on_any_failure_witness :
  let w := start None in
  exists w2,
    get_batch_info_from_images_renamer flaky_batch_env ["a.png"] w
    = (Return (batch_answer_after flaky_batch_env (tick w) 2), w2)
    /\ count is_agent (added w w2) = Nat.min 3 MAX_RETRIES
    /\ Forall (is_ask_batch_of ["a.png"]) (added w w2)
    /\ count is_image_agent_error (added w w2) = 2%nat
    /\ weight slept (added w w2) = (Nat.min 2 (MAX_RETRIES - 1) * RETRY_DELAY)%nat
    /\ images w2 = images w.
Proof.
  intros w.
  apply (batch_agent_retries_on_any_failure flaky_batch_env ["a.png"] w 2).
  - reflexivity.
  - unfold MAX_RETRIES. lia.
  - intros j Hj. destruct j as [|[|j]]; [reflexivity | reflexivity | lia].
  - intros _. reflexivity.
Defined.

(* ===================================================================== *)
(** ** The loop of the renamer                                             *)
(* ===================================================================== *)

Lemma renamer_step_refl l w : renamer_step [] l w l w.
Proof.
  exists [], []. rewrite !app_nil_r. repeat split; [simpl; lia|simpl; lia|].
  intros f Hf. by apply elem_of_nil in Hf.
Qed.

Lemma renamer_step_trans files1 files2 l w l1 w1 l2 w2 :
  renamer_step files1 l w l1 w1 -> renamer_step files2 l1 w1 l2 w2 ->
  renamer_step (files1 ++ files2) l w l2 w2.
Proof.
  intros (t1 & q1 & Ht1 & Hq1 & Hc1 & Hb1 & Hf1) (t2 & q2 & Ht2 & Hq2 & Hc2 & Hb2 & Hf2).
  exists (t1 ++ t2)%list, (q1 ++ q2)%list.
  split; [by rewrite Ht2, Ht1, app_assoc|].
  split; [by rewrite Hq2, Hq1, app_assoc|].
  split; [rewrite weight_app; lia|].
  split; [rewrite weight_app, length_app; lia|].
  intros f [Hf|Hf]%elem_of_app.
  - destruct (Hf1 f Hf) as [H|[dst H]]; [left|right; exists dst];
      apply elem_of_app; by left.
  - destruct (Hf2 f Hf) as [H|[dst H]]; [left|right; exists dst];
      apply elem_of_app; by right.
Qed.

Section Steps.
Variable E : Env.

Lemma image_open_silent filename w :
  trace (snd (image_open E filename w)) = trace w.
Proof.
  unfold image_open. run_monad. destruct (images w) as [d|]; [|done].
  destruct (d !! filename); [|done]. run_monad.
  by destruct (image_open_ok E (tick w)).
Qed.

(** Opening a batch touches neither the trace nor the counter: each file
    joins the batch or the queue. *)
Lemma open_batch_spec files batch l w :
  exists opened q l' w',
    open_batch E files batch l w = (Return ((batch ++ opened)%list, l'), w')
    /\ trace w' = trace w
    /\ failed_files_for_retry l' = (failed_files_for_retry l ++ q)%list
    /\ batch_processed_count l' = batch_processed_count l
    /\ opened `sublist_of` files
    /\ forall f, f ∈ files -> f ∈ opened \/ f ∈ q.
Proof.
  revert batch l w. induction files as [|f files IH]; intros batch l w; simpl.
  - exists [], [], l, w. rewrite !app_nil_r. repeat split; try done.
    intros f Hf. by apply elem_of_nil in Hf.
  - unfold bind at 1. unfold try_except. unfold bind at 1.
    pose proof (image_open_silent f w) as Hs.
    destruct (image_open E f w) as [[[]|e] w1]; simpl in *.
    + destruct (IH (batch ++ [f])%list l w1)
        as (opened & q & l' & w' & Hr & Ht & Hq & Hc & Hsub & Hin).
      exists (f :: opened), q, l', w'. rewrite Hr.
      split; [by rewrite <- app_assoc|]. split; [congruence|].
      split; [done|]. split; [done|]. split; [by constructor|].
      intros x [->|Hx]%elem_of_cons; [left; by left|].
      destruct (Hin x Hx); [left; by right | by right].
    + destruct (IH batch (queue f l) w1)
        as (opened & q & l' & w' & Hr & Ht & Hq & Hc & Hsub & Hin).
      exists opened, (f :: q), l', w'. rewrite Hr.
      split; [done|]. split; [congruence|].
      split; [by rewrite Hq; simpl; rewrite <- app_assoc|]. split; [done|].
      split; [by constructor|].
      intros x [->|Hx]%elem_of_cons; [right; by left|].
      destruct (Hin x Hx); [by left | right; by right].
Qed.

Lemma os_rename_cases src dst w :
  (exists w', os_rename E src dst w = (Return tt, w')
              /\ trace w' = (trace w ++ [Rename src dst])%list)
  \/ (exists e w', os_rename E src dst w = (Raise e, w') /\ trace w' = trace w).
Proof.
  unfold os_rename. run_monad.
  destruct (rename_ok E (tick w)); simpl; [|right; eauto].
  destruct (images w) as [d|]; [|right; eauto].
  destruct (d !! src); [|right; eauto].
  destruct (_ && _); [right; eauto|]. left. eauto.
Qed.

Lemma rename_batch_spec result_map batch l w :
  exists l' w',
    rename_batch E result_map batch l w = (Return l', w')
    /\ renamer_step batch l w l' w'.
Proof.
  revert l w. induction batch as [|f batch IH]; intros l w; simpl.
  - exists l, w. split; [done|]. apply renamer_step_refl.
  - assert (Hq : renamer_step [f] l w (queue f l) w).
    { exists [], [f]. rewrite app_nil_r. repeat split; [simpl; lia|simpl; lia|].
      intros x Hx. by left. }
    destruct (result_get f result_map) as [info|].
    + unfold bind at 1. unfold try_except. unfold bind at 1.
      destruct (os_rename_cases f
                  ((clean_title (short_title info) +:+ PROCESSED_SUFFIX)
                   +:+ PyStr.splitext_ext f) w)
        as [(w1 & Hr & Ht)|(e & w1 & Hr & Ht)]; rewrite Hr; simpl.
      * destruct (IH (renamed_one l) w1) as (l' & w' & Hr' & Hs).
        exists l', w'. split; [done|].
        apply (renamer_step_trans [f] batch _ _ (renamed_one l) w1); [|done].
        exists [Rename f ((clean_title (short_title info) +:+ PROCESSED_SUFFIX)
                          +:+ PyStr.splitext_ext f)], [].
        rewrite app_nil_r. repeat split; [done|simpl; lia|simpl; lia|].
        intros x ->%list_elem_of_singleton. right. eexists. by left.
      * destruct (IH (queue f l) w1) as (l' & w' & Hr' & Hs).
        exists l', w'. split; [done|].
        apply (renamer_step_trans [f] batch _ _ (queue f l) w1); [|done].
        destruct Hq as (t & q & Ht' & Hq' & Hc' & Hb' & Hf').
        exists t, q. repeat split; try done. congruence.
    + destruct (IH (queue f l) w) as (l' & w' & Hr' & Hs).
      exists l', w'. split; [done|].
      by apply (renamer_step_trans [f] batch _ _ (queue f l) w).
Qed.

Lemma image_batch_attempts_no_rename fuel retries batch :
  keeps (fun e => renamed e = 0%nat) (image_batch_attempts E fuel retries batch).
Proof.
  revert retries. induction fuel as [|fuel IH]; intros retries; simpl; [apply keeps_ret|].
  keeps_go; done.
Qed.

Lemma safe_image_batch_attempts fuel retries batch :
  safe (image_batch_attempts E fuel retries batch).
Proof.
  revert retries. induction fuel as [|fuel IH]; intros retries; simpl; [apply safe_ret|].
  unfold log_message, sleep. safe_go. apply IH.
Qed.

(** The batch agent never raises and renames nothing. *)
Lemma get_batch_info_spec batch w :
  exists r w',
    get_batch_info_from_images_renamer E batch w = (Return r, w')
    /\ exists t, trace w' = (trace w ++ t)%list /\ weight renamed t = 0%nat.
Proof.
  assert (Hk : keeps (fun e => renamed e = 0%nat)
                 (get_batch_info_from_images_renamer E batch)).
  { unfold get_batch_info_from_images_renamer. destruct (negb _); [apply keeps_ret|].
    apply image_batch_attempts_no_rename. }
  assert (Hsafe : safe (get_batch_info_from_images_renamer E batch)).
  { unfold get_batch_info_from_images_renamer. destruct (negb _); [apply safe_ret|].
    apply safe_image_batch_attempts. }
  specialize (Hsafe w). unfold wp in Hsafe.
  destruct (get_batch_info_from_images_renamer E batch w) as [[r|e] w'] eqn:Hr; [|done].
  exists r, w'. split; [done|].
  destruct (keeps_run _ _ _ _ _ Hk Hr) as (t & Ht & F). exists t. split; [done|].
  clear Ht. unfold weight.
  induction F as [|e t He _ IH]; [done|]. simpl. by rewrite He.
Qed.

Lemma process_batch_spec use_delay all_files file_index l w :
  exists l' w',
    process_batch E use_delay all_files file_index l w = (Return l', w')
    /\ renamer_step (slice all_files file_index) l w l' w'.
Proof.
  unfold process_batch.
  destruct (open_batch_spec (slice all_files file_index) [] l w)
    as (opened & q & l1 & w1 & Hr & Ht & Hq & Hc & Hsub & Hin).
  unfold bind at 1. rewrite Hr. simpl.
  assert (Htail : forall l2 w2,
            renamer_step (slice all_files file_index) l w l2 w2 ->
            exists l' w',
              ((if use_delay && (file_index + BATCH_SIZE <? length all_files)%nat
                then sleep 5 else ret tt) ;; ret l2) w2 = (Return l', w')
              /\ renamer_step (slice all_files file_index) l w l' w').
  { intros l2 w2 Hs. destruct (_ && _); run_monad; eexists _, _; (split; [reflexivity|]);
      [|done].
    destruct Hs as (t & q' & Ht' & Hq' & Hc' & Hb' & Hf').
    exists (t ++ [Sleep 5])%list, q'. simpl.
    split; [by rewrite Ht', app_assoc|]. split; [done|].
    split; [rewrite weight_app; simpl; lia|].
    split; [rewrite weight_app; simpl; lia|].
    intros f Hf. destruct (Hf' f Hf) as [H|[dst H]]; [by left|].
    right. exists dst. apply elem_of_app. by left. }
  destruct opened as [|b opened].
  - unfold bind at 1. simpl. apply Htail.
    exists [], q. rewrite app_nil_r. repeat split; try done; [simpl; lia|simpl; lia|].
    intros f Hf. destruct (Hin f Hf) as [H|H]; [by apply elem_of_nil in H | by left].
  - unfold bind at 1. unfold bind at 1.
    destruct (get_batch_info_spec (b :: opened) w1) as (r & w2 & Hr2 & t2 & Ht2 & Hw2).
    rewrite Hr2.
    destruct r as [[|d ds]|].
    + apply Htail. exists t2, (q ++ slice all_files file_index)%list.
      split; [congruence|]. split; [simpl; by rewrite Hq, app_assoc|].
      split; [simpl; lia|]. split; [lia|].
      intros f Hf. left. apply elem_of_app. by right.
    + destruct (rename_batch_spec (d :: ds) (b :: opened) l1 w2) as (l3 & w3 & Hr3 & Hs3).
      rewrite Hr3. apply Htail.
      destruct Hs3 as (t3 & q3 & Ht3 & Hq3 & Hc3 & Hb3 & Hf3).
      exists (t2 ++ t3)%list, (q ++ q3)%list.
      split; [by rewrite Ht3, Ht2, Ht, app_assoc|].
      split; [by rewrite Hq3, Hq, app_assoc|].
      split; [rewrite weight_app; lia|].
      split; [rewrite weight_app; apply sublist_length in Hsub; lia|].
      intros f Hf. destruct (Hin f Hf) as [H|H];
        [|left; apply elem_of_app; by left].
      destruct (Hf3 f H) as [H'|[dst H']]; [left; apply elem_of_app; by right|].
      right. exists dst. apply elem_of_app. by right.
    + apply Htail. exists t2, (q ++ slice all_files file_index)%list.
      split; [congruence|]. split; [simpl; by rewrite Hq, app_assoc|].
      split; [simpl; lia|]. split; [lia|].
      intros f Hf. left. apply elem_of_app. by right.
Qed.

Lemma drop_slice (all_files : list string) file_index :
  drop file_index all_files
  = (slice all_files file_index ++ drop (file_index + BATCH_SIZE) all_files)%list.
Proof. unfold slice. by rewrite <- drop_drop, take_drop. Qed.

Lemma batch_loop_spec fuel use_delay all_files file_index l w :
  (length all_files <= file_index + fuel * BATCH_SIZE)%nat ->
  exists l' w',
    batch_loop E fuel use_delay all_files file_index l w = (Return l', w')
    /\ renamer_step (drop file_index all_files) l w l' w'.
Proof.
  revert file_index l w. induction fuel as [|fuel IH]; intros file_index l w Hlen; simpl.
  - exists l, w. split; [done|]. rewrite drop_ge by lia. apply renamer_step_refl.
  - destruct (file_index <? length all_files)%nat eqn:Hlt.
    + destruct (process_batch_spec use_delay all_files file_index l w)
        as (l1 & w1 & Hr1 & Hs1).
      unfold bind. rewrite Hr1.
      destruct (IH (file_index + BATCH_SIZE)%nat l1 w1) as (l2 & w2 & Hr2 & Hs2); [lia|].
      exists l2, w2. split; [done|]. rewrite drop_slice.
      by eapply renamer_step_trans.
    + apply Nat.ltb_ge in Hlt. exists l, w. split; [done|].
      rewrite drop_ge by lia. apply renamer_step_refl.
Qed.
End Steps.

(** X13: the renamer loses no file.  Its loop ends, without an exception,
    with every eligible file of the folder renamed or in the retry queue; its
    counter is the number of renames that went through, at most one per
    eligible file. *)
Theorem renamer_renames_or_queues_every_file E use_delay d w :
  exists l w',
    renamer_run E use_delay d w = (Return l, w')
    /\ batch_processed_count l = weight renamed (added w w')
    /\ (batch_processed_count l <= length (eligible_files d))%nat
    /\ forall f, f ∈ eligible_files d ->
         f ∈ failed_files_for_retry l \/ exists dst, Rename f dst ∈ added w w'.
Proof.
  unfold renamer_run. fold (eligible_files d).
  unfold bind at 1. unfold log_message at 1, emit at 1.
  destruct (batch_loop_spec E (length (eligible_files d)) use_delay (eligible_files d) 0
              {| batch_processed_count := 0; failed_files_for_retry := [] |}
              (set_trace (trace w ++ [Log (MsgRenamerFound (length (eligible_files d)))]) w))
    as (l & w' & Hr & t & q & Ht & Hq & Hc & Hb & Hf).
  { unfold BATCH_SIZE. lia. }
  exists l, w'. split; [exact Hr|]. simpl in *.
  erewrite added_app; [|reflexivity|rewrite Ht, <- app_assoc; reflexivity].
  rewrite drop_0 in Hb, Hf.
  split; [by rewrite Hc|]. split; [lia|].
  intros f Hin. destruct (Hf f Hin) as [H|[dst H]].
  - left. by rewrite Hq.
  - right. exists dst. by right.
Qed.

(** X14: [execute_image_renamer] raises only when the folder cannot be
    listed: the listing sits outside any [try], and every failure after it
    is caught.  Once the folder is listed the call returns the number of
    renames that went through, at most one per eligible file, and its last
    log line reports that number; when the folder is missing it returns 0
    after saying so; when the listing fails the exception escapes with
    nothing renamed. *)
Theorem renamer_returns_rename_count E use_delay w :
  match images w with
  | Some d =>
      if images_listable E then
        exists n w',
          execute_image_renamer E use_delay w = (Return n, w')
          /\ n = weight renamed (added w w')
          /\ (n <= length (eligible_files d))%nat
          /\ last (trace w') = Some (Log (MsgRenamerComplete n))
      else
        exists w',
          execute_image_renamer E use_delay w = (Raise OtherException, w')
          /\ added w w' = [Log MsgRenamerStart]
          /\ images w' = images w
  | None =>
      exists w',
        execute_image_renamer E use_delay w = (Return 0%nat, w')
        /\ added w w' = [Log MsgRenamerStart; Log MsgRenamerNoFolder]
  end.
Proof.
  destruct (images w) as [d|] eqn:Hd; [destruct (images_listable E) eqn:Hlist|].
  all: unfold execute_image_renamer.
  all: unfold bind at 1; unfold log_message at 1, emit at 1.
  all: unfold bind at 1; unfold get_world at 1; simpl; rewrite Hd, ?Hlist; simpl.
  - set (w1 := set_trace (trace w ++ [Log MsgRenamerStart]) w).
      unfold renamer_run. fold (eligible_files d).
      unfold bind at 2. unfold log_message at 1, emit at 1.
      destruct (batch_loop_spec E (length (eligible_files d)) use_delay (eligible_files d) 0
                  {| batch_processed_count := 0; failed_files_for_retry := [] |}
                  (set_trace (trace w1 ++ [Log (MsgRenamerFound (length (eligible_files d)))]) w1))
        as (l & w' & Hr & t & q & Ht & Hq & Hc & Hb & Hf).
      { unfold BATCH_SIZE. lia. }
      unfold bind at 1. rewrite Hr. run_monad.
      eexists _, _. split; [reflexivity|]. simpl in *. rewrite drop_0 in Hb.
      erewrite added_app; [|reflexivity|simpl; rewrite Ht, <- !app_assoc; reflexivity].
      split; [|split; [lia|by rewrite last_snoc]].
      rewrite Hc. rewrite !weight_app. simpl. lia.
  - unfold raise. eexists. split; [reflexivity|]. split; [|done].
    erewrite added_app; [|reflexivity|simpl; reflexivity]. done.
  - run_monad. eexists. split; [reflexivity|].
    erewrite added_app; [|reflexivity|simpl; rewrite <- !app_assoc; reflexivity].
    done.
Qed.

(* ===================================================================== *)
(** ** The footprint of the renamer                                        *)
(* ===================================================================== *)

Lemma startswith_append p s : PyStr.startswith p (p +:+ s) = true.
Proof.
  induction p as [|a p IH]; simpl; [done|]. by rewrite Ascii.eqb_refl, IH.
Qed.

Lemma contains_unfold p s :
  PyStr.contains p s
  = PyStr.startswith p s
    || match s with EmptyString => false | String _ r => PyStr.contains p r end.
Proof. by destruct s. Qed.

Lemma contains_append x p s : PyStr.contains p (x +:+ (p +:+ s)) = true.
Proof.
  induction x as [|a x IH].
  - change ("" +:+ (p +:+ s)) with (p +:+ s).
    by rewrite contains_unfold, startswith_append.
  - change (String a x +:+ (p +:+ s)) with (String a (x +:+ (p +:+ s))).
    rewrite contains_unfold, IH. apply orb_true_r.
Qed.

Lemma append_assoc_r (a b c : string) : (a +:+ b) +:+ c = a +:+ (b +:+ c).
Proof.
  induction a as [|x a IH]; [done|].
  change ((String x a +:+ b) +:+ c) with (String x ((a +:+ b) +:+ c)).
  by rewrite IH.
Qed.

(** A name that the renamer produces is not eligible for renaming. *)
Lemma marked_not_eligible x ext : eligible ((x +:+ PROCESSED_SUFFIX) +:+ ext) = false.
Proof.
  unfold eligible. rewrite append_assoc_r, contains_append. simpl. apply andb_false_r.
Qed.

Lemma elem_of_eligible_files d f :
  f ∈ eligible_files d <-> is_Some (d !! f) /\ eligible f = true.
Proof.
  unfold eligible_files. rewrite list_elem_of_filter, list_elem_of_fmap. split.
  - intros [He ([k v] & -> & Hin)]. apply elem_of_map_to_list in Hin. simpl in *. eauto.
  - intros [[v Hv] He]. split; [done|]. exists (f, v). split; [done|].
    by apply elem_of_map_to_list.
Qed.

Section RenamerFootprint.
Variable E : Env.
Variable d : gmap string nat.

Lemma keeps_rename_batch_event result_map batch l :
  Forall (fun f => f ∈ eligible_files d) batch ->
  keeps (renamer_event d) (rename_batch E result_map batch l).
Proof.
  revert l. induction batch as [|f batch IH]; intros l Hall; simpl.
  - apply keeps_ret.
  - apply Forall_cons in Hall as [Hf Hall].
    destruct (result_get f result_map) as [info|]; [|by apply IH].
    apply keeps_bind; [|intros; by apply IH].
    apply keeps_try; [|intros; apply keeps_ret].
    apply keeps_bind; [|intros; apply keeps_ret].
    unfold os_rename. keeps_go. simpl.
    apply elem_of_eligible_files in Hf as [Hin He].
    split; [done|]. split; [done|]. split; [by eexists|].
    apply marked_not_eligible.
Qed.

Lemma keeps_image_batch_attempts_event fuel retries filenames :
  renamer_event d (Agent (AskImageBatch filenames)) ->
  keeps (renamer_event d) (image_batch_attempts E fuel retries filenames).
Proof.
  intros Hb. revert retries.
  induction fuel as [|fuel IH]; intros retries; simpl; [apply keeps_ret|].
  keeps_go; try done. simpl. by right.
Qed.

Lemma keeps_process_batch_event use_delay file_index l :
  keeps (renamer_event d) (process_batch E use_delay (eligible_files d) file_index l).
Proof.
  unfold process_batch.
  apply (keeps_bind_value _ _ _
           (fun r => fst r `sublist_of` slice (eligible_files d) file_index)).
  { apply keeps_open_batch_any. }
  { intros w. unfold wp.
    destruct (open_batch_spec E (slice (eligible_files d) file_index) [] l w)
      as (opened & q & l' & w' & Hr & _ & _ & _ & Hsub & _).
    by rewrite Hr. }
  intros [batch l1] Hsub. simpl in *.
  assert (Hall : Forall (fun f => f ∈ eligible_files d) batch).
  { apply Forall_forall. intros f Hf.
    pose proof (elem_of_sublist _ _ _ Hf Hsub) as Hin.
    unfold slice in Hin. apply elem_of_take in Hin as (i & Hi & _).
    rewrite lookup_drop in Hi. by eapply list_elem_of_lookup_2. }
  apply keeps_bind.
  { destruct batch as [|b batch]; [apply keeps_ret|].
    apply keeps_bind.
    - unfold get_batch_info_from_images_renamer. destruct (negb _); [apply keeps_ret|].
      apply keeps_image_batch_attempts_event. simpl.
      split; [done|]. split.
      + apply sublist_length in Hsub. unfold slice in Hsub.
        rewrite length_take in Hsub. unfold BATCH_SIZE in *.
        change (length (b :: batch)) with (S (length batch)) in Hsub. lia.
      + eapply Forall_impl; [exact Hall|]. intros f Hf. by apply elem_of_eligible_files.
    - intros [[|x xs]|]; try apply keeps_ret. by apply keeps_rename_batch_event. }
  intros l2. apply keeps_bind; [|intros; apply keeps_ret].
  destruct (_ && _); [apply keeps_sleep; simpl; by left | apply keeps_ret].
Qed.

Lemma keeps_batch_loop_event fuel use_delay file_index l :
  keeps (renamer_event d) (batch_loop E fuel use_delay (eligible_files d) file_index l).
Proof.
  revert file_index l. induction fuel as [|fuel IH]; intros file_index l; simpl.
  - apply keeps_ret.
  - destruct (_ <? _)%nat; [|apply keeps_ret].
    apply keeps_bind; [apply keeps_process_batch_event | intros; apply IH].
Qed.
End RenamerFootprint.

(** X15: the footprint of the renamer.  Whatever the oracle and the
    filesystem do, a run of [execute_image_renamer] on a folder that holds
    [d] only renames files of [d] that are images without the marker, and
    only to names with the marker, which are not eligible again, so a second
    run leaves them alone; each request to the oracle is a batch request
    about at least one and at most [BATCH_SIZE] such files; nothing is
    moved, no directory is created, the map file is not written. *)
Theorem renamer_footprint E use_delay w :
  Forall (renamer_event (default ∅ (images w)))
    (added w (snd (execute_image_renamer E use_delay w))).
Proof.
  apply emits_added.
  unfold execute_image_renamer.
  unfold bind at 1. unfold log_message at 1, emit at 1.
  unfold bind at 1. unfold get_world at 1. simpl.
  set (w1 := set_trace (trace w ++ [Log MsgRenamerStart]) w).
  assert (H1 : emits (renamer_event (default ∅ (images w))) w w1).
  { eexists. split; [reflexivity|]. by repeat constructor. }
  eapply emits_trans; [exact H1|].
  eapply keeps_run; [|apply surjective_pairing].
  destruct (images w) as [d|]; simpl.
  - destruct (negb (images_listable E)); [apply keeps_raise|].
    apply keeps_bind.
    { unfold renamer_run. fold (eligible_files d).
      apply keeps_bind; [by apply keeps_log|]. intros _.
      apply keeps_batch_loop_event. }
    intros l. keeps_go. done.
  - keeps_go; done.
Qed.

(* ===================================================================== *)
(** ** The files of the folder under repair                                *)
(* ===================================================================== *)

Lemma same_files_refl original c (d : gmap string nat) :
  d !! original = Some c -> same_files_but original c d d.
Proof. intros Ho. split; [done|]. split; [done|]. exists original. auto. Qed.

Lemma same_files_renamed original c (d : gmap string nat) n :
  d !! original = Some c -> d !! n = None ->
  same_files_but original c d (<[n := c]> (delete original d)).
Proof.
  intros Ho Hn. assert (n ≠ original) by congruence.
  split; [|split].
  - rewrite map_size_insert_None by (by rewrite lookup_delete_ne).
    rewrite map_size_delete_Some by eauto.
    assert (size d ≠ 0%nat); [|lia].
    intros H0. apply map_size_empty_inv in H0. subst. by rewrite lookup_empty in Ho.
  - intros f c' Hf Hc. assert (f ≠ n) by congruence.
    by rewrite lookup_insert_ne, lookup_delete_ne.
  - exists n. rewrite lookup_insert_eq. auto.
Qed.

(** A repair whose first rename does not go through. *)
Lemma retry_refused_eval E original w d :
  gemini_client E = true ->
  images w = Some d ->
  let temp := "temp_retry_" +:+ uuid4_hex8 E (tick w) +:+ PyStr.splitext_ext original in
  d !! temp = None ->
  (d !! original = None \/ rename_ok E (S (tick w)) = false) ->
  exists w',
    retry_failed_file_renamer E original w = (Return false, w')
    /\ images w' = images w
    /\ added w w' = [Log (MsgRetryAttempt original); Log (MsgRetryFailed original);
                     Log MsgRestoreFatal].
Proof.
  intros Hc Hd temp Ht Hno.
  unfold retry_failed_file_renamer. rewrite Hc. simpl.
  unfold bind at 1. unfold log_message at 1, emit at 1.
  unfold bind at 1. unfold instant at 1. simpl. fold temp.
  unfold try_except. unfold bind at 1.
  unfold os_rename at 1. run_monad.
  assert (Hrestore : forall w2,
            images w2 = Some d ->
            exists w', restore_name E original temp w2 = (Return false, w')
              /\ images w' = images w2
              /\ trace w' = (trace w2 ++ [Log (MsgRetryFailed original);
                                          Log MsgRestoreFatal])%list).
  { intros w2 H2. unfold restore_name, os_rename. run_monad.
    destruct (rename_ok E (tick w2)); simpl; rewrite ?H2, ?Ht; simpl;
      eexists; (split; [reflexivity|]); simpl; by rewrite <- app_assoc. }
  destruct (rename_ok E (S (tick w))) eqn:Hok; simpl.
  - destruct Hno as [Hno|Hno]; [|done]. rewrite Hd, Hno.
    edestruct Hrestore as (w' & Hr & Hi & Htr); [|rewrite Hr].
    { simpl. exact Hd. }
    exists w'. split; [done|]. split; [by rewrite Hi|].
    erewrite added_app; [|reflexivity|rewrite Htr; simpl; rewrite <- app_assoc; reflexivity].
    done.
  - edestruct Hrestore as (w' & Hr & Hi & Htr); [|rewrite Hr].
    { simpl. exact Hd. }
    exists w'. split; [done|]. split; [by rewrite Hi|].
    erewrite added_app; [|reflexivity|rewrite Htr; simpl; rewrite <- app_assoc; reflexivity].
    done.
Qed.

(** X16: the single-item repair loses no file.  When the temporary name it
    draws is free, then whatever the oracle and the filesystem do, the folder
    it leaves has as many files as before, every other file is there under
    its name with its content, and the content of the repaired file is under
    its original name or under a name that was free: the temporary one when
    the restore failed, the new one when the repair succeeded. *)
Theorem repair_loses_no_file E original w d c :
  let temp := "temp_retry_" +:+ uuid4_hex8 E (tick w) +:+ PyStr.splitext_ext original in
  images w = Some d ->
  d !! original = Some c ->
  d !! temp = None ->
  exists d', images (snd (retry_failed_file_renamer E original w)) = Some d'
             /\ same_files_but original c d d'.
Proof.
  intros temp Hd Ho Ht.
  destruct (gemini_client E) eqn:Hc.
  2:{ exists d. unfold retry_failed_file_renamer. rewrite Hc. simpl.
      split; [done | by apply same_files_refl]. }
  destruct (rename_ok E (S (tick w))) eqn:Hok.
  2:{ destruct (retry_refused_eval E original w d Hc Hd Ht (or_intror Hok))
        as (w' & Hr & Hi & _).
      exists d. rewrite Hr. simpl. rewrite Hi. split; [done | by apply same_files_refl]. }
  assert (Hr1 : rename_allowed E d original temp (S (tick w)) = true).
  { unfold rename_allowed. rewrite Hok, Ht. done. }
  destruct (retry_failed_file_renamer E original w) as [r w'] eqn:Hrun.
  destruct (retry_eval E original w d c Hc Hd Ho Hr1 r w' Hrun)
    as [(-> & Hopen & (t & Hrep & Hne) & Hr4)|(-> & [(_ & Hi & _)|(_ & Hi & _)])].
  - destruct (repair_succeeds E original w d c t Hc Hd Ho Hr1 Hopen Hrep Hne Hr4)
      as (new & w2 & Hrun2 & Hfree & Hi).
    fold temp in Hfree, Hi.
    rewrite Hrun in Hrun2. injection Hrun2 as <-.
    simpl. rewrite Hi. eexists. split; [reflexivity|].
    assert (new ≠ temp) by (intros ->; by rewrite lookup_insert_eq in Hfree).
    rewrite lookup_insert_ne in Hfree by done.
    destruct (decide (new = original)) as [->|Hn].
    + (* the new name is the original one, which the first rename freed *)
      rewrite rename_back, rename_back_fresh by done. by apply same_files_refl.
    + rewrite lookup_delete_ne in Hfree by done.
      rewrite delete_insert_eq, (delete_id (delete original d) temp)
        by (rewrite lookup_delete_ne; [done|congruence]).
      by apply same_files_renamed.
  - simpl. rewrite Hi. eexists. split; [reflexivity|].
    rewrite rename_back_fresh by done. by apply same_files_refl.
  - simpl. rewrite Hi. eexists. split; [reflexivity|]. by apply same_files_renamed.
Qed.

(** The repair of [a.png] next to [Cat_DESC.png]: both contents are still
    there afterwards. *)
Lemma repair_loses_no_file_witness :
  let w := start (Some collision_images) in
  exists d', images (snd (retry_failed_file_renamer (cat_env true) "a.png" w)) = Some d'
             /\ same_files_but "a.png" 1%nat collision_images d'.
Proof.
  intros w.
  apply (repair_loses_no_file (cat_env true) "a.png" w collision_images 1%nat);
    reflexivity.
Defined.

(** X17: a repair whose first rename does not go through (the file is
    gone, or the filesystem refuses) still runs its restoring branch, which
    tries to rename the temporary name back although nothing bears it: the
    rename back fails too, so the repair logs the fatal line about a file
    name that could not be restored, while the folder is exactly as before.
    The oracle is not asked. *)
Theorem refused_first_rename_is_reported_fatal E original w d :
  let temp := "temp_retry_" +:+ uuid4_hex8 E (tick w) +:+ PyStr.splitext_ext original in
  gemini_client E = true ->
  images w = Some d ->
  d !! temp = None ->
  (d !! original = None \/ rename_ok E (S (tick w)) = false) ->
  exists w',
    retry_failed_file_renamer E original w = (Return false, w')
    /\ images w' = images w
    /\ added w w' = [Log (MsgRetryAttempt original); Log (MsgRetryFailed original);
                     Log MsgRestoreFatal].
Proof.
  intros temp Hc Hd Ht Hno. exact (retry_refused_eval E original w d Hc Hd Ht Hno).
Qed.

(** A filesystem that refuses every rename: the fatal line is logged and
    [a.png] is still there. *)
Lemma refused_first_rename_is_reported_fatal_witness :
  let w := start (Some lone_image) in
  exists w',
    retry_failed_file_renamer no_rename_env "a.png" w = (Return false, w')
    /\ images w' = images w
    /\ added w w' = [Log (MsgRetryAttempt "a.png"); Log (MsgRetryFailed "a.png");
                     Log MsgRestoreFatal].
Proof.
  intros w.
  apply (refused_first_rename_is_reported_fatal no_rename_env "a.png" w lone_image);
    [reflexivity | reflexivity | reflexivity | right; reflexivity].
Defined.

(* ===================================================================== *)
(** ** Names                                                               *)
(* ===================================================================== *)
Lemma chars_cons c s : chars (String c s) = c :: chars s.
Proof. reflexivity. Qed.

Lemma chars_rev_app s1 s2 :
  chars (String.rev_app s1 s2) = (rev (chars s1) ++ chars s2)%list.
Proof.
  revert s2. induction s1 as [|c s1 IH]; intros s2; simpl; [done|].
  rewrite IH. simpl. by rewrite <- app_assoc.
Qed.

Lemma chars_rev s : chars (String.rev s) = rev (chars s).
Proof. unfold String.rev. by rewrite chars_rev_app, app_nil_r. Qed.

Lemma string_rev_append s t : String.rev (s +:+ t) = String.rev t +:+ String.rev s.
Proof.
  apply chars_inj. fold (chars (String.rev (s +:+ t))).
  fold (chars (String.rev t +:+ String.rev s)).
  unfold chars at 2. rewrite chars_append. fold (chars (String.rev t)).
  fold (chars (String.rev s)). rewrite !chars_rev.
  unfold chars at 1. rewrite chars_append. by rewrite rev_app_distr.
Qed.

Lemma elem_of_rev {A} (x : A) (l : list A) : x ∈ rev l <-> x ∈ l.
Proof.
  induction l as [|a l IH]; simpl; [done|].
  rewrite elem_of_app, !elem_of_cons, IH, elem_of_nil. tauto.
Qed.

Lemma chars_lstrip s c : c ∈ chars (PyStr.lstrip s) -> c ∈ chars s.
Proof.
  induction s as [|x s IH]; simpl; [done|].
  destruct (PyStr.is_space x); [|done]. intros H. right. by apply IH.
Qed.

Lemma chars_strip s c : c ∈ chars (PyStr.strip s) -> c ∈ chars s.
Proof.
  unfold PyStr.strip, PyStr.rstrip. rewrite chars_rev, elem_of_rev. intros H.
  apply chars_lstrip in H. rewrite chars_rev, elem_of_rev in H.
  by apply chars_lstrip.
Qed.

Lemma chars_replace a b s c :
  c ∈ chars (PyStr.replace a b s) -> c ≠ a /\ c ∈ chars s \/ c = b.
Proof.
  induction s as [|x s IH]; simpl; [by intros H%elem_of_nil|].
  intros [->|H]%elem_of_cons.
  - destruct (Ascii.eqb x a) eqn:Hx; [by right|].
    apply Ascii.eqb_neq in Hx. left. split; [done | by left].
  - apply IH in H as [[? ?]|?]; [left; split; [done | by right] | by right].
Qed.

Lemma filter_chars_id p s :
  (forall c, c ∈ chars s -> p c = true) -> PyStr.filter_chars p s = s.
Proof.
  induction s as [|x s IH]; simpl; [done|]. intros H.
  rewrite (H x) by by left. rewrite IH; [done|]. intros c Hc. apply H. by right.
Qed.

Lemma replace_id a b s : a ∉ chars s -> PyStr.replace a b s = s.
Proof.
  induction s as [|x s IH]; simpl; [done|]. intros H.
  apply not_elem_of_cons in H as [Hx Hs].
  destruct (Ascii.eqb x a) eqn:Heq; [apply Ascii.eqb_eq in Heq; congruence|].
  by rewrite IH.
Qed.

(** X18: normalising a category name twice is normalising it once, so a
    name that the record operation has produced is recorded and used as a
    folder name under itself. *)
Theorem safe_name_idempotent folder_name :
  safe_name (safe_name folder_name) = safe_name folder_name.
Proof.
  unfold safe_name at 1. unfold PyStr.re_sub_non_word.
  rewrite filter_chars_id.
  - apply replace_id. intros H. by apply safe_name_chars in H as [_ H].
  - intros c Hc. by apply safe_name_chars in Hc as [Hc _].
Qed.

(** X19: the base of a new file name is made of word characters and of
    blanks other than the space: whatever title the oracle gives, it holds no
    space, no hyphen, no dot and no path separator. *)
Theorem clean_title_characters title :
  Forall (fun c =>
            (PyStr.is_word c = true \/ PyStr.is_space c = true)
            /\ c <> " "%char /\ c <> "-"%char /\ c <> "."%char
            /\ c <> "/"%char /\ c <> "\"%char)
    (chars (clean_title title)).
Proof.
  apply Forall_forall. intros c H. unfold clean_title in H.
  assert (Hc : c = "_"%char
               \/ (c <> " "%char /\ c <> "-"%char /\ PyStr.kept c = true)).
  { apply chars_replace in H as [[Hh H]| ->]; [|by left].
    apply chars_replace in H as [[Hs H]| ->]; [|by left].
    apply chars_strip in H. apply chars_filter in H as [Hk _]. right. done. }
  destruct Hc as [->|(Hs & Hh & Hk)]; [by vm_compute; repeat split; try left|].
  unfold PyStr.kept in Hk.
  destruct c as [[] [] [] [] [] [] [] []]; vm_compute in Hk; try discriminate Hk;
    try (by destruct Hs); try (by destruct Hh);
    (split; [vm_compute; auto | repeat split; done]).
Qed.

(* ===================================================================== *)
(** ** The configuration file, saved and loaded                            *)
(* ===================================================================== *)
Lemma append_cons c s t : String c s +:+ t = String c (s +:+ t).
Proof. reflexivity. Qed.

Lemma append_nil_l t : "" +:+ t = t.
Proof. reflexivity. Qed.

Lemma chars_app s t : chars (s +:+ t) = (chars s ++ chars t)%list.
Proof. apply chars_append. Qed.

Lemma universal_newlines_id s : CR ∉ chars s -> universal_newlines s = s.
Proof.
  induction s as [|c s IH]; [done|]. rewrite chars_cons. intros H.
  apply not_elem_of_cons in H as [Hc Hs]. simpl.
  destruct (Ascii.eqb c CR) eqn:Heq; [apply Ascii.eqb_eq in Heq; congruence|].
  by rewrite IH.
Qed.

Lemma readlines_line a b :
  LF ∉ chars a -> readlines (a +:+ String LF b) = (a +:+ String LF "") :: readlines b.
Proof.
  induction a as [|c a IH]; intros H.
  - rewrite !append_nil_l. reflexivity.
  - rewrite chars_cons in H. apply not_elem_of_cons in H as [Hc Ha].
    rewrite !append_cons. simpl.
    destruct (Ascii.eqb c LF) eqn:Heq; [apply Ascii.eqb_eq in Heq; congruence|].
    by rewrite IH.
Qed.

Lemma lstrip_append x t :
  (PyStr.lstrip x = "" /\ PyStr.lstrip (x +:+ t) = PyStr.lstrip t)
  \/ (PyStr.lstrip x <> "" /\ PyStr.lstrip (x +:+ t) = PyStr.lstrip x +:+ t).
Proof.
  induction x as [|c x IH].
  - left. by rewrite append_nil_l.
  - rewrite append_cons. simpl. destruct (PyStr.is_space c); [exact IH|].
    right. by rewrite append_cons.
Qed.

Lemma rstrip_append_space y c :
  PyStr.is_space c = true -> PyStr.rstrip (y +:+ String c "") = PyStr.rstrip y.
Proof.
  intros Hc. unfold PyStr.rstrip. rewrite string_rev_append.
  change (String.rev (String c "")) with (String c "").
  rewrite append_cons, append_nil_l. simpl. by rewrite Hc.
Qed.

(** A blank at the end does not survive [strip]. *)
Lemma strip_append_space x c :
  PyStr.is_space c = true -> PyStr.strip (x +:+ String c "") = PyStr.strip x.
Proof.
  intros Hc. unfold PyStr.strip.
  destruct (lstrip_append x (String c "")) as [[H1 H2]|[H1 H2]]; rewrite H2.
  - rewrite H1. simpl. by rewrite Hc.
  - by apply rstrip_append_space.
Qed.

(** X20: saving and loading again gives back what was saved, up to the
    blanks around it: whatever the file held before, when both values fit on one
    line and neither the writing nor the reading fails, [load_config] after
    [save_config] returns the key and the folder without their leading and
    trailing blanks, and prints no warning. *)
Theorem config_round_trip downloads_dir api_key folder_path file :
  single_line api_key -> single_line folder_path ->
  load_config downloads_dir ReadAll (fst (save_config Written api_key folder_path file))
  = (PyStr.strip api_key, PyStr.strip folder_path, false).
Proof.
  intros [Hk1 Hk2] [Hf1 Hf2].
  cbv beta iota zeta delta [save_config load_config fst].
  assert (Htext :
    ("GEMINI_API_KEY=" +:+ api_key +:+ String LF "")
    +:+ ("DEFAULT_FOLDER_PATH=" +:+ folder_path +:+ String LF "")
    = ("GEMINI_API_KEY=" +:+ api_key)
      +:+ String LF (("DEFAULT_FOLDER_PATH=" +:+ folder_path) +:+ String LF "")).
  { rewrite !append_assoc_r. reflexivity. }
  rewrite Htext. clear Htext.
  assert (Hno : forall (p v : string) (c : ascii),
            c ∉ chars p -> c ∉ chars v -> c ∉ chars (p +:+ v)).
  { intros p v c Hp Hv. rewrite chars_app, elem_of_app. tauto. }
  assert (Hp1 : forall c, c = LF \/ c = CR -> c ∉ chars "GEMINI_API_KEY=").
  { intros c Hc H. destruct Hc; subst c; vm_compute in H; not_in_list H. }
  assert (Hp2 : forall c, c = LF \/ c = CR -> c ∉ chars "DEFAULT_FOLDER_PATH=").
  { intros c Hc H. destruct Hc; subst c; vm_compute in H; not_in_list H. }
  rewrite universal_newlines_id.
  2:{ assert (Hcons : forall (x : ascii) (v : string),
                CR <> x -> CR ∉ chars v -> CR ∉ chars (String x v)).
      { intros x v Hx Hv. rewrite chars_cons. by apply not_elem_of_cons. }
      apply Hno; [apply Hno; [apply Hp1; by right | done]|].
      apply Hcons; [done|].
      apply Hno; [apply Hno; [apply Hp2; by right | done]|].
      apply Hcons; [done|]. apply not_elem_of_nil. }
  rewrite readlines_line by (apply Hno; [apply Hp1; by left | done]).
  rewrite readlines_line by (apply Hno; [apply Hp2; by left | done]).
  simpl readlines.
  cbv beta iota zeta delta [read_config_lines read_config_line].
  rewrite !(append_assoc_r _ _ (String LF "")).
  replace (PyStr.startswith "GEMINI_API_KEY="
             ("GEMINI_API_KEY=" +:+ api_key +:+ String LF ""))
    with true by reflexivity.
  replace (after_first "=" ("GEMINI_API_KEY=" +:+ api_key +:+ String LF ""))
    with (Some (api_key +:+ String LF "")) by reflexivity.
  replace (PyStr.startswith "GEMINI_API_KEY="
             ("DEFAULT_FOLDER_PATH=" +:+ folder_path +:+ String LF ""))
    with false by reflexivity.
  replace (PyStr.startswith "DEFAULT_FOLDER_PATH="
             ("DEFAULT_FOLDER_PATH=" +:+ folder_path +:+ String LF ""))
    with true by reflexivity.
  replace (after_first "=" ("DEFAULT_FOLDER_PATH=" +:+ folder_path +:+ String LF ""))
    with (Some (folder_path +:+ String LF "")) by reflexivity.
  by rewrite !strip_append_space.
Qed.

(** A key with blanks around it comes back without them. *)
Lemma config_round_trip_witness :
  load_config "/home/u/Downloads" ReadAll
    (fst (save_config Written " key " "/data" (Some "old")))
  = (PyStr.strip " key ", PyStr.strip "/data", false).
Proof.
  apply (config_round_trip "/home/u/Downloads" " key " "/data" (Some "old"));
    split; intros H; vm_compute in H; not_in_list H.
Defined.

(* ===================================================================== *)
(** ** The dialog of the exclusion list                                    *)
(* ===================================================================== *)
Lemma split_on_plain sep x : sep ∉ chars x -> split_on sep x = [x].
Proof.
  induction x as [|c x IH]; [done|]. rewrite chars_cons. intros H.
  apply not_elem_of_cons in H as [Hc Hx]. simpl.
  destruct (Ascii.eqb c sep) eqn:Heq; [apply Ascii.eqb_eq in Heq; congruence|].
  by rewrite IH.
Qed.

Lemma split_on_append sep x r :
  sep ∉ chars x -> split_on sep (x +:+ String sep r) = x :: split_on sep r.
Proof.
  induction x as [|c x IH]; intros H.
  - rewrite append_nil_l. simpl. by rewrite Ascii.eqb_refl.
  - rewrite chars_cons in H. apply not_elem_of_cons in H as [Hc Hx].
    rewrite append_cons. simpl.
    destruct (Ascii.eqb c sep) eqn:Heq; [apply Ascii.eqb_eq in Heq; congruence|].
    by rewrite IH.
Qed.

(** Splitting what [join] has put together gives the entries back, all but
    the first one behind a space. *)
Lemma split_join x l :
  Forall plain_entry (x :: l) ->
  split_on "," (join ", " (x :: l)) = x :: map (fun y => String " " y) l.
Proof.
  revert x. induction l as [|y l IH]; intros x Hall.
  - simpl. apply split_on_plain. by apply Forall_cons in Hall as [H _].
  - apply Forall_cons in Hall as [Hx Hall].
    change (join ", " (x :: y :: l)) with (x +:+ ", " +:+ join ", " (y :: l)).
    change (", " +:+ join ", " (y :: l))
      with (String "," (String " " (join ", " (y :: l)))).
    rewrite split_on_append by exact Hx.
    f_equal.
    change (split_on "," (String " " (join ", " (y :: l))))
      with (match split_on "," (join ", " (y :: l)) with
            | [] => [String " " ""]
            | h :: t => String " " h :: t
            end).
    by rewrite (IH y Hall).
Qed.

Lemma strip_leading_space y : PyStr.strip (String " " y) = PyStr.strip y.
Proof. reflexivity. Qed.

Lemma lower_char_space c : PyStr.is_space (PyStr.lower_char c) = PyStr.is_space c.
Proof. by destruct c as [[] [] [] [] [] [] [] []]. Qed.

Lemma lower_lstrip s : PyStr.lower (PyStr.lstrip s) = PyStr.lstrip (PyStr.lower s).
Proof.
  induction s as [|c s IH]; simpl; [done|].
  rewrite lower_char_space. by destruct (PyStr.is_space c).
Qed.

Lemma chars_lower s : chars (PyStr.lower s) = map PyStr.lower_char (chars s).
Proof. induction s as [|c s IH]; simpl; [done|]. by rewrite <- IH. Qed.

Lemma lower_rev s : PyStr.lower (String.rev s) = String.rev (PyStr.lower s).
Proof.
  apply chars_inj. fold (chars (PyStr.lower (String.rev s))).
  fold (chars (String.rev (PyStr.lower s))).
  by rewrite chars_lower, !chars_rev, chars_lower, map_rev.
Qed.

Lemma lower_strip s : PyStr.lower (PyStr.strip s) = PyStr.strip (PyStr.lower s).
Proof.
  unfold PyStr.strip, PyStr.rstrip.
  by rewrite lower_rev, lower_lstrip, lower_rev, lower_lstrip.
Qed.

Lemma lstrip_idem s : PyStr.lstrip (PyStr.lstrip s) = PyStr.lstrip s.
Proof.
  induction s as [|c s IH]; simpl; [done|].
  destruct (PyStr.is_space c) eqn:Hc; [done|]. simpl. by rewrite Hc.
Qed.

Lemma lstrip_head s :
  PyStr.lstrip s = s <->
  match s with EmptyString => True | String c _ => PyStr.is_space c = false end.
Proof.
  destruct s as [|c s]; simpl; [done|].
  destruct (PyStr.is_space c) eqn:Hc; split; try done.
  intros H. exfalso.
  assert (Hlen : (String.length (PyStr.lstrip s) <= String.length s)%nat).
  { clear. induction s as [|x s IH]; simpl; [lia|].
    destruct (PyStr.is_space x); simpl; lia. }
  rewrite H in Hlen. simpl in Hlen. lia.
Qed.

Lemma string_rev_involutive s : String.rev (String.rev s) = s.
Proof.
  apply chars_inj. fold (chars (String.rev (String.rev s))).
  by rewrite !chars_rev, rev_involutive.
Qed.

Lemma rstrip_idem s : PyStr.rstrip (PyStr.rstrip s) = PyStr.rstrip s.
Proof. unfold PyStr.rstrip. by rewrite string_rev_involutive, lstrip_idem. Qed.

(** [rstrip] leaves the first character alone when it is not a blank. *)
Lemma rstrip_head c r :
  PyStr.is_space c = false -> exists r', PyStr.rstrip (String c r) = String c r'.
Proof.
  intros Hc. unfold PyStr.rstrip.
  assert (Hrev : String.rev (String c r) = String.rev r +:+ String c "").
  { apply chars_inj. fold (chars (String.rev (String c r))).
    fold (chars (String.rev r +:+ String c "")).
    by rewrite chars_app, !chars_rev. }
  rewrite Hrev.
  destruct (lstrip_append (String.rev r) (String c "")) as [[H1 H2]|[H1 H2]]; rewrite H2.
  - exists "". simpl. by rewrite Hc.
  - rewrite string_rev_append. eexists. reflexivity.
Qed.

Lemma lstrip_rstrip_lstrip s :
  PyStr.lstrip (PyStr.rstrip (PyStr.lstrip s)) = PyStr.rstrip (PyStr.lstrip s).
Proof.
  destruct (PyStr.lstrip s) as [|c r] eqn:Hs; [done|].
  assert (Hc : PyStr.is_space c = false).
  { pose proof (lstrip_idem s) as Hi. rewrite Hs in Hi.
    by apply lstrip_head in Hi. }
  destruct (rstrip_head c r Hc) as [r' ->]. simpl. by rewrite Hc.
Qed.

Lemma strip_idem s : PyStr.strip (PyStr.strip s) = PyStr.strip s.
Proof.
  unfold PyStr.strip. by rewrite lstrip_rstrip_lstrip, rstrip_idem.
Qed.

Lemma split_on_no_sep sep s x : x ∈ split_on sep s -> sep ∉ chars x.
Proof.
  revert x. induction s as [|c s IH]; intros x; simpl.
  - intros ->%list_elem_of_singleton. apply not_elem_of_nil.
  - destruct (Ascii.eqb c sep) eqn:Heq.
    + intros [->|H]%elem_of_cons; [apply not_elem_of_nil | by apply IH].
    + apply Ascii.eqb_neq in Heq.
      destruct (split_on sep s) as [|h t] eqn:Hs.
      * intros ->%list_elem_of_singleton. rewrite chars_cons.
        apply not_elem_of_cons. split; [done | apply not_elem_of_nil].
      * intros [->|H]%elem_of_cons.
        -- rewrite chars_cons. apply not_elem_of_cons. split; [done|].
           apply IH. by left.
        -- apply IH. by right.
Qed.

Lemma lower_char_comma c : PyStr.lower_char c = ","%char -> c = ","%char.
Proof. by destruct c as [[] [] [] [] [] [] [] []]. Qed.

Lemma lower_truthy s : PyStr.truthy (PyStr.lower s) = PyStr.truthy s.
Proof. by destruct s. Qed.

Lemma parse_exclusions_entry s x :
  x ∈ parse_exclusions s ->
  x <> "" /\ PyStr.lower x = x /\ PyStr.strip x = x /\ plain_entry x.
Proof.
  unfold parse_exclusions. intros (item & -> & Hin)%list_elem_of_fmap.
  apply list_elem_of_filter in Hin as [Ht Hin].
  split; [|split; [|split]].
  - intros H. by rewrite <- lower_truthy, H in Ht.
  - apply lower_idem.
  - by rewrite <- lower_strip, strip_idem.
  - apply split_on_no_sep in Hin. unfold plain_entry.
    rewrite chars_lower. intros (c & Hc & Hx)%list_elem_of_fmap.
    symmetry in Hc. apply lower_char_comma in Hc. subst c.
    by apply chars_strip in Hx.
Qed.

Lemma parse_join l :
  Forall plain_entry l ->
  parse_exclusions (join ", " l)
  = map (fun x => PyStr.lower (PyStr.strip x))
      (filter (fun x => PyStr.truthy (PyStr.strip x) = true) l).
Proof.
  intros Hall. unfold parse_exclusions.
  destruct l as [|x l]; [done|].
  rewrite split_join by done. rewrite !filter_cons.
  assert (Htail :
    map (fun item => PyStr.lower (PyStr.strip item))
      (filter (fun item => PyStr.truthy (PyStr.strip item) = true)
         (map (fun y => String " " y) l))
    = map (fun x => PyStr.lower (PyStr.strip x))
        (filter (fun x => PyStr.truthy (PyStr.strip x) = true) l)).
  { clear. induction l as [|y l IH]; [done|].
    simpl map. rewrite !filter_cons, strip_leading_space.
    destruct (decide _); [|exact IH].
    simpl map. by rewrite strip_leading_space, IH. }
  destruct (decide _); [simpl map; by rewrite Htail | exact Htail].
Qed.

Lemma dict_keys_set k v m :
  dict_keys (dict_set k v m)
  = (dict_keys m ++ (if dict_has k m then [] else [k]))%list.
Proof.
  unfold dict_keys, dict_has.
  induction m as [|[k0 v0] m IH]; [done|]. simpl.
  destruct (String.eqb k k0) eqn:Hk; simpl.
  - by rewrite app_nil_r.
  - by rewrite IH.
Qed.

(** X21: every entry that the dialog of the exclusion list produces is in
    the form the sorter compares with: not empty, in lower case, without
    blanks around it and without a comma. *)
Theorem exclusion_entries_are_normalised new_exclusions_string :
  Forall (fun x => x <> "" /\ PyStr.lower x = x /\ PyStr.strip x = x /\ plain_entry x)
    (parse_exclusions new_exclusions_string).
Proof. apply Forall_forall. intros x. apply parse_exclusions_entry. Qed.

(** X22: confirming the dialog without a change changes nothing, once the
    list has gone through the dialog: what the dialog reads back from a list
    it has produced itself, shown as its initial value, is that list. *)
Theorem exclusion_dialog_round_trip s :
  parse_exclusions (join ", " (parse_exclusions s)) = parse_exclusions s.
Proof.
  rewrite parse_join.
  2:{ apply Forall_forall. intros x Hx.
      by apply parse_exclusions_entry in Hx as (_ & _ & _ & Hx). }
  assert (Hall : Forall (fun x => x <> "" /\ PyStr.lower x = x /\ PyStr.strip x = x)
                   (parse_exclusions s)).
  { apply Forall_forall. intros x Hx. apply parse_exclusions_entry in Hx. tauto. }
  induction Hall as [|x r (Hne & Hl & Hs) _ IH]; [done|].
  rewrite filter_cons, Hs.
  destruct (decide _) as [_|Hn]; [|by destruct x].
  simpl map. by rewrite Hs, Hl, IH.
Qed.

(** X23: a list that did not come from the dialog (the default one, or a
    map file edited by hand) is rewritten by an unchanged confirmation:
    provided no entry holds a comma, the dialog reads back the entries
    without the blanks around them and in lower case, the blank ones left
    out. *)
Theorem stored_exclusions_are_renormalised current_map l :
  dict_get "Exclusions" current_map = Some l ->
  Forall plain_entry l ->
  parse_exclusions (exclusions_string current_map)
  = map (fun x => PyStr.lower (PyStr.strip x))
      (filter (fun x => PyStr.truthy (PyStr.strip x) = true) l).
Proof.
  intros Hg Hall. unfold exclusions_string. rewrite Hg. simpl. by apply parse_join.
Qed.

(** The default list: its entry [README.md] comes back in lower case. *)
Lemma stored_exclusions_are_renormalised_witness :
  parse_exclusions (exclusions_string default_map)
  = map (fun x => PyStr.lower (PyStr.strip x))
      (filter (fun x => PyStr.truthy (PyStr.strip x) = true)
         [".temp"; ".lock"; "README.md"; "desktop.ini"]).
Proof.
  apply (stored_exclusions_are_renormalised default_map
           [".temp"; ".lock"; "README.md"; "desktop.ini"]).
  - reflexivity.
  - repeat constructor; intros H; vm_compute in H; not_in_list H.
Defined.

(** X24: what an edit of the exclusion list does to the map file.  The map
    is loaded first, which creates a missing file; a cancelled dialog then
    changes nothing more; a confirmed one writes the map back with the
    normalised entries as its exclusions and every category as it was, and
    says so, or fails to write it and says that.  After a failed write the
    file is as the load left it only if it could not be opened: a failure
    after [open] leaves it empty or cut short, and the map it held is
    lost. *)
Theorem edit_exclusion_list_effect E answer w :
  mkdir_ok E (tick w) = true ->
  exists current_map w0 r w',
    load_extension_map E w = (Return current_map, w0)
    /\ edit_exclusion_list E answer w = (Return r, w')
    /\ match answer (exclusions_string current_map) with
       | None => r = EditCancelled /\ w' = w0
       | Some new_exclusions_string =>
           let saved :=
             dict_set "Exclusions" (parse_exclusions new_exclusions_string) current_map in
           if write_ok E (tick w0) then
             r = EditSaved /\ map_file w' = Stored saved
             /\ dict_get "Exclusions" saved = Some (parse_exclusions new_exclusions_string)
             /\ (forall k, k ≠ "Exclusions" -> dict_get k saved = dict_get k current_map)
             /\ dict_keys saved
                = (dict_keys current_map ++
                   (if dict_has "Exclusions" current_map then [] else ["Exclusions"]))%list
           else
             r = EditSaveFailed
             /\ map_file w'
                = (if write_opens E (tick w0) then Unreadable else map_file w0)
       end.
Proof.
  intros Hmk.
  destruct (load_extension_map_returns E w Hmk) as (m & w0 & Hload).
  exists m, w0. unfold edit_exclusion_list. unfold bind at 1. rewrite Hload.
  destruct (answer (exclusions_string m)) as [s|].
  2:{ eexists _, _. split; [done|]. split; [reflexivity|]. done. }
  run_monad. destruct (write_ok E (tick w0)); [|destruct (write_opens E (tick w0))]; simpl.
  - eexists _, _. split; [done|]. split; [reflexivity|].
    split; [done|]. split; [done|]. split; [apply dict_get_set_eq|].
    split; [intros k Hk; by apply dict_get_set_ne|].
    apply dict_keys_set.
  - eexists _, _. split; [done|]. split; [reflexivity|]. done.
  - eexists _, _. split; [done|]. split; [reflexivity|]. done.
Qed.

(** A first start: the dialog shows the default exclusions and is answered
    with two entries. *)
Lemma edit_exclusion_list_effect_witness :
  let E := empty_env in
  let answer := fun _ : string => Some " .TMP, ,Desktop.ini" in
  let w := start None in
  exists current_map w0 r w',
    load_extension_map E w = (Return current_map, w0)
    /\ edit_exclusion_list E answer w = (Return r, w')
    /\ match answer (exclusions_string current_map) with
       | None => r = EditCancelled /\ w' = w0
       | Some new_exclusions_string =>
           let saved :=
             dict_set "Exclusions" (parse_exclusions new_exclusions_string) current_map in
           if write_ok E (tick w0) then
             r = EditSaved /\ map_file w' = Stored saved
             /\ dict_get "Exclusions" saved = Some (parse_exclusions new_exclusions_string)
             /\ (forall k, k <> "Exclusions" -> dict_get k saved = dict_get k current_map)
             /\ dict_keys saved
                = (dict_keys current_map ++
                   (if dict_has "Exclusions" current_map then [] else ["Exclusions"]))%list
           else
             r = EditSaveFailed
             /\ map_file w'
                = (if write_opens E (tick w0) then Unreadable else map_file w0)
       end.
Proof.
  intros E answer w. apply (edit_exclusion_list_effect E answer w). reflexivity.
Defined.

(* ===================================================================== *)
(** ** The PDF sorter                                                      *)
(* ===================================================================== *)

Ltac run_pdf :=
  cbv beta iota delta [pdf_bind pdf_try pdf_log pdf_emit pdf_guarded pdf_instant
    pdf_ret pdf_raise pdf_of_reply]; simpl.

Lemma pdf_added_app w t1 t2 w' :
  pdf_trace w = t1 -> pdf_trace w' = (t1 ++ t2)%list -> pdf_added w w' = t2.
Proof. intros H1 H2. unfold pdf_added. by rewrite H1, H2, drop_app_length. Qed.

Lemma pdf_attempts_step E fuel retries filename existing :
  pdf_attempts E (S fuel) retries filename existing
  = if (retries <? MAX_RETRIES)%nat then
      pdf_try
        (pdf_bind pdf_instant (fun n =>
         pdf_bind (pdf_emit (PdfAsk filename existing)) (fun _ =>
         pdf_bind (pdf_of_reply (classify_pdf E n)) (fun r =>
         pdf_ret (Some r)))))
        (fun e =>
           match e with
           | APIError =>
               pdf_bind (pdf_log (MsgPdfAgentError (S retries))) (fun _ =>
               pdf_bind (pdf_emit (PdfSleep RETRY_DELAY)) (fun _ =>
               pdf_attempts E fuel (S retries) filename existing))
           | OtherException => pdf_ret None
           end)
    else pdf_ret None.
Proof. reflexivity. Qed.

(** The PDF agent never raises, and all it adds to the trace are its
    requests, its error lines and its pauses. *)
Lemma pdf_attempts_spec E fuel retries filename existing w :
  exists r w' t,
    pdf_attempts E fuel retries filename existing w = (Return r, w')
    /\ pdf_trace w' = (pdf_trace w ++ t)%list
    /\ Forall (pdf_agent_event filename existing) t.
Proof.
  revert retries w. induction fuel as [|fuel IH]; intros retries w.
  - exists None, w, []. by rewrite app_nil_r.
  - rewrite pdf_attempts_step. destruct (retries <? MAX_RETRIES)%nat.
    2:{ exists None, w, []. by rewrite app_nil_r. }
    run_pdf. destruct (classify_pdf E (pdf_tick w)) as [a| |]; simpl.
    + eexists _, _, _. split; [reflexivity|]. split; [reflexivity|].
      by repeat constructor.
    + match goal with |- context [pdf_attempts E fuel (S retries) filename existing ?W] =>
        destruct (IH (S retries) W) as (r & w' & t & Hr & Ht & F) end.
      rewrite Hr. exists r, w', (PdfAsk filename existing
                                  :: PdfLog (MsgPdfAgentError (S retries))
                                  :: PdfSleep RETRY_DELAY :: t).
      split; [done|]. split.
      * rewrite Ht. simpl. by rewrite <- !app_assoc.
      * by repeat constructor.
    + eexists _, _, _. split; [reflexivity|]. split; [reflexivity|].
      by repeat constructor.
Qed.

Lemma classify_pdf_spec E filename existing w :
  exists r w' t,
    classify_pdf_by_image E filename existing w = (Return r, w')
    /\ pdf_trace w' = (pdf_trace w ++ t)%list
    /\ Forall (pdf_agent_event filename existing) t.
Proof.
  unfold classify_pdf_by_image. destruct (negb _).
  - exists None, w, []. by rewrite app_nil_r.
  - apply pdf_attempts_spec.
Qed.

Lemma weight_pdf_agent f (Hf : forall fn ex e, pdf_agent_event fn ex e -> f e = 0%nat)
    filename existing t :
  Forall (pdf_agent_event filename existing) t -> sum_list_with f t = 0%nat.
Proof.
  induction 1 as [|e t He _ IH]; [done|]. simpl. by rewrite (Hf _ _ _ He), IH.
Qed.

(** One iteration of the loop of the PDF sorter. *)
Lemma sort_pdf_spec E item l w :
  exists r w' t,
    sort_pdf E item l w = (r, w')
    /\ pdf_trace w' = (pdf_trace w ++ t)%list
    /\ Forall (pdf_item_event item l) t
    /\ sum_list_with pdf_moved t = sum_list_with pdf_reported t
    /\ (sum_list_with pdf_moved t <= if is_pdf item then 1 else 0)%nat
    /\ match r with
       | Return l' =>
           pdfs_processed l' = (pdfs_processed l + sum_list_with pdf_moved t)%nat
           /\ subfolders_grow item l l' t
       | Raise _ => pdf_mkdir_refused E
       end.
Proof.
  unfold sort_pdf. destruct (is_pdf item) eqn:Hpdf.
  2:{ exists (Return l), w, []. rewrite app_nil_r. simpl.
      repeat split; try done; try lia; by left. }
  unfold pdf_bind at 1. unfold pdf_log at 1, pdf_emit at 1. cbv beta iota.
  unfold pdf_bind at 1.
  match goal with |- context [classify_pdf_by_image E ?f ?ex ?W] =>
    destruct (classify_pdf_spec E f ex W) as (rec & w1 & t1 & Hr & Ht & F) end.
  rewrite Hr. simpl in Ht.
  assert (Hm1 : sum_list_with pdf_moved t1 = 0%nat).
  { eapply weight_pdf_agent; [|exact F]. intros fn ex e He. by destruct e as [[]| | | |]. }
  assert (Hp1 : sum_list_with pdf_reported t1 = 0%nat).
  { eapply weight_pdf_agent; [|exact F]. intros fn ex e He. by destruct e as [[]| | | |]. }
  assert (F1 : Forall (pdf_item_event item l) t1).
  { eapply Forall_impl; [exact F|]. intros e He.
    destruct e as [[]| | | |]; simpl in *; try done; by destruct He as [-> ->]. }
  assert (Hun : exists r w' t,
            (pdf_bind (pdf_log (MsgPdfUnclassified (name item))) (fun _ => pdf_ret l)) w1
            = (r, w')
            /\ pdf_trace w' = (pdf_trace w ++ t)%list
            /\ Forall (pdf_item_event item l) t
            /\ sum_list_with pdf_moved t = sum_list_with pdf_reported t
            /\ (sum_list_with pdf_moved t <= 1)%nat
            /\ match r with
               | Return l' =>
                   pdfs_processed l' = (pdfs_processed l + sum_list_with pdf_moved t)%nat
                   /\ subfolders_grow item l l' t
               | Raise _ => pdf_mkdir_refused E
               end).
  { run_pdf. eexists _, _, _. split; [reflexivity|]. simpl.
    split; [rewrite Ht, <- !app_assoc; reflexivity|].
    split; [constructor; [done|]; apply Forall_app; split; [done|by repeat constructor]|].
    simpl. rewrite !sum_list_with_app, Hm1, Hp1. simpl.
    repeat split; try lia. by left. }
  destruct rec as [r|]; [|exact Hun].
  destruct (PyStr.truthy (suggested_subfolder r)); [|exact Hun]. clear Hun.
  run_pdf. destruct (pdf_mkdir_ok E (pdf_tick w1)) eqn:Hmk; simpl.
  2:{ eexists _, _, _. split; [reflexivity|]. simpl.
      split; [rewrite Ht, <- !app_assoc; reflexivity|].
      split; [by constructor|]. simpl. rewrite Hm1, Hp1.
      repeat split; try lia. by exists (pdf_tick w1). }
  destruct (pdf_move_ok E (S (pdf_tick w1))); simpl.
  - eexists _, _, _. split; [reflexivity|]. simpl.
    split; [rewrite Ht, <- !app_assoc; reflexivity|].
    split.
    { constructor; [done|]. apply Forall_app. split; [done|]. by repeat constructor. }
    simpl. rewrite !sum_list_with_app, Hm1, Hp1. simpl.
    repeat split; try lia.
    destruct (is_new_subfolder r && negb (PyStr.mem _ _)) eqn:Hnew; [|by left].
    right. eexists. split; [reflexivity|].
    apply andb_true_iff in Hnew as [_ Hnew]. apply negb_true_iff, mem_false in Hnew.
    split; [done|]. apply elem_of_cons. right. apply elem_of_app. right.
    apply elem_of_cons. right. by left.
  - eexists _, _, _. split; [reflexivity|]. simpl.
    split; [rewrite Ht, <- !app_assoc; reflexivity|].
    split.
    { constructor; [done|]. apply Forall_app. split; [done|]. by repeat constructor. }
    simpl. rewrite !sum_list_with_app, Hm1, Hp1. simpl.
    repeat split; try lia. by left.
Qed.

Lemma subfolders_grow_prefix item l l' t :
  subfolders_grow item l l' t ->
  existing_subfolders l `prefix_of` existing_subfolders l'
  /\ (NoDup (existing_subfolders l) -> NoDup (existing_subfolders l')).
Proof.
  intros [->|(sub & -> & Hn & _)]; [done|]. split; [by apply prefix_app_r|].
  intros Hnd. apply NoDup_app. split; [done|]. split; [|apply NoDup_singleton].
  intros x Hx ->%list_elem_of_singleton. done.
Qed.

Lemma for_each_pdf_spec E items l w :
  exists r w' t,
    for_each_pdf E items l w = (r, w')
    /\ pdf_trace w' = (pdf_trace w ++ t)%list
    /\ Forall (pdf_run_event items (existing_subfolders l)) t
    /\ sum_list_with pdf_moved t = sum_list_with pdf_reported t
    /\ (sum_list_with pdf_moved t <= length (filter (fun i => is_pdf i = true) items))%nat
    /\ match r with
       | Return l' =>
           pdfs_processed l' = (pdfs_processed l + sum_list_with pdf_moved t)%nat
       | Raise _ => pdf_mkdir_refused E
       end.
Proof.
  revert l w. induction items as [|item rest IH]; intros l w; simpl.
  - exists (Return l), w, []. rewrite app_nil_r. simpl. repeat split; try done; lia.
  - destruct (sort_pdf_spec E item l w) as (r1 & w1 & t1 & Hr1 & Ht1 & F1 & Hb1 & Hle1 & Hc1).
    assert (F1' : Forall (pdf_run_event (item :: rest) (existing_subfolders l)) t1).
    { eapply Forall_impl; [exact F1|]. intros e He.
      destruct e as [| |f ex| |f sub]; simpl in *; try done.
      - destruct He as (Hp & -> & ->). split; [|done]. exists item. split; [by left|done].
      - destruct He as (Hp & ->). exists item. split; [by left|done]. }
    assert (Hlen : (length (filter (fun i => is_pdf i = true) (item :: rest))
                    = (if is_pdf item then 1 else 0)
                      + length (filter (fun i => is_pdf i = true) rest))%nat).
    { rewrite filter_cons. destruct (is_pdf item); by case_decide. }
    unfold pdf_bind. rewrite Hr1. destruct r1 as [l1|e].
    2:{ exists (Raise e), w1, t1. repeat split; try done. lia. }
    destruct Hc1 as [Hc1 Hg].
    apply subfolders_grow_prefix in Hg as [Hpre Hnd].
    destruct (IH l1 w1) as (r2 & w2 & t2 & Hr2 & Ht2 & F2 & Hb2 & Hle2 & Hc2).
    exists r2, w2, (t1 ++ t2)%list. split; [done|].
    split; [by rewrite Ht2, Ht1, app_assoc|].
    split.
    { apply Forall_app. split; [done|]. eapply Forall_impl; [exact F2|]. intros e He.
      destruct e as [| |f ex| |f sub]; simpl in *; try done.
      - destruct He as ((it & Hin & Hp & ->) & Hpre2 & Hnd2).
        split; [exists it; split; [by right|done]|].
        split; [by etrans | auto].
      - destruct He as (it & Hin & Hp & ->). exists it. split; [by right|done]. }
    rewrite !sum_list_with_app. split; [lia|]. split; [lia|].
    destruct r2 as [l2|e2]; [lia | done].
Qed.

(** X25: the PDF agent retries API errors only.  When its first [k] answers are
    API errors ([k] at most the limit) and the next one, if the limit is not
    reached, is something else, the agent is asked [k + 1] times and never
    more than [MAX_RETRIES] times, each time with the same file name and the
    same list of subfolders; it logs each API error and sleeps [RETRY_DELAY]
    seconds after it, the last one included; any other exception ends the
    attempts without a log line; it never raises. *)
Theorem pdf_agent_retries_api_errors_only E filename existing w k :
  pdf_client E = true ->
  (k <= MAX_RETRIES)%nat ->
  (forall j, (j < k)%nat -> classify_pdf E (pdf_tick w + j) = ApiFailure) ->
  ((k < MAX_RETRIES)%nat -> classify_pdf E (pdf_tick w + k) <> ApiFailure) ->
  exists w2,
    classify_pdf_by_image E filename existing w
    = (Return (pdf_answer_after E (pdf_tick w) k), w2)
    /\ pdf_count is_pdf_ask (pdf_added w w2) = Nat.min (S k) MAX_RETRIES
    /\ Forall (pdf_agent_event filename existing) (pdf_added w w2)
    /\ pdf_count is_pdf_log (pdf_added w w2) = k
    /\ sum_list_with pdf_slept (pdf_added w w2) = (k * RETRY_DELAY)%nat.
Proof.
  intros Hc Hk Hfail Hlast.
  unfold classify_pdf_by_image, pdf_answer_after. rewrite Hc. simpl.
  destruct k as [|[|[|[|k]]]]; [| | | |unfold MAX_RETRIES in Hk; lia].
  - specialize (Hlast ltac:(unfold MAX_RETRIES; lia)). clear Hfail.
    rewrite Nat.add_0_r in *. run_pdf.
    destruct (classify_pdf E (pdf_tick w)) as [a| |]; [|done|]; simpl.
    all: eexists; split; [reflexivity|].
    all: erewrite pdf_added_app; [|reflexivity|simpl; rewrite <- ?app_assoc; reflexivity].
    all: repeat split; simpl; try done; by repeat constructor.
  - specialize (Hlast ltac:(unfold MAX_RETRIES; lia)).
    pose proof (Hfail 0%nat ltac:(lia)) as H0. clear Hfail.
    rewrite Nat.add_0_r in H0. rewrite Nat.add_1_r in *. run_pdf. rewrite H0. simpl.
    destruct (classify_pdf E (S (pdf_tick w))) as [a| |]; [|done|]; simpl.
    all: eexists; split; [reflexivity|].
    all: erewrite pdf_added_app; [|reflexivity|simpl; rewrite <- ?app_assoc; reflexivity].
    all: repeat split; simpl; try done; by repeat constructor.
  - specialize (Hlast ltac:(unfold MAX_RETRIES; lia)).
    pose proof (Hfail 0%nat ltac:(lia)) as H0.
    pose proof (Hfail 1%nat ltac:(lia)) as H1. clear Hfail.
    rewrite Nat.add_0_r in H0. rewrite Nat.add_1_r in H1.
    replace (pdf_tick w + 2)%nat with (S (S (pdf_tick w))) in * by lia.
    run_pdf. rewrite H0. simpl. rewrite H1. simpl.
    destruct (classify_pdf E (S (S (pdf_tick w)))) as [a| |]; [|done|]; simpl.
    all: eexists; split; [reflexivity|].
    all: erewrite pdf_added_app; [|reflexivity|simpl; rewrite <- ?app_assoc; reflexivity].
    all: repeat split; simpl; try done; by repeat constructor.
  - clear Hlast.
    pose proof (Hfail 0%nat ltac:(lia)) as H0.
    pose proof (Hfail 1%nat ltac:(lia)) as H1.
    pose proof (Hfail 2%nat ltac:(lia)) as H2. clear Hfail.
    rewrite Nat.add_0_r in H0. rewrite Nat.add_1_r in H1.
    replace (pdf_tick w + 2)%nat with (S (S (pdf_tick w))) in * by lia.
    run_pdf. rewrite H0. simpl. rewrite H1. simpl. rewrite H2. simpl.
    eexists; split; [reflexivity|].
    erewrite pdf_added_app; [|reflexivity|simpl; rewrite <- ?app_assoc; reflexivity].
    repeat split; simpl; try done; by repeat constructor.
Qed.

(** One API error, then the classification: two requests, one error line,
    ten seconds of sleep. *)
Lemma pdf_agent_retries_api_errors_only_witness :
  let w := start_pdf in
  exists w2,
    classify_pdf_by_image pdf_sorter_env "bill.pdf" ["Taxes"] w
    = (Return (pdf_answer_after pdf_sorter_env (pdf_tick w) 1), w2)
    /\ pdf_count is_pdf_ask (pdf_added w w2) = Nat.min 2 MAX_RETRIES
    /\ Forall (pdf_agent_event "bill.pdf" ["Taxes"]) (pdf_added w w2)
    /\ pdf_count is_pdf_log (pdf_added w w2) = 1%nat
    /\ sum_list_with pdf_slept (pdf_added w w2) = (1 * RETRY_DELAY)%nat.
Proof.
  intros w.
  apply (pdf_agent_retries_api_errors_only pdf_sorter_env "bill.pdf" ["Taxes"] w 1).
  - reflexivity.
  - unfold MAX_RETRIES. lia.
  - intros j Hj. destruct j as [|j]; [reflexivity | lia].
  - intros _ H. discriminate H.
Defined.

(** X26: [execute_pdf_sorter] returns the number of PDF files it moved,
    which is the number of moves it reported and at most the number of PDF
    files of the documents folder, and its last log line says that number;
    without a documents folder it returns 0 after saying so.  The exceptions
    that escape it are those that no [try] covers: a listing of the
    documents folder that fails, before anything is moved, and a subfolder
    that cannot be created. *)
Theorem pdf_sorter_counts_its_moves E w :
  match execute_pdf_sorter E w with
  | (Return n, w') =>
      n = sum_list_with pdf_moved (pdf_added w w')
      /\ n = sum_list_with pdf_reported (pdf_added w w')
      /\ (n <= length (filter (fun i => is_pdf i = true) (documents E)))%nat
      /\ last (pdf_trace w')
         = Some (PdfLog (if documents_is_dir E then MsgPdfComplete n else MsgPdfNoFolder))
  | (Raise _, w') =>
      (subfolders_listable E && documents_listable E = false
       /\ pdf_added w w' = [PdfLog MsgPdfStart])
      \/ pdf_mkdir_refused E
  end.
Proof.
  unfold execute_pdf_sorter.
  unfold pdf_bind at 1. unfold pdf_log at 1, pdf_emit at 1. cbv beta iota.
  destruct (documents_is_dir E); simpl.
  2:{ run_pdf. erewrite pdf_added_app; [|reflexivity|simpl; rewrite <- ?app_assoc; reflexivity].
      simpl. repeat split; try lia. by rewrite last_snoc. }
  destruct (subfolders_listable E); simpl.
  2:{ unfold pdf_raise. left. split; [done|].
      erewrite pdf_added_app; [|reflexivity|simpl; reflexivity]. done. }
  destruct (documents_listable E); simpl.
  2:{ unfold pdf_raise. left. split; [done|].
      erewrite pdf_added_app; [|reflexivity|simpl; reflexivity]. done. }
  unfold pdf_bind at 1.
  match goal with |- context [for_each_pdf E ?items ?l ?W] =>
    destruct (for_each_pdf_spec E items l W) as (r & w1 & t & Hr & Ht & F & Hb & Hle & Hc) end.
  rewrite Hr. destruct r as [l|e]; [|by right].
  run_pdf. simpl in *.
  erewrite pdf_added_app; [|reflexivity|simpl; rewrite Ht, <- ?app_assoc; reflexivity].
  simpl. rewrite !sum_list_with_app. simpl.
  repeat split; try lia. by rewrite last_snoc.
Qed.

(** X27: the PDF sorter asks the oracle about PDF files of the documents folder
    and moves nothing else.  The list of subfolders that a request carries
    starts as the names of the directories of the documents folder and only
    grows: every request carries that list, extended by subfolders learned
    earlier in the run, and without duplicates when the directory names are
    distinct. *)
Theorem pdf_sorter_touches_only_pdfs E w :
  Forall
    (pdf_run_event (documents E)
       (map name (filter (fun d => is_dir d = true) (documents E))))
    (pdf_added w (snd (execute_pdf_sorter E w))).
Proof.
  unfold execute_pdf_sorter.
  unfold pdf_bind at 1. unfold pdf_log at 1, pdf_emit at 1. cbv beta iota.
  destruct (documents_is_dir E); simpl.
  2:{ run_pdf. erewrite pdf_added_app; [|reflexivity|simpl; rewrite <- ?app_assoc; reflexivity].
      by repeat constructor. }
  destruct (subfolders_listable E); simpl.
  2:{ unfold pdf_raise. simpl.
      erewrite pdf_added_app; [|reflexivity|simpl; reflexivity]. by repeat constructor. }
  destruct (documents_listable E); simpl.
  2:{ unfold pdf_raise. simpl.
      erewrite pdf_added_app; [|reflexivity|simpl; reflexivity]. by repeat constructor. }
  unfold pdf_bind at 1.
  match goal with |- context [for_each_pdf E ?items ?l ?W] =>
    destruct (for_each_pdf_spec E items l W) as (r & w1 & t & Hr & Ht & F & _) end.
  rewrite Hr. simpl in *. destruct r as [l|e].
  - run_pdf.
    erewrite pdf_added_app; [|reflexivity|simpl; rewrite Ht, <- ?app_assoc; reflexivity].
    constructor; [done|]. apply Forall_app. split; [done|]. by repeat constructor.
  - simpl. erewrite pdf_added_app; [|reflexivity|rewrite Ht, <- ?app_assoc; reflexivity].
    by constructor.
Qed.

(** X28: a subfolder learned for one PDF is offered for the next ones.  Every
    request of an iteration carries the list of subfolders the iteration
    started with; the iteration leaves that list as it is or appends one name
    to it, the name of the subfolder it has just moved the file to, and only
    if that name was not in the list: no duplicate is ever added. *)
Theorem learned_subfolder_is_offered_next E item l w :
  let r := sort_pdf E item l w in
  Forall (pdf_item_event item l) (pdf_added w (snd r))
  /\ match fst r with
     | Return l' =>
         subfolders_grow item l l' (pdf_added w (snd r))
         /\ (NoDup (existing_subfolders l) -> NoDup (existing_subfolders l'))
     | Raise _ => pdf_mkdir_refused E
     end.
Proof.
  intros r. unfold r.
  destruct (sort_pdf_spec E item l w) as (r1 & w1 & t1 & Hr1 & Ht1 & F1 & _ & _ & Hc1).
  rewrite Hr1. simpl.
  erewrite pdf_added_app; [|reflexivity|exact Ht1].
  split; [done|]. destruct r1 as [l'|e]; [|done].
  destruct Hc1 as [_ Hg]. split; [done|]. by apply subfolders_grow_prefix in Hg as [_ ?].
Qed.
